(** * hawkeye: the URL monitor, its change detector, its filters and the manager

    A shallow embedding of the Go packages [pkg/utils], [pkg/monitor]
    (filters, monitor, manager) of nemuizzz/hawkeye, and the properties the
    specification states about them.

    Conventions.
    - A Go [[]byte] is a [list byte]; where the code tests a slice against
      [nil] (the baseline [lastContent]) the slice is an [option (list byte)]
      with [None] for [nil].
    - A Go [int], [int64] or [time.Duration] is a [Z]; [time.Time] is a [Z]
      (nanoseconds on the monitor's clock).
    - A Go [string] that carries text for people (URL, error text, details) is
      a [string]; [string(content)] on a byte slice keeps the bytes, so
      content stays a [list byte].
    - [error] is [option string]: [None] is [nil], [Some msg] an error whose
      [Error()] is [msg].
    - Maps are stdpp's [gmap]; [*Monitor] is an index into a heap of monitors.
    - The Go standard library ([crypto/sha256], [strings], [regexp],
      [unicode/utf8], [fmt]) is not part of the repository; module [Go] gives
      the functions the code calls an executable meaning. *)

From Stdlib Require Import ZArith List String Ascii Bool Lia DecimalString.
From Stdlib.Strings Require Import Byte.
From stdpp Require Import base gmap strings list.
Import ListNotations.
Open Scope Z_scope.

(** A slice that the code may compare with [nil]. *)
Definition Slice := option (list byte).

Definition bytesOf (s : Slice) : list byte :=
  match s with Some l => l | None => [] end.

(** [len(s)] *)
Definition len {A} (l : list A) : Z := Z.of_nat (length l).

(** [s[lo:hi]] for [0 <= lo <= hi <= len(s)] (Go panics otherwise; every
    call site below establishes the bounds). *)
Definition slice {A} (l : list A) (lo hi : Z) : list A :=
  firstn (Z.to_nat (hi - lo)) (skipn (Z.to_nat lo) l).

Definition byteZ (b : byte) : Z := Z.of_N (Byte.to_N b).

Definition Zbyte (z : Z) : byte :=
  match Byte.of_N (Z.to_N (z mod 256)) with
  | Some b => b
  | None => x00
  end.

Definition byte_eqb (a b : byte) : bool := Byte.eqb a b.

(** Wrap-around of a signed 64-bit integer. *)
Definition wrap64 (z : Z) : Z := (z + 2 ^ 63) mod 2 ^ 64 - 2 ^ 63.

(** ** The parts of the Go standard library the code calls *)
Module Go.

(** [fmt.Sprintf("%d", z)] *)
Definition itoa (z : Z) : string := NilZero.string_of_int (Z.to_int z).

(** *** crypto/sha256 (FIPS 180-4), on 32-bit words held in [Z] *)
Module sha256.

Definition w32 (z : Z) : Z := z mod 2 ^ 32.
Definition add32 (a b : Z) : Z := w32 (a + b).
Definition rotr (n x : Z) : Z :=
  Z.lor (Z.shiftr x n) (w32 (Z.shiftl x (32 - n))).
Definition shr (n x : Z) : Z := Z.shiftr x n.
Definition not32 (x : Z) : Z := Z.lxor x (2 ^ 32 - 1).

Definition Ch (x y z : Z) : Z := Z.lxor (Z.land x y) (Z.land (not32 x) z).
Definition Maj (x y z : Z) : Z :=
  Z.lxor (Z.lxor (Z.land x y) (Z.land x z)) (Z.land y z).
Definition Sigma0 (x : Z) : Z := Z.lxor (Z.lxor (rotr 2 x) (rotr 13 x)) (rotr 22 x).
Definition Sigma1 (x : Z) : Z := Z.lxor (Z.lxor (rotr 6 x) (rotr 11 x)) (rotr 25 x).
Definition sigma0 (x : Z) : Z := Z.lxor (Z.lxor (rotr 7 x) (rotr 18 x)) (shr 3 x).
Definition sigma1 (x : Z) : Z := Z.lxor (Z.lxor (rotr 17 x) (rotr 19 x)) (shr 10 x).

(** The first 64 primes. *)
Definition primes : list Z :=
  [ 2; 3; 5; 7; 11; 13; 17; 19; 23; 29; 31; 37; 41; 43; 47; 53; 59; 61; 67; 71;
    73; 79; 83; 89; 97; 101; 103; 107; 109; 113; 127; 131; 137; 139; 149; 151;
    157; 163; 167; 173; 179; 181; 191; 193; 197; 199; 211; 223; 227; 229; 233;
    239; 241; 251; 257; 263; 269; 271; 277; 281; 283; 293; 307; 311 ].

(** The integer cube root of [x], bit by bit from bit [n - 1] down. *)
Fixpoint cbrtBits (n : nat) (x r : Z) : Z :=
  match n with
  | O => r
  | S n' =>
      let r' := r + 2 ^ Z.of_nat n' in
      if r' * r' * r' <=? x then cbrtBits n' x r' else cbrtBits n' x r
  end.

(** The round constants: the first 32 bits of the fractional parts of the
    cube roots of the first 64 primes. *)
Definition K : list Z := map (fun p => w32 (cbrtBits 40 (p * 2 ^ 96) 0)) primes.

(** The initial hash value: the first 32 bits of the fractional parts of
    the square roots of the first 8 primes. *)
Definition H0 : list Z := map (fun p => w32 (Z.sqrt (p * 2 ^ 64))) (firstn 8 primes).

(** Big-endian encoding of [z] on [n] bytes. *)
Fixpoint be_bytes (n : nat) (z : Z) : list byte :=
  match n with
  | O => []
  | S n' => Zbyte (Z.shiftr z (8 * Z.of_nat n')) :: be_bytes n' z
  end.

Definition be_word (b0 b1 b2 b3 : byte) : Z :=
  Z.lor (Z.shiftl (byteZ b0) 24)
    (Z.lor (Z.shiftl (byteZ b1) 16) (Z.lor (Z.shiftl (byteZ b2) 8) (byteZ b3))).

(** The message followed by 0x80, zeros up to 56 mod 64, and its length in
    bits on 8 bytes. *)
Definition pad (msg : list byte) : list byte :=
  let l := len msg in
  let k := (55 - l) mod 64 in
  msg ++ [x80] ++ repeat x00 (Z.to_nat k) ++ be_bytes 8 (8 * l).

Fixpoint words (n : nat) (l : list byte) : list Z :=
  match n, l with
  | S n', b0 :: b1 :: b2 :: b3 :: rest => be_word b0 b1 b2 b3 :: words n' rest
  | _, _ => []
  end.

(** The message schedule, most recent word first: [rev] of [W_0 .. W_{t-1}]. *)
Fixpoint schedule (n : nat) (w : list Z) : list Z :=
  match n with
  | O => w
  | S n' =>
      let wt := add32 (add32 (sigma1 (nth 1 w 0)) (nth 6 w 0))
                      (add32 (sigma0 (nth 14 w 0)) (nth 15 w 0)) in
      schedule n' (wt :: w)
  end.

Definition round (st : list Z) (kw : Z * Z) : list Z :=
  match st with
  | [a; b; c; d; e; f; g; h] =>
      let t1 := add32 (add32 (add32 h (Sigma1 e)) (add32 (Ch e f g) (fst kw))) (snd kw) in
      let t2 := add32 (Sigma0 a) (Maj a b c) in
      [add32 t1 t2; a; b; c; add32 d t1; e; f; g]
  | _ => st
  end.

Fixpoint zipAdd (a b : list Z) : list Z :=
  match a, b with
  | x :: a', y :: b' => add32 x y :: zipAdd a' b'
  | _, _ => []
  end.

Definition block (h : list Z) (blk : list byte) : list Z :=
  let w := rev (schedule 48 (rev (words 16 blk))) in
  zipAdd h (fold_left round (combine K w) h).

Fixpoint blocks (n : nat) (h : list Z) (l : list byte) : list Z :=
  match n with
  | O => h
  | S n' => blocks n' (block h (firstn 64 l)) (skipn 64 l)
  end.

(** [sha256.Sum256]: the 32-byte digest. *)
Definition Sum256 (msg : list byte) : list byte :=
  let p := pad msg in
  flat_map (be_bytes 4) (blocks (length p / 64)%nat H0 p).

End sha256.

(** *** encoding/hex *)
Definition hexdigit (z : Z) : ascii :=
  if z <? 10 then ascii_of_nat (Z.to_nat (48 + z))
  else ascii_of_nat (Z.to_nat (87 + z)).

Fixpoint hex_EncodeToString (l : list byte) : string :=
  match l with
  | [] => EmptyString
  | b :: l' =>
      String (hexdigit (byteZ b / 16))
        (String (hexdigit (byteZ b mod 16)) (hex_EncodeToString l'))
  end.

(** *** unicode/utf8 and unicode *)
Module utf8.

Definition RuneError : Z := 0xFFFD.

(** A continuation byte, 0x80..0xBF. *)
Definition cont (b : byte) : bool := (0x80 <=? byteZ b) && (byteZ b <=? 0xBF).

(** [utf8.DecodeRune]: the first rune of [p] and its width in bytes; an
    invalid or truncated encoding is [RuneError] of width 1, the empty input
    [RuneError] of width 0. *)
Definition DecodeRune (p : list byte) : Z * nat :=
  match p with
  | [] => (RuneError, 0%nat)
  | b0 :: rest =>
      let p0 := byteZ b0 in
      if p0 <? 0x80 then (p0, 1%nat)
      else if (p0 <? 0xC2) || (0xF4 <? p0) then (RuneError, 1%nat)
      else
        let lo := if p0 =? 0xE0 then 0xA0 else if p0 =? 0xF0 then 0x90 else 0x80 in
        let hi := if p0 =? 0xED then 0x9F else if p0 =? 0xF4 then 0x8F else 0xBF in
        match rest with
        | [] => (RuneError, 1%nat)
        | b1 :: rest1 =>
            let c1 := byteZ b1 in
            if p0 <? 0xE0 then
              if (c1 <? lo) || (hi <? c1) then (RuneError, 1%nat)
              else (Z.lor (Z.shiftl (Z.land p0 0x1F) 6) (Z.land c1 0x3F), 2%nat)
            else
              match rest1 with
              | [] => (RuneError, 1%nat)
              | b2 :: rest2 =>
                  let c2 := byteZ b2 in
                  if p0 <? 0xF0 then
                    if (c1 <? lo) || (hi <? c1) || negb (cont b2) then (RuneError, 1%nat)
                    else (Z.lor (Z.shiftl (Z.land p0 0x0F) 12)
                            (Z.lor (Z.shiftl (Z.land c1 0x3F) 6) (Z.land c2 0x3F)), 3%nat)
                  else
                    match rest2 with
                    | [] => (RuneError, 1%nat)
                    | b3 :: _ =>
                        if (c1 <? lo) || (hi <? c1) || negb (cont b2) || negb (cont b3)
                        then (RuneError, 1%nat)
                        else (Z.lor (Z.shiftl (Z.land p0 0x07) 18)
                                (Z.lor (Z.shiftl (Z.land c1 0x3F) 12)
                                   (Z.lor (Z.shiftl (Z.land c2 0x3F) 6)
                                      (Z.land (byteZ b3) 0x3F))), 4%nat)
                    end
              end
        end
  end.

(** The start of the last rune: from [start], at most [n] steps back to a
    byte that is not a continuation byte, not below [lim]. *)
Fixpoint runeStart (n : nat) (p : list byte) (start lim : Z) : Z :=
  match n with
  | O => start
  | S n' =>
      if start <? lim then start
      else if negb (cont (nth (Z.to_nat start) p x00)) then start
      else runeStart n' p (start - 1) lim
  end.

(** [utf8.DecodeLastRune] *)
Definition DecodeLastRune (p : list byte) : Z * nat :=
  let e := len p in
  if e =? 0 then (RuneError, 0%nat)
  else
    let r := byteZ (nth (Z.to_nat (e - 1)) p x00) in
    if r <? 0x80 then (r, 1%nat)
    else
      let lim := Z.max 0 (e - 4) in
      let start := Z.max 0 (runeStart 4 p (e - 2) lim) in
      let '(r', size) := DecodeRune (slice p start e) in
      if start + Z.of_nat size =? e then (r', size) else (RuneError, 1%nat).

(** [unicode.IsSpace] *)
Definition IsSpace (r : Z) : bool :=
  ((0x09 <=? r) && (r <=? 0x0D)) || (r =? 0x20) || (r =? 0x85) || (r =? 0xA0)
  || (r =? 0x1680) || ((0x2000 <=? r) && (r <=? 0x200A))
  || (r =? 0x2028) || (r =? 0x2029) || (r =? 0x202F) || (r =? 0x205F)
  || (r =? 0x3000).

End utf8.

(** *** strings *)
Module strings.

Fixpoint HasPrefix (s prefix : list byte) : bool :=
  match prefix, s with
  | [], _ => true
  | p :: prefix', x :: s' => byte_eqb x p && HasPrefix s' prefix'
  | _ :: _, [] => false
  end.

(** [strings.ReplaceAll] for a non-empty [old]: the non-overlapping
    occurrences, left to right. ([n] bounds the bytes still to scan.) *)
Fixpoint replaceFrom (n : nat) (s old new : list byte) : list byte :=
  match n, s with
  | S n', b :: rest =>
      if HasPrefix s old then new ++ replaceFrom n' (skipn (length old) s) old new
      else b :: replaceFrom n' rest old new
  | _, _ => s
  end.

(** [strings.ReplaceAll] for an empty [old]: [new] before every rune and at
    the end. *)
Fixpoint insertAtRunes (n : nat) (s new : list byte) : list byte :=
  match n, s with
  | S n', _ :: _ =>
      let w := snd (utf8.DecodeRune s) in
      new ++ firstn w s ++ insertAtRunes n' (skipn w s) new
  | _, _ => new
  end.

Definition ReplaceAll (s old new : list byte) : list byte :=
  match old with
  | [] => insertAtRunes (length s) s new
  | _ :: _ => replaceFrom (length s) s old new
  end.

(** [strings.Fields]: the maximal runs of runes that are not white space.
    [cur] is the field being read. *)
Fixpoint fieldsFrom (n : nat) (s cur : list byte) : list (list byte) :=
  match n, s with
  | S n', _ :: _ =>
      let '(r, w) := utf8.DecodeRune s in
      if utf8.IsSpace r then
        match cur with
        | [] => fieldsFrom n' (skipn w s) []
        | _ :: _ => cur :: fieldsFrom n' (skipn w s) []
        end
      else fieldsFrom n' (skipn w s) (cur ++ firstn w s)
  | _, _ => match cur with [] => [] | _ :: _ => [cur] end
  end.

Definition Fields (s : list byte) : list (list byte) := fieldsFrom (length s) s [].

(** [strings.Join] *)
Fixpoint Join (elems : list (list byte)) (sep : list byte) : list byte :=
  match elems with
  | [] => []
  | [e] => e
  | e :: rest => e ++ sep ++ Join rest sep
  end.

Fixpoint trimLeft (n : nat) (s : list byte) : list byte :=
  match n, s with
  | S n', _ :: _ =>
      let '(r, w) := utf8.DecodeRune s in
      if utf8.IsSpace r then trimLeft n' (skipn w s) else s
  | _, _ => s
  end.

Fixpoint trimRight (n : nat) (s : list byte) : list byte :=
  match n, s with
  | S n', _ :: _ =>
      let '(r, w) := utf8.DecodeLastRune s in
      if utf8.IsSpace r then trimRight n' (firstn (length s - w) s) else s
  | _, _ => s
  end.

(** [strings.TrimSpace]: the white-space runes at both ends removed. *)
Definition TrimSpace (s : list byte) : list byte :=
  let l := trimLeft (length s) s in trimRight (length l) l.

End strings.

(** *** regexp

    The patterns are those built from literal ASCII bytes, classes of ASCII
    bytes, concatenation, alternation, greedy repetition and capturing
    groups; a value of [Regexp] stands for the pattern [regexp.Compile]
    returns. Matching is leftmost-first, as in Go: the alternatives are tried
    in order, a repetition takes as many rounds as it can, and an earlier
    choice is undone only when the rest fails. *)
Module regexp.

Inductive Regexp :=
| Empty
| Lit (b : byte)
| CharClass (ranges : list (byte * byte))
| Concat (r1 r2 : Regexp)
| Alternate (r1 r2 : Regexp)
| Star (r : Regexp)
| Capture (i : nat) (r : Regexp).

(** [r+], [r?], [r{n}], [r{0,n}], [r{lo,hi}] *)
Definition Plus (r : Regexp) : Regexp := Concat r (Star r).
Definition Quest (r : Regexp) : Regexp := Alternate r Empty.
Fixpoint Repeat (n : nat) (r : Regexp) : Regexp :=
  match n with
  | O => Empty
  | S n' => Concat r (Repeat n' r)
  end.
Fixpoint RepeatUpTo (n : nat) (r : Regexp) : Regexp :=
  match n with
  | O => Empty
  | S n' => Quest (Concat r (RepeatUpTo n' r))
  end.
Definition RepeatRange (lo hi : nat) (r : Regexp) : Regexp :=
  Concat (Repeat lo r) (RepeatUpTo (hi - lo) r).

(** A literal string. *)
Fixpoint Literal (l : list byte) : Regexp :=
  match l with
  | [] => Empty
  | [b] => Lit b
  | b :: l' => Concat (Lit b) (Literal l')
  end.

Definition inRanges (x : byte) (ranges : list (byte * byte)) : bool :=
  existsb (fun r => (byteZ (fst r) <=? byteZ x) && (byteZ x <=? byteZ (snd r))) ranges.

(** The groups that took part in a match, the most recent first: group
    number, start and end offset. *)
Definition Caps := list (nat * (nat * nat)).

Definition Cont := list byte -> nat -> Caps -> option (nat * Caps).

(** [matchk r s pos c k]: match [r] at offset [pos], where the input that is
    left is [s], then continue with [k]; the end of the whole match and its
    groups. *)
Fixpoint matchk (r : Regexp) (s : list byte) (pos : nat) (c : Caps) (k : Cont)
  : option (nat * Caps) :=
  match r with
  | Empty => k s pos c
  | Lit b =>
      match s with
      | x :: s' => if byte_eqb x b then k s' (S pos) c else None
      | [] => None
      end
  | CharClass ranges =>
      match s with
      | x :: s' => if inRanges x ranges then k s' (S pos) c else None
      | [] => None
      end
  | Concat r1 r2 => matchk r1 s pos c (fun s' p' c' => matchk r2 s' p' c' k)
  | Alternate r1 r2 =>
      match matchk r1 s pos c k with
      | Some res => Some res
      | None => matchk r2 s pos c k
      end
  | Star r' =>
      (fix rounds (n : nat) (s : list byte) (pos : nat) (c : Caps) :=
         match n with
         | O => k s pos c
         | S n' =>
             match matchk r' s pos c
                     (fun s' p' c' => if (pos <? p')%nat then rounds n' s' p' c' else None)
             with
             | Some res => Some res
             | None => k s pos c
             end
         end) (length s) s pos c
  | Capture i r' => matchk r' s pos c (fun s' p' c' => k s' p' ((i, (pos, p')) :: c'))
  end.

Definition matchAt (re : Regexp) (s : list byte) (pos : nat) : option (nat * Caps) :=
  matchk re s pos [] (fun _ p c => Some (p, c)).

(** The leftmost match at or after [pos], where [s] is the input from [pos]
    on: start, end, groups. *)
Fixpoint search (re : Regexp) (s : list byte) (pos : nat) : option (nat * nat * Caps) :=
  match matchAt re s pos with
  | Some (e, c) => Some (pos, e, c)
  | None =>
      match s with
      | [] => None
      | _ :: s' => search re s' (S pos)
      end
  end.

(** [re.doExecute] from [pos] in [src]. *)
Definition doExecute (re : Regexp) (src : list byte) (pos : nat) : option (nat * nat * Caps) :=
  search re (skipn pos src) pos.

Definition isNameByte (b : byte) : bool :=
  let z := byteZ b in
  ((0x30 <=? z) && (z <=? 0x39)) || ((0x41 <=? z) && (z <=? 0x5A))
  || ((0x61 <=? z) && (z <=? 0x7A)) || (z =? 0x5F).

Fixpoint nameLen (s : list byte) : nat :=
  match s with
  | b :: s' => if isNameByte b then S (nameLen s') else O
  | [] => O
  end.

(** The number a name spells, or -1: digits only, no leading zero, and the
    guard of [extract] against overflow. *)
Fixpoint nameNum (name : list byte) (num : Z) : Z :=
  match name with
  | [] => num
  | b :: name' =>
      let z := byteZ b in
      if (z <? 0x30) || (0x39 <? z) || (100000000 <=? num) then -1
      else nameNum name' (num * 10 + z - 0x30)
  end.

(** [extract]: the reference at the start of [str] (just after a [$]): its
    number (-1 for a name) and what follows it. The letters and digits of a
    name are the ASCII ones. *)
Definition extract (str : list byte) : option (Z * list byte) :=
  let '(brace, body) :=
    match str with
    | "{"%byte :: rest => (true, rest)
    | _ => (false, str)
    end in
  let i := nameLen body in
  if (i =? 0)%nat then None
  else
    let name := firstn i body in
    let after := skipn i body in
    let num := nameNum name 0 in
    let num := match name with
               | "0"%byte :: _ :: _ => -1
               | _ => num
               end in
    if brace then
      match after with
      | "}"%byte :: rest => Some (num, rest)
      | _ => None
      end
    else Some (num, after).

(** The text of group [num] in the match [(a0, a1, caps)] of [src]; a group
    that did not take part, or a name ([num < 0]: the patterns here have no
    named groups), gives nothing. *)
Definition group (src : list byte) (a0 a1 : nat) (caps : Caps) (num : Z) : list byte :=
  if num <? 0 then []
  else if num =? 0 then firstn (a1 - a0) (skipn a0 src)
  else
    match List.find (fun e => (fst e =? Z.to_nat num)%nat) caps with
    | Some (_, (lo, hi)) => firstn (hi - lo) (skipn lo src)
    | None => []
    end.

(** [re.expand]: the template with [$$], [$name] and [${name}] replaced. *)
Fixpoint expand (n : nat) (template src : list byte) (a0 a1 : nat) (caps : Caps)
  : list byte :=
  match n, template with
  | S n', "$"%byte :: rest =>
      match rest with
      | "$"%byte :: rest' => "$"%byte :: expand n' rest' src a0 a1 caps
      | _ =>
          match extract rest with
          | None => "$"%byte :: expand n' rest src a0 a1 caps
          | Some (num, rest') => group src a0 a1 caps num ++ expand n' rest' src a0 a1 caps
          end
      end
  | S n', b :: rest => b :: expand n' rest src a0 a1 caps
  | _, _ => []
  end.

(** The loop of [re.replaceAll]: [buf] is the output so far, [searchPos]
    where the next match is looked for, [lastMatchEnd] the end of the match
    before. *)
Fixpoint replaceLoop (n : nat) (re : Regexp) (src repl : list byte)
    (searchPos lastMatchEnd : nat) (buf : list byte) : list byte :=
  match n with
  | O => buf ++ skipn lastMatchEnd src
  | S n' =>
      if (length src <? searchPos)%nat then buf ++ skipn lastMatchEnd src
      else
        match doExecute re src searchPos with
        | None => buf ++ skipn lastMatchEnd src
        | Some (a0, a1, caps) =>
            let buf := buf ++ firstn (a0 - lastMatchEnd) (skipn lastMatchEnd src) in
            let buf :=
              if (lastMatchEnd <? a1)%nat || (a0 =? 0)%nat
              then buf ++ expand (length repl) repl src a0 a1 caps
              else buf in
            let width := snd (utf8.DecodeRune (skipn searchPos src)) in
            let searchPos' :=
              if (a1 <? searchPos + width)%nat then (searchPos + width)%nat
              else if (a1 <? searchPos + 1)%nat then (searchPos + 1)%nat
              else a1 in
            replaceLoop n' re src repl searchPos' a1 buf
        end
  end.

(** [re.ReplaceAll(src, repl)] *)
Definition ReplaceAll (re : Regexp) (src repl : list byte) : list byte :=
  replaceLoop (S (length src)) re src repl 0 0 [].

End regexp.

End Go.

(** ** pkg/utils *)

(** [CalculateSHA256] *)
Definition CalculateSHA256 (data : list byte) : string :=
  Go.hex_EncodeToString (Go.sha256.Sum256 data).

(** [ByteSliceEqual]: lengths first, then byte by byte. *)
Fixpoint sameBytes (a b : list byte) : bool :=
  match a, b with
  | x :: a', y :: b' => if byte_eqb x y then sameBytes a' b' else false
  | _, _ => true
  end.

Definition ByteSliceEqual (a b : list byte) : bool :=
  if negb (len a =? len b) then false else sameBytes a b.


(** ** pkg/monitor: filters.go *)

(** The interface [ContentFilter]: a value with the two methods. *)
Module ContentFilter.
Record ContentFilter := {
  Apply : list byte -> list byte;
  Description : string
}.
End ContentFilter.
Abbreviation ContentFilter := ContentFilter.ContentFilter.

Record RegexFilter := {
  pattern : Go.regexp.Regexp;
  replacement : list byte;
  description : string
}.

Module RegexFilter.

(** [RegexFilter.Apply] *)
Definition Apply (f : RegexFilter) (content : list byte) : list byte :=
  Go.regexp.ReplaceAll (pattern f) content (replacement f).

(** [RegexFilter.Description] *)
Definition Description (f : RegexFilter) : string := description f.

(** A [*RegexFilter] used as a [ContentFilter]. *)
Definition asContentFilter (f : RegexFilter) : ContentFilter :=
  {| ContentFilter.Apply := Apply f; ContentFilter.Description := Description f |}.

End RegexFilter.

(** [NewRegexFilter]. The pattern comes with what [regexp.Compile] makes of
    it: [inl re], or [inr err] for a pattern that does not parse. *)
Definition NewRegexFilter (pattern : Go.regexp.Regexp + string)
    (replacement description : string) : RegexFilter + string :=
  match pattern with
  | inr err => inr err
  | inl re =>
      inl {| pattern := re;
             replacement := list_byte_of_string replacement;
             description := description |}
  end.

Module Patterns.
Import Go.regexp.

(** [\d] and [[+-]] *)
Definition digit : Regexp := CharClass [("0"%byte, "9"%byte)].
Definition sign : Regexp := CharClass [("+"%byte, "+"%byte); ("-"%byte, "-"%byte)].

Fixpoint seq (l : list Regexp) : Regexp :=
  match l with
  | [] => Empty
  | [r] => r
  | r :: l' => Concat r (seq l')
  end.

(** [(\d{4}-\d{2}-\d{2}T\d{2}:\d{2}:\d{2}([+-]\d{2}:?\d{2}|Z))|]
    [(\d{4}\d{2}\d{2}\d{2}\d{2}[+-]\d{4})|(\d{10,13})] *)
Definition timestamp : Regexp :=
  Alternate
    (Capture 1
       (seq [Repeat 4 digit; Lit "-"; Repeat 2 digit; Lit "-"; Repeat 2 digit; Lit "T";
             Repeat 2 digit; Lit ":"; Repeat 2 digit; Lit ":"; Repeat 2 digit;
             Capture 2
               (Alternate (seq [sign; Repeat 2 digit; Quest (Lit ":"); Repeat 2 digit])
                          (Lit "Z"))]))
    (Alternate
       (Capture 3
          (seq [Repeat 4 digit; Repeat 2 digit; Repeat 2 digit; Repeat 2 digit;
                Repeat 2 digit; sign; Repeat 4 digit]))
       (Capture 4 (RepeatRange 10 13 digit))).

(** [\d{4}-\d{2}-\d{2}|\d{2}/\d{2}/\d{4}|\d{2}\.\d{2}\.\d{4}] *)
Definition date : Regexp :=
  Alternate
    (seq [Repeat 4 digit; Lit "-"; Repeat 2 digit; Lit "-"; Repeat 2 digit])
    (Alternate
       (seq [Repeat 2 digit; Lit "/"; Repeat 2 digit; Lit "/"; Repeat 4 digit])
       (seq [Repeat 2 digit; Lit "."; Repeat 2 digit; Lit "."; Repeat 4 digit])).

End Patterns.

(** [NewTimestampFilter] *)
Definition NewTimestampFilter : RegexFilter + string :=
  NewRegexFilter (inl Patterns.timestamp) "TIMESTAMP" "Ignore timestamps".

(** [NewDateFilter] *)
Definition NewDateFilter : RegexFilter + string :=
  NewRegexFilter (inl Patterns.date) "DATE" "Ignore date strings".

(** [ContentFilterList] *)
Module ContentFilterList.

(** [ContentFilterList.Apply]: every filter in turn. *)
Definition Apply (l : list ContentFilter) (content : list byte) : list byte :=
  fold_left (fun result filter => ContentFilter.Apply filter result) l content.

End ContentFilterList.

(** [CreateDefaultFilters] *)
Definition CreateDefaultFilters : list ContentFilter + string :=
  match NewTimestampFilter with
  | inr err => inr err
  | inl tsFilter =>
      match NewDateFilter with
      | inr err => inr err
      | inl dateFilter =>
          inl [RegexFilter.asContentFilter tsFilter; RegexFilter.asContentFilter dateFilter]
      end
  end.

(** ** pkg/monitor: monitor.go *)

(** [ChangeDetectionMethod], an [int] *)
Definition MethodHash : Z := 0.
Definition MethodLength : Z := 1.
Definition MethodCustom : Z := 2.

Definition ErrURLEmpty : string := "URL cannot be empty".
Definition ErrInvalidInterval : string := "interval must be greater than zero".
Definition ErrMonitorStopped : string := "monitor has been stopped".

Module Change.
Record Change := {
  URL : string;
  Timestamp : Z;
  HasChanged : bool;
  StatusCode : Z;
  ContentType : string;
  Error : string;
  Details : string
}.
(** [Change{}] *)
Definition zero : Change :=
  {| URL := ""; Timestamp := 0; HasChanged := false; StatusCode := 0;
     ContentType := ""; Error := ""; Details := "" |}.
End Change.
Abbreviation Change := Change.Change.

Module Config.
Record Config := {
  URL : string;
  Interval : Z;
  Timeout : Z;
  Headers : gmap string string;
  IgnoreSelectors : list string;
  Method : Z;
  CustomCompareFn : option (list byte -> list byte -> bool * string);
  RetryCount : Z;
  RetryInterval : Z;
  FollowRedirects : bool;
  IncludeResponseBody : bool;
  NormalizeWhitespace : bool;
  ContentFilters : list ContentFilter;
  IgnoreTimestamps : bool
}.
End Config.
Abbreviation Config := Config.Config.

Definition Second : Z := 1000000000.
Definition Minute : Z := 60 * Second.

(** The monitor. Of its channels and its context the record keeps what the
    code can observe of them: [ctxDone] holds once [cancel] was called,
    [stopClosed] once [m.stop] was closed. The HTTP client is the network
    the checks run against, and the lock has no effect on one thread. *)
Record Monitor := {
  config : Config;
  lastContent : Slice;
  lastCheck : Z;
  ctxDone : bool;
  stopClosed : bool;
  checkCount : Z;
  status : string;
  isFirstCheck : bool;
  filters : list ContentFilter
}.

(** [DefaultConfig] *)
Definition DefaultConfig (url : string) : Config :=
  {| Config.URL := url;
     Config.Interval := Minute * 5;
     Config.Timeout := Second * 30;
     Config.Headers := ∅;
     Config.IgnoreSelectors := [];
     Config.Method := MethodHash;
     Config.CustomCompareFn := None;
     Config.RetryCount := 3;
     Config.RetryInterval := Second * 10;
     Config.FollowRedirects := true;
     Config.IncludeResponseBody := false;
     Config.NormalizeWhitespace := false;
     Config.ContentFilters := [];
     Config.IgnoreTimestamps := false |}.

Definition withInterval (c : Config) (interval : Z) : Config :=
  {| Config.URL := Config.URL c;
     Config.Interval := interval;
     Config.Timeout := Config.Timeout c;
     Config.Headers := Config.Headers c;
     Config.IgnoreSelectors := Config.IgnoreSelectors c;
     Config.Method := Config.Method c;
     Config.CustomCompareFn := Config.CustomCompareFn c;
     Config.RetryCount := Config.RetryCount c;
     Config.RetryInterval := Config.RetryInterval c;
     Config.FollowRedirects := Config.FollowRedirects c;
     Config.IncludeResponseBody := Config.IncludeResponseBody c;
     Config.NormalizeWhitespace := Config.NormalizeWhitespace c;
     Config.ContentFilters := Config.ContentFilters c;
     Config.IgnoreTimestamps := Config.IgnoreTimestamps c |}.

(** [NewMonitorWithConfig] *)
Definition NewMonitorWithConfig (config : Config) : Monitor :=
  let filters := Config.ContentFilters config in
  let filters :=
    if Config.IgnoreTimestamps config then
      match NewTimestampFilter with
      | inl tsFilter => filters ++ [RegexFilter.asContentFilter tsFilter]
      | inr _ => filters
      end
    else filters in
  {| config := config;
     lastContent := None;
     lastCheck := 0;
     ctxDone := false;
     stopClosed := false;
     checkCount := 0;
     status := "";
     isFirstCheck := true;
     filters := filters |}.

(** [NewMonitor] *)
Definition NewMonitor (url : string) (interval : Z) : Monitor :=
  NewMonitorWithConfig (withInterval (DefaultConfig url) interval).

(** What a call can end in: a value, or a run-time panic. *)
Inductive Result (A : Type) : Type :=
| Ok (a : A)
| Panic (msg : string).
Arguments Ok {A} a.
Arguments Panic {A} msg.

(** What one GET meets: no response at all (the request could not be built
    or [client.Do] returned an error), or a response with its status line
    and headers, whose body is then read in full or fails while read. *)
Inductive Body :=
| BodyRead (content : list byte)
| BodyError (err : string).

Inductive Reply :=
| NoResponse (err : string)
| Response (StatusCode : Z) (ContentType : string) (body : Body).

(** The world a monitor runs in: the clock read by [time.Now] and the number
    of requests sent so far; request number [n] meets [net n]. *)
Record World := {
  clock : Z;
  requests : nat
}.

(** What a monitor does to the world, in order. *)
Inductive Effect :=
| EGet (n : nat)
| ESleep (d : Z)
| ESend (c : Change)
| EClose.

Definition newline : string := String (ascii_of_nat 10) EmptyString.

Module Monitor.

Definition setLastContent (m : Monitor) (content : Slice) : Monitor :=
  {| config := config m; lastContent := content; lastCheck := lastCheck m;
     ctxDone := ctxDone m; stopClosed := stopClosed m; checkCount := checkCount m;
     status := status m; isFirstCheck := isFirstCheck m; filters := filters m |}.

(** [GetStatus] *)
Definition GetStatus (m : Monitor) : Z * string * Z :=
  (lastCheck m, status m, checkCount m).

(** [GetURL] *)
Definition GetURL (m : Monitor) : string := Config.URL (config m).

(** [byteSliceEqual] *)
Definition byteSliceEqual (a b : list byte) : bool := ByteSliceEqual a b.

(** [calculateHash] *)
Definition calculateHash (content : list byte) : list byte :=
  Go.sha256.Sum256 content.

(** The loop of [findDifference]: the first index, counted from [i], at
    which both have a byte and the bytes differ; -1 when one of them ends
    first. *)
Fixpoint scanDiff (i : Z) (oldStr newStr : list byte) : Z :=
  match oldStr, newStr with
  | x :: oldStr', y :: newStr' =>
      if negb (byte_eqb x y) then i else scanDiff (i + 1) oldStr' newStr'
  | _, _ => -1
  end.

(** The position [findDifference] reports, when it reports one. *)
Definition diffPosition (oldStr newStr : list byte) : Z :=
  let diffPos := scanDiff 0 oldStr newStr in
  if diffPos <? 0 then Z.min (len oldStr) (len newStr) else diffPos.

(** The message of [findDifference] for a position and the two contexts. *)
Definition differsAt (diffPos : Z) (oldCtx newCtx : list byte) : string :=
  ("Content differs at position " ++ Go.itoa diffPos ++ newline
   ++ "Old: ..." ++ string_of_list_byte oldCtx ++ "..." ++ newline
   ++ "New: ..." ++ string_of_list_byte newCtx ++ "...")%string.

(** [findDifference] *)
Definition findDifference (oldContent newContent : list byte) : string :=
  let oldStr := oldContent in
  let newStr := newContent in
  let diffPos := scanDiff 0 oldStr newStr in
  if (0 <=? diffPos) || negb (len oldStr =? len newStr) then
    let diffPos := diffPosition oldStr newStr in
    let start := diffPos - 20 in
    let start := if start <? 0 then 0 else start in
    let oldEnd := diffPos + 20 in
    let oldEnd := if len oldStr <? oldEnd then len oldStr else oldEnd in
    let newEnd := diffPos + 20 in
    let newEnd := if len newStr <? newEnd then len newStr else newEnd in
    differsAt diffPos (slice oldStr start oldEnd) (slice newStr start newEnd)
  else "Content changed but no specific difference found"%string.

(** [normalizeContent] *)
Definition normalizeContent (m : Monitor) (content : list byte) : list byte :=
  if len content =? 0 then content
  else
    let str := content in
    let str := Go.strings.ReplaceAll str [x0d; x0a] [x0a] in
    let str := Go.strings.ReplaceAll str [x0d] [x0a] in
    let str :=
      if Config.NormalizeWhitespace (config m) then
        let str := Go.strings.Join (Go.strings.Fields str) [x20] in
        Go.strings.TrimSpace str
      else str in
    str.

(** What [detectChange] compares: the content after the filters and, when
    configured, the normalization. *)
Definition compared (m : Monitor) (content : list byte) : list byte :=
  let c := if 0 <? len (filters m) then ContentFilterList.Apply (filters m) content
           else content in
  if Config.NormalizeWhitespace (config m) then normalizeContent m c else c.

(** [detectChange]: the monitor afterwards, [changed] and [details]. *)
Definition detectChange (m : Monitor) (content : Slice) : Monitor * bool * string :=
  match lastContent m with
  | None => (setLastContent m content, false, ""%string)
  | Some last =>
      let compareContent := bytesOf content in
      let compareLast := last in
      let '(compareContent, compareLast) :=
        if 0 <? len (filters m)
        then (ContentFilterList.Apply (filters m) compareContent,
              ContentFilterList.Apply (filters m) compareLast)
        else (compareContent, compareLast) in
      let '(compareContent, compareLast) :=
        if Config.NormalizeWhitespace (config m)
        then (normalizeContent m compareContent, normalizeContent m compareLast)
        else (compareContent, compareLast) in
      let method := Config.Method (config m) in
      if method =? MethodHash then
        let currentHash := calculateHash compareContent in
        let lastHash := calculateHash compareLast in
        let changed := negb (byteSliceEqual currentHash lastHash) in
        if changed then
          let details := findDifference compareLast compareContent in
          (setLastContent m content, true, details)
        else (m, false, ""%string)
      else if method =? MethodLength then
        let oldLen := len compareLast in
        let newLen := len compareContent in
        if negb (oldLen =? newLen) then
          let details := findDifference compareLast compareContent in
          (setLastContent m content, true, details)
        else (m, false, ""%string)
      else if method =? MethodCustom then
        match Config.CustomCompareFn (config m) with
        | Some fn =>
            let '(changed, details) := fn compareLast compareContent in
            if changed then (setLastContent m content, true, details)
            else (m, false, ""%string)
        | None => (m, false, ""%string)
        end
      else (m, false, ""%string)
  end.

(** [fetchContent], on what the request meets: content, change and error. *)
Definition fetchContent (m : Monitor) (w : World) (r : Reply)
  : Slice * Change * option string :=
  match r with
  | NoResponse err => (None, Change.zero, Some err)
  | Response statusCode contentType body =>
      let change :=
        {| Change.URL := Config.URL (config m);
           Change.Timestamp := clock w;
           Change.HasChanged := false;
           Change.StatusCode := statusCode;
           Change.ContentType := contentType;
           Change.Error := "";
           Change.Details := "" |} in
      if (statusCode <? 200) || (300 <=? statusCode) then
        (None, change, Some ("unexpected status code: " ++ Go.itoa statusCode)%string)
      else
        match body with
        | BodyError err => (None, change, Some err)
        | BodyRead content => (Some content, change, None)
        end
  end.

(** [time.Sleep] *)
Definition sleep (d : Z) (w : World) : World :=
  {| clock := clock w + Z.max 0 d; requests := requests w |}.

Definition sent (w : World) : World :=
  {| clock := clock w; requests := S (requests w) |}.

(** The event of a check that ran out of attempts. *)
Definition errorChange (m : Monitor) (w : World) (err : string) : Change :=
  {| Change.URL := Config.URL (config m);
     Change.Timestamp := clock w;
     Change.HasChanged := false;
     Change.StatusCode := 0;
     Change.ContentType := "";
     Change.Error := err;
     Change.Details := "" |}.

(** The retry loop of [performCheck], from the value [i] of its counter with
    [n] rounds to go ([n] is [RetryCount - i + 1], or 0 when [i] is past
    [RetryCount]); [st] holds [content], [change] and [err]. *)
Fixpoint attempts (net : nat -> Reply) (m : Monitor) (n : nat) (i : Z) (w : World)
    (st : Slice * Change * option string)
  : Slice * Change * option string * World * list Effect :=
  match n with
  | O => (st, w, [])
  | S n' =>
      let '(w, tr) := if 0 <? i
                      then (sleep (Config.RetryInterval (config m)) w,
                            [ESleep (Config.RetryInterval (config m))])
                      else (w, []) in
      let '(content, change, err) := fetchContent m w (net (requests w)) in
      let tr := tr ++ [EGet (requests w)] in
      let w := sent w in
      match err with
      | None => ((content, change, err), w, tr)
      | Some e =>
          let change := if i =? Config.RetryCount (config m)
                        then errorChange m w e else change in
          let '(st', w', tr') := attempts net m n' (i + 1) w (content, change, err) in
          (st', w', tr ++ tr')
      end
  end.

Definition checking (m : Monitor) : Monitor :=
  {| config := config m; lastContent := lastContent m; lastCheck := lastCheck m;
     ctxDone := ctxDone m; stopClosed := stopClosed m;
     checkCount := wrap64 (checkCount m + 1);
     status := "checking"; isFirstCheck := isFirstCheck m; filters := filters m |}.

Definition checked (m : Monitor) (now : Z) : Monitor :=
  {| config := config m; lastContent := lastContent m; lastCheck := now;
     ctxDone := ctxDone m; stopClosed := stopClosed m; checkCount := checkCount m;
     status := "idle"; isFirstCheck := false; filters := filters m |}.

Definition reported (change : Change) (details : string) : Change :=
  {| Change.URL := Change.URL change;
     Change.Timestamp := Change.Timestamp change;
     Change.HasChanged := true;
     Change.StatusCode := Change.StatusCode change;
     Change.ContentType := Change.ContentType change;
     Change.Error := Change.Error change;
     Change.Details := details |}.

(** The fetch of one check, with its retries. *)
Definition fetchWithRetry (net : nat -> Reply) (m : Monitor) (w : World)
  : Slice * Change * option string * World * list Effect :=
  attempts net m (Z.to_nat (Config.RetryCount (config m) + 1)) 0 w
    (None, Change.zero, None).

(** [performCheck]: one check cycle. *)
Definition performCheck (net : nat -> Reply) (m : Monitor) (w : World)
  : Monitor * World * list Effect :=
  let m := checking m in
  let '(content, change, err, w, tr) := fetchWithRetry net m w in
  match err with
  | Some _ => (m, w, tr ++ [ESend change])
  | None =>
      let '(m, changed, details) := detectChange m content in
      let isFirst := isFirstCheck m in
      let m := checked m (clock w) in
      if isFirst then (m, w, tr)
      else if changed then (m, w, tr ++ [ESend (reported change details)])
      else (m, w, tr)
  end.

(** The checks of [run] after the first: one for every tick received, at
    the time the tick is received. *)
Fixpoint onTicks (net : nat -> Reply) (ticks : list Z) (m : Monitor) (w : World)
  : Monitor * World * list Effect :=
  match ticks with
  | [] => (m, w, [])
  | t :: ticks' =>
      let w := {| clock := Z.max (clock w) t; requests := requests w |} in
      let '(m, w, tr) := performCheck net m w in
      let '(m, w, tr') := onTicks net ticks' m w in
      (m, w, tr ++ tr')
  end.

(** [run], for the ticks it receives before it sees its context done.
    [time.NewTicker] panics on an interval that is not positive. *)
Definition run (net : nat -> Reply) (ticks : list Z) (m : Monitor) (w : World)
  : Result (Monitor * World * list Effect) :=
  if Config.Interval (config m) <=? 0
  then Panic "non-positive interval for NewTicker"
  else
    let '(m, w, tr) := performCheck net m w in
    let '(m, w, tr') := onTicks net ticks m w in
    Ok (m, w, tr ++ tr' ++ [EClose]).

(** [Stop]: [m.cancel()], then [close(m.stop)], which panics on a channel
    that is closed already. *)
Definition Stop (m : Monitor) : Result Monitor :=
  if stopClosed m then Panic "close of closed channel"
  else
    Ok {| config := config m; lastContent := lastContent m; lastCheck := lastCheck m;
          ctxDone := true; stopClosed := true; checkCount := checkCount m;
          status := status m; isFirstCheck := isFirstCheck m; filters := filters m |}.

End Monitor.

(** The events sent on the change stream, in order. *)
Fixpoint sends (tr : list Effect) : list Change :=
  match tr with
  | [] => []
  | ESend c :: tr' => c :: sends tr'
  | _ :: tr' => sends tr'
  end.

(** The requests made. *)
Fixpoint gets (tr : list Effect) : list nat :=
  match tr with
  | [] => []
  | EGet n :: tr' => n :: gets tr'
  | _ :: tr' => gets tr'
  end.

(** ** pkg/monitor: manager.go *)

(** A [*Monitor]: the place of the monitor in the heap. *)
Definition ptr := nat.

Module MonitorGroup.
Record MonitorGroup := {
  Name : string;
  Description : string;
  Monitors : gmap string ptr
}.
End MonitorGroup.
Abbreviation MonitorGroup := MonitorGroup.MonitorGroup.

(** The manager. [changeChannelClosed] holds once [m.changeChannel] was
    closed, [managerDone] once [m.cancel] was called. *)
Record Manager := {
  monitors : gmap string ptr;
  groups : gmap string MonitorGroup;
  changeChannelClosed : bool;
  managerDone : bool
}.

(** A goroutine started by a [go] statement: [m.run()] of the monitor at
    [p], or [forwardChanges] on the change stream of the monitor at [p]. *)
Inductive Goroutine :=
| GoRun (p : ptr)
| GoForward (p : ptr).

(** The program state the manager works on: the monitors that were
    allocated, the goroutines that were started, and the manager. *)
Record Sys := {
  heap : list Monitor;
  goroutines : list Goroutine;
  manager : Manager
}.

#[global] Instance Result_bind : MBind Result :=
  fun A B (f : A -> Result B) (r : Result A) =>
    match r with
    | Ok a => f a
    | Panic msg => Panic msg
    end.

(** Reading through a pointer to a monitor. *)
Definition deref (h : list Monitor) (p : ptr) : Result Monitor :=
  match h !! p with
  | Some m => Ok m
  | None => Panic "invalid memory address or nil pointer dereference"
  end.

(** [NewManager] *)
Definition NewManager : Manager :=
  {| monitors := ∅; groups := ∅; changeChannelClosed := false; managerDone := false |}.

Module Manager.

Definition setMonitors (m : Manager) (ms : gmap string ptr) : Manager :=
  {| monitors := ms; groups := groups m;
     changeChannelClosed := changeChannelClosed m; managerDone := managerDone m |}.

Definition setGroups (m : Manager) (gs : gmap string MonitorGroup) : Manager :=
  {| monitors := monitors m; groups := gs;
     changeChannelClosed := changeChannelClosed m; managerDone := managerDone m |}.

Definition setManager (s : Sys) (m : Manager) : Sys :=
  {| heap := heap s; goroutines := goroutines s; manager := m |}.

Definition setHeap (s : Sys) (h : list Monitor) : Sys :=
  {| heap := h; goroutines := goroutines s; manager := manager s |}.

(** A [go] statement. *)
Definition spawn (g : Goroutine) (s : Sys) : Sys :=
  {| heap := heap s; goroutines := goroutines s ++ [g]; manager := manager s |}.

Definition noMonitor (url : string) : string :=
  ("no monitor found for URL '" ++ url ++ "'")%string.

Definition noGroup (name : string) : string :=
  ("group '" ++ name ++ "' does not exist")%string.

(** [AddMonitor] *)
Definition AddMonitor (monitor : ptr) (s : Sys) : Result (Sys * option string) :=
  mon ← deref (heap s) monitor;
  let url := Monitor.GetURL mon in
  if decide (url = ""%string) then Ok (s, Some ErrURLEmpty)
  else
    match monitors (manager s) !! url with
    | Some _ => Ok (s, Some ("monitor for URL '" ++ url ++ "' already exists")%string)
    | None =>
        Ok (setManager s (setMonitors (manager s) (<[url := monitor]> (monitors (manager s)))),
            None)
    end.

(** [AddMonitorWithConfig]: the state, the monitor (or [nil]) and the error. *)
Definition AddMonitorWithConfig (config : Config) (s : Sys)
  : Result (Sys * option ptr * option string) :=
  if decide (Config.URL config = ""%string) then Ok (s, None, Some ErrURLEmpty)
  else if Config.Interval config <=? 0 then Ok (s, None, Some ErrInvalidInterval)
  else
    let monitor := length (heap s) in
    let s := setHeap s (heap s ++ [NewMonitorWithConfig config]) in
    '(s, err) ← AddMonitor monitor s;
    match err with
    | Some e => Ok (s, None, Some e)
    | None => Ok (s, Some monitor, None)
    end.

(** [CreateGroup] *)
Definition CreateGroup (name description : string) (s : Sys)
  : Sys * option MonitorGroup * option string :=
  match groups (manager s) !! name with
  | Some _ => (s, None, Some ("group '" ++ name ++ "' already exists")%string)
  | None =>
      let group := {| MonitorGroup.Name := name;
                      MonitorGroup.Description := description;
                      MonitorGroup.Monitors := ∅ |} in
      (setManager s (setGroups (manager s) (<[name := group]> (groups (manager s)))),
       Some group, None)
  end.

Definition setMembers (g : MonitorGroup) (ms : gmap string ptr) : MonitorGroup :=
  {| MonitorGroup.Name := MonitorGroup.Name g;
     MonitorGroup.Description := MonitorGroup.Description g;
     MonitorGroup.Monitors := ms |}.

(** [AddToGroup] *)
Definition AddToGroup (url groupName : string) (s : Sys) : Sys * option string :=
  match monitors (manager s) !! url with
  | None => (s, Some (noMonitor url))
  | Some monitor =>
      match groups (manager s) !! groupName with
      | None => (s, Some (noGroup groupName))
      | Some group =>
          let group := setMembers group (<[url := monitor]> (MonitorGroup.Monitors group)) in
          (setManager s (setGroups (manager s) (<[groupName := group]> (groups (manager s)))),
           None)
      end
  end.

(** [monitor.Stop()] through the pointer. *)
Definition stopAt (p : ptr) (h : list Monitor) : Result (list Monitor) :=
  mon ← deref h p;
  mon ← Monitor.Stop mon;
  Ok (<[p := mon]> h).

(** [delete(group.Monitors, url)] *)
Definition purge (url : string) (g : MonitorGroup) : MonitorGroup :=
  setMembers g (delete url (MonitorGroup.Monitors g)).

(** [RemoveMonitor] *)
Definition RemoveMonitor (url : string) (s : Sys) : Result (Sys * option string) :=
  match monitors (manager s) !! url with
  | None => Ok (s, Some (noMonitor url))
  | Some monitor =>
      h ← stopAt monitor (heap s);
      let gs := purge url <$> groups (manager s) in
      let ms := delete url (monitors (manager s)) in
      Ok ({| heap := h; goroutines := goroutines s;
             manager := setMonitors (setGroups (manager s) gs) ms |}, None)
  end.

(** [GetMonitor] *)
Definition GetMonitor (url : string) (s : Sys) : option ptr * option string :=
  match monitors (manager s) !! url with
  | None => (None, Some (noMonitor url))
  | Some monitor => (Some monitor, None)
  end.

(** [GetGroup] *)
Definition GetGroup (name : string) (s : Sys) : option MonitorGroup * option string :=
  match groups (manager s) !! name with
  | None => (None, Some (noGroup name))
  | Some group => (Some group, None)
  end.

(** [ListMonitors]; Go leaves the order open. *)
Definition ListMonitors (s : Sys) : list string :=
  (map_to_list (monitors (manager s))).*1.

(** [ListGroups]; Go leaves the order open. *)
Definition ListGroups (s : Sys) : list string :=
  (map_to_list (groups (manager s))).*1.

(** [Monitor.Start] through the pointer: [go m.run()]; the stream it
    returns is the one of the monitor at [p]. *)
Definition startAt (p : ptr) (s : Sys) : Sys := spawn (GoRun p) s.

(** [changes := monitor.Start(); go m.forwardChanges(changes)] *)
Definition startAndForward (s : Sys) (p : ptr) : Sys :=
  spawn (GoForward p) (startAt p s).

(** [Start]: every monitor of the registry. *)
Definition Start (s : Sys) : Sys :=
  fold_left startAndForward (map_to_list (monitors (manager s))).*2 s.

(** [StartMonitor] *)
Definition StartMonitor (url : string) (s : Sys) : Sys * option string :=
  match monitors (manager s) !! url with
  | None => (s, Some (noMonitor url))
  | Some monitor => (startAndForward s monitor, None)
  end.

(** [StartGroup] *)
Definition StartGroup (groupName : string) (s : Sys) : Sys * option string :=
  match groups (manager s) !! groupName with
  | None => (s, Some (noGroup groupName))
  | Some group =>
      (fold_left startAndForward (map_to_list (MonitorGroup.Monitors group)).*2 s, None)
  end.

(** [monitor.Stop()] for every pointer of a list. *)
Fixpoint stopEach (ps : list ptr) (h : list Monitor) : Result (list Monitor) :=
  match ps with
  | [] => Ok h
  | p :: ps' => h ← stopAt p h; stopEach ps' h
  end.

(** [Stop]: [m.cancel()], every monitor stopped, [close(m.changeChannel)]. *)
Definition Stop (s : Sys) : Result Sys :=
  h ← stopEach (map_to_list (monitors (manager s))).*2 (heap s);
  if changeChannelClosed (manager s) then Panic "close of closed channel"
  else
    Ok {| heap := h; goroutines := goroutines s;
          manager := {| monitors := monitors (manager s); groups := groups (manager s);
                        changeChannelClosed := true; managerDone := true |} |}.

(** [StopMonitor] *)
Definition StopMonitor (url : string) (s : Sys) : Result (Sys * option string) :=
  match monitors (manager s) !! url with
  | None => Ok (s, Some (noMonitor url))
  | Some monitor =>
      h ← stopAt monitor (heap s);
      Ok (setHeap s h, None)
  end.

(** [StopGroup] *)
Definition StopGroup (groupName : string) (s : Sys) : Result (Sys * option string) :=
  match groups (manager s) !! groupName with
  | None => Ok (s, Some (noGroup groupName))
  | Some group =>
      h ← stopEach (map_to_list (MonitorGroup.Monitors group)).*2 (heap s);
      Ok (setHeap s h, None)
  end.

End Manager.

(** The state of a fresh program: nothing allocated, nothing started. *)
Definition emptySys : Sys :=
  {| heap := []; goroutines := []; manager := NewManager |}.

(** [new]: a monitor put on the heap, and the pointer to it. *)
Definition alloc (m : Monitor) (s : Sys) : Sys * ptr :=
  (Manager.setHeap s (heap s ++ [m]), length (heap s)).

(** ** The fan-in of [forwardChanges] against [Manager.Stop]

    [Manager.Stop] and a [forwardChanges] goroutine run side by side. Each
    statement of the two that touches the manager's context or the shared
    stream is one step; a schedule is the order in which the steps are
    taken. *)
Module Fanin.

(** Where [forwardChanges] is: waiting in [for change := range changes],
    holding a change at the [select], returned, or brought down by the
    panic of a send on a closed channel. *)
Inductive Forwarder :=
| Ranging
| Selecting (c : Change)
| Returned
| Panicked.

(** How far [Stop] is: not called, past [m.cancel()], past the loop that
    stops the monitors, past [close(m.changeChannel)]. *)
Inductive Stopper :=
| NotCalled
| Cancelled
| MonitorsStopped
| Closed.

Record State := {
  done : bool;              (* [m.ctx] is done *)
  closed : bool;            (* [m.changeChannel] is closed *)
  stopper : Stopper;
  forwarder : Forwarder;
  pending : list Change;    (* what the monitor's checks still send on its stream *)
  received : list Change    (* what the reader of the shared stream has got *)
}.

Inductive Action :=
| StopCancel      (* [m.cancel()] *)
| StopMonitors    (* [for _, monitor := range m.monitors { monitor.Stop() }] *)
| StopClose       (* [close(m.changeChannel)] *)
| Receive         (* [range changes] yields the next change *)
| RangeEnd        (* [range changes] ends: the monitor's stream is closed *)
| SelectSend      (* the [select] takes [case m.changeChannel <- change] *)
| SelectDone.     (* the [select] takes [case <-m.ctx.Done()] *)

Definition init (pending : list Change) : State :=
  {| done := false; closed := false; stopper := NotCalled; forwarder := Ranging;
     pending := pending; received := [] |}.

(** One step; [None] when the statement is not the next one of its
    goroutine or cannot proceed. A stopped monitor still sends the event of
    the check it is in ([performCheck] sends outside any [select]), and its
    stream closes when [run] returns after that. *)
Definition step (a : Action) (s : State) : option State :=
  match a, stopper s, forwarder s with
  | StopCancel, NotCalled, _ =>
      Some {| done := true; closed := closed s; stopper := Cancelled;
              forwarder := forwarder s; pending := pending s; received := received s |}
  | StopMonitors, Cancelled, _ =>
      Some {| done := done s; closed := closed s; stopper := MonitorsStopped;
              forwarder := forwarder s; pending := pending s; received := received s |}
  | StopClose, MonitorsStopped, _ =>
      Some {| done := done s; closed := true; stopper := Closed;
              forwarder := forwarder s; pending := pending s; received := received s |}
  | Receive, _, Ranging =>
      match pending s with
      | c :: rest =>
          Some {| done := done s; closed := closed s; stopper := stopper s;
                  forwarder := Selecting c; pending := rest; received := received s |}
      | [] => None
      end
  | RangeEnd, (MonitorsStopped | Closed), Ranging =>
      match pending s with
      | [] =>
          Some {| done := done s; closed := closed s; stopper := stopper s;
                  forwarder := Returned; pending := []; received := received s |}
      | _ :: _ => None
      end
  | SelectSend, _, Selecting c =>
      if closed s then
        Some {| done := done s; closed := closed s; stopper := stopper s;
                forwarder := Panicked; pending := pending s; received := received s |}
      else
        Some {| done := done s; closed := closed s; stopper := stopper s;
                forwarder := Ranging; pending := pending s;
                received := received s ++ [c] |}
  | SelectDone, _, Selecting c =>
      if done s then
        Some {| done := done s; closed := closed s; stopper := stopper s;
                forwarder := Returned; pending := pending s; received := received s |}
      else None
  | _, _, _ => None
  end.

(** A schedule, step by step. *)
Fixpoint exec (schedule : list Action) (s : State) : option State :=
  match schedule with
  | [] => Some s
  | a :: rest =>
      match step a s with
      | Some s' => exec rest s'
      | None => None
      end
  end.

(** The forwarder can still try to send on the shared stream. *)
Definition canStillSend (s : State) : bool :=
  match forwarder s with
  | Ranging | Selecting _ => true
  | Returned | Panicked => false
  end.

End Fanin.

(** ** The vocabulary of the statements *)

(** The parts of what [fetchWithRetry] returns: content, change and error. *)
Abbreviation contentOf f := (fst (fst (fst (fst f)))).
Abbreviation changeOf f := (snd (fst (fst (fst f)))).
Abbreviation errorOf f := (snd (fst (fst f))).

(** The parts of what [performCheck] returns: the monitor and the world
    afterwards, and what the check did. *)
Abbreviation monitorAfter r := (fst (fst r)).
Abbreviation worldAfter r := (snd (fst r)).
Abbreviation effectsOf r := (snd r).

(** The parts of what [detectChange] returns besides the monitor. *)
Abbreviation changedOf r := (snd (fst r)).
Abbreviation detailsOf r := (snd r).

(** The error a reply makes [fetchContent] return, if any. *)
Definition replyError (r : Reply) : option string :=
  match r with
  | NoResponse err => Some err
  | Response statusCode _ body =>
      if (statusCode <? 200) || (300 <=? statusCode)
      then Some ("unexpected status code: " ++ Go.itoa statusCode)%string
      else match body with
           | BodyError err => Some err
           | BodyRead _ => None
           end
  end.

(** A transport error: no response, or a body that fails while it is read. *)
Definition transportError (r : Reply) : Prop :=
  match r with
  | NoResponse _ => True
  | Response _ _ (BodyError _) => True
  | Response _ _ (BodyRead _) => False
  end.

(** A status outside [200,300). *)
Definition badStatus (r : Reply) : Prop :=
  match r with
  | NoResponse _ => False
  | Response statusCode _ _ => statusCode < 200 \/ 300 <= statusCode
  end.

(** The retries after a first attempt: a sleep of [d], then a request;
    the requests are numbered from [n0]. *)
Definition retries (d : Z) (n0 k : nat) : list Effect :=
  flat_map (fun j => [ESleep d; EGet (n0 + j)%nat]) (seq 0 k).

(** [k] attempts of one check: a request, then [k - 1] retries. *)
Definition tries (d : Z) (n0 k : nat) : list Effect :=
  match k with
  | O => []
  | S k' => EGet n0 :: retries d (S n0) k'
  end.

(** The trace of the retry loop entered with counter [i]. *)
Definition loopTrace (d : Z) (i : Z) (n0 k : nat) : list Effect :=
  if 0 <? i then retries d n0 k else tries d n0 k.

(** A monitor that has observed nothing yet: no check of it has succeeded. *)
Definition unobserved (m : Monitor) : Prop :=
  isFirstCheck m = true /\ lastContent m = None.

(** [p] is the first index at which [a] and [b] differ, where running out
    of bytes counts as differing from a byte. *)
Definition firstDifference (a b : list byte) (p : nat) : Prop :=
  (forall j, (j < p)%nat -> a !! j = b !! j) /\ a !! p <> b !! p.


(** The goroutines started for the monitors [ps]: for each its [run] and a
    [forwardChanges]. *)
Definition spawned (ps : list ptr) : list Goroutine :=
  flat_map (fun p => [GoRun p; GoForward p]) ps.

Definition withGoroutines (s : Sys) (gs : list Goroutine) : Sys :=
  {| heap := heap s; goroutines := gs; manager := manager s |}.

(** ** Concrete monitors, servers and managers *)
Module Cases.

Definition B : string -> list byte := list_byte_of_string.

Definition url : string := "https://example.com".

Definition configOf (retryCount retryInterval : Z) (filters : list ContentFilter) : Config :=
  {| Config.URL := url;
     Config.Interval := Minute * 5;
     Config.Timeout := Second * 30;
     Config.Headers := ∅;
     Config.IgnoreSelectors := [];
     Config.Method := MethodHash;
     Config.CustomCompareFn := None;
     Config.RetryCount := retryCount;
     Config.RetryInterval := retryInterval;
     Config.FollowRedirects := true;
     Config.IncludeResponseBody := false;
     Config.NormalizeWhitespace := false;
     Config.ContentFilters := filters;
     Config.IgnoreTimestamps := false |}.

(** A monitor that retries twice, one second apart. *)
Definition retryTwice : Monitor := NewMonitorWithConfig (configOf 2 Second []).

Definition start : World := {| clock := 0; requests := 0 |}.

(** A server that answers every request with status 500. *)
Definition always500 (n : nat) : Reply := Response 500 "text/html" (BodyRead []).

(** A server that answers every request with the same page. *)
Definition samePage (n : nat) : Reply := Response 200 "text/plain" (BodyRead (B "same")).

(** [version: [0-9.]+], replaced by [version: X.Y.Z] (the filter of
    [TestMonitorWithCustomFilters]). *)
Definition versionFilter : RegexFilter :=
  {| pattern :=
       Go.regexp.Concat (Go.regexp.Literal (B "version: "))
         (Go.regexp.Plus (Go.regexp.CharClass [("0"%byte, "9"%byte); ("."%byte, "."%byte)]));
     replacement := B "version: X.Y.Z";
     description := "Ignore version numbers" |}.

(** A monitor with the version filter whose baseline is [version: 1 a]. *)
Definition versioned : Monitor :=
  Monitor.setLastContent
    (NewMonitorWithConfig (configOf 3 (Second * 10) [RegexFilter.asContentFilter versionFilter]))
    (Some (B "version: 1 a")).

(** A monitor without filters whose baseline is [ab]. *)
Definition plain : Monitor :=
  Monitor.setLastContent (NewMonitorWithConfig (configOf 3 (Second * 10) [])) (Some (B "ab")).

(** Monitors with [NormalizeWhitespace] on and off; [normalizeContent]
    reads nothing else of the monitor. *)
Definition normalizing (on : bool) : Monitor :=
  NewMonitorWithConfig
    {| Config.URL := url;
       Config.Interval := Minute * 5;
       Config.Timeout := Second * 30;
       Config.Headers := ∅;
       Config.IgnoreSelectors := [];
       Config.Method := MethodHash;
       Config.CustomCompareFn := None;
       Config.RetryCount := 3;
       Config.RetryInterval := Second * 10;
       Config.FollowRedirects := true;
       Config.IncludeResponseBody := false;
       Config.NormalizeWhitespace := on;
       Config.ContentFilters := [];
       Config.IgnoreTimestamps := false |}.


(** The filters of [NewTimestampFilter] and [NewDateFilter]. *)
Definition timestampFilter : RegexFilter :=
  {| pattern := Patterns.timestamp; replacement := B "TIMESTAMP";
     description := "Ignore timestamps" |}.

Definition dateFilter : RegexFilter :=
  {| pattern := Patterns.date; replacement := B "DATE";
     description := "Ignore date strings" |}.

(** A manager with one monitor, which is in one group and was never
    started or stopped (the state [TestRemoveMonitor] builds). *)
Definition registered : Sys :=
  {| heap := [NewMonitor url (Second * 5)];
     goroutines := [];
     manager :=
       {| monitors := {[ url := 0%nat ]};
          groups := {[ "test-group"%string :=
                         {| MonitorGroup.Name := "test-group";
                            MonitorGroup.Description := "Test Group";
                            MonitorGroup.Monitors := {[ url := 0%nat ]} |} ]};
          changeChannelClosed := false;
          managerDone := false |} |}.

(** An event a check sends. *)
Definition event : Change :=
  {| Change.URL := url; Change.Timestamp := 0; Change.HasChanged := true;
     Change.StatusCode := 200; Change.ContentType := "text/plain";
     Change.Error := ""; Change.Details := "" |}.

End Cases.

(** ** Further vocabulary *)

(** An ASCII digit. *)
Definition isDigit (b : byte) : bool :=
  Go.regexp.inRanges b [("0"%byte, "9"%byte)].

(** The monitor after [Stop]: its context cancelled, its stop channel
    closed. *)
Definition stopped (m : Monitor) : Monitor :=
  {| config := config m; lastContent := lastContent m; lastCheck := lastCheck m;
     ctxDone := true; stopClosed := true; checkCount := checkCount m;
     status := status m; isFirstCheck := isFirstCheck m; filters := filters m |}.

(** The registry is consistent: every registered URL is not empty and leads
    to a monitor of that URL, and every group goes by its name and holds
    only registered monitors, under their URLs. *)
Definition consistent (s : Sys) : Prop :=
  (forall url p, monitors (manager s) !! url = Some p ->
     url <> ""%string /\
     exists mon, heap s !! p = Some mon /\ Monitor.GetURL mon = url) /\
  (forall name g, groups (manager s) !! name = Some g ->
     MonitorGroup.Name g = name /\
     forall url p, MonitorGroup.Monitors g !! url = Some p ->
                   monitors (manager s) !! url = Some p).

(** ASCII white space: tab, line feed, vertical tab, form feed, carriage
    return and space. *)
Definition asciiSpace (b : byte) : bool :=
  ((9 <=? byteZ b) && (byteZ b <=? 13)) || (byteZ b =? 32).

(** Every ASCII white-space byte of [l] is a space that is followed by a
    byte that is not white space. *)
Fixpoint singleSpaces (l : list byte) : bool :=
  match l with
  | [] => true
  | b :: rest =>
      (if asciiSpace b
       then byte_eqb b x20 && match rest with
                              | b' :: _ => negb (asciiSpace b')
                              | [] => false
                              end
       else true)
      && singleSpaces rest
  end.

(** [l] does not start with ASCII white space. *)
Definition startsWithWord (l : list byte) : bool :=
  match l with
  | b :: _ => negb (asciiSpace b)
  | [] => true
  end.

(** A lower-case hexadecimal digit. *)
Definition isHexDigit (c : ascii) : bool :=
  let n := nat_of_ascii c in
  ((48 <=? n)%nat && (n <=? 57)%nat) || ((97 <=? n)%nat && (n <=? 102)%nat).

(** The change [forwardChanges] holds at its [select], if any. *)
Definition held (s : Fanin.State) : list Change :=
  match Fanin.forwarder s with
  | Fanin.Selecting c => [c]
  | _ => []
  end.

(** What every schedule keeps: the events received, the one held or
    dropped, and the ones to come make up what the monitor sends, in
    order; the stream is closed only at the end of [Stop], and [Stop] has
    cancelled the context before it does anything else; the forwarder
    ends only after that. *)
Definition relays (sent : list Change) (s : Fanin.State) : Prop :=
  (exists dropped,
     sent = Fanin.received s ++ dropped ++ Fanin.pending s /\
     (length dropped <= 1)%nat /\
     (Fanin.canStillSend s = true -> dropped = held s)) /\
  (Fanin.closed s = true -> Fanin.stopper s = Fanin.Closed) /\
  (Fanin.stopper s <> Fanin.NotCalled -> Fanin.done s = true) /\
  (Fanin.forwarder s = Fanin.Panicked -> Fanin.closed s = true) /\
  (Fanin.forwarder s = Fanin.Returned -> Fanin.done s = true).

(** ** pkg/version and pkg/http *)

(** [version.Version], as the source sets it. *)
Definition Version : string := "dev".

(** [version.UserAgent] *)
Definition UserAgent : string := ("Hawkeye/" ++ Version)%string.

(** [net/textproto]: the bytes allowed in a header name (the token
    characters of RFC 7230), and the canonical form of a header name: the
    first letter and every letter after a hyphen in upper case, the other
    letters in lower case; a name with a byte that is not allowed is left
    as it is. *)
Definition validHeaderFieldByte (c : ascii) : bool :=
  let n := nat_of_ascii c in
  ((48 <=? n) && (n <=? 57) || (65 <=? n) && (n <=? 90) || (97 <=? n) && (n <=? 122)
   || existsb (Nat.eqb n) [33; 35; 36; 37; 38; 39; 42; 43; 45; 46; 94; 95; 96; 124; 126])%nat.

Fixpoint canonicalBytes (upper : bool) (s : string) : string :=
  match s with
  | EmptyString => EmptyString
  | String c rest =>
      let n := nat_of_ascii c in
      let c :=
        if (upper && (97 <=? n) && (n <=? 122))%nat then ascii_of_nat (n - 32)
        else if (negb upper && (65 <=? n) && (n <=? 90))%nat then ascii_of_nat (n + 32)
        else c in
      String c (canonicalBytes (Ascii.eqb c "-") rest)
  end.

Definition CanonicalMIMEHeaderKey (s : string) : string :=
  if forallb validHeaderFieldByte (list_ascii_of_string s) then canonicalBytes true s else s.

(** [http.Header], a [map[string][]string] *)
Module Header.

Abbreviation Header := (gmap string (list string)).

Definition Get (h : Header) (key : string) : string :=
  match h !! CanonicalMIMEHeaderKey key with
  | Some (v :: _) => v
  | _ => ""%string
  end.

(** [Header.Set] ([Set] is a reserved word here) *)
Definition Set_ (h : Header) (key value : string) : Header :=
  <[CanonicalMIMEHeaderKey key := [value]]> h.

End Header.

(** [AddHeaders], on the header of the request. [headers] holds the entries
    of the map in the order in which [range] visits them, which Go leaves
    open. *)
Definition AddHeaders (req : Header.Header) (headers : list (string * string))
    (defaultUserAgent : string) : Header.Header :=
  let req :=
    if decide (Header.Get req "User-Agent" = ""%string)
    then Header.Set_ req "User-Agent" defaultUserAgent
    else req in
  fold_left (fun h kv => Header.Set_ h kv.1 kv.2) headers req.

(** A configuration with another detection method. *)
Definition withMethod (c : Config) (method : Z) : Config :=
  {| Config.URL := Config.URL c;
     Config.Interval := Config.Interval c;
     Config.Timeout := Config.Timeout c;
     Config.Headers := Config.Headers c;
     Config.IgnoreSelectors := Config.IgnoreSelectors c;
     Config.Method := method;
     Config.CustomCompareFn := Config.CustomCompareFn c;
     Config.RetryCount := Config.RetryCount c;
     Config.RetryInterval := Config.RetryInterval c;
     Config.FollowRedirects := Config.FollowRedirects c;
     Config.IncludeResponseBody := Config.IncludeResponseBody c;
     Config.NormalizeWhitespace := Config.NormalizeWhitespace c;
     Config.ContentFilters := Config.ContentFilters c;
     Config.IgnoreTimestamps := Config.IgnoreTimestamps c |}.

(** ** Further concrete monitors *)
Module Fixtures.

(** A monitor that compares lengths, without filters, whose baseline is
    [ab]. *)
Definition byLength : Monitor :=
  Monitor.setLastContent
    (NewMonitorWithConfig (withMethod (Cases.configOf 3 (Second * 10) []) MethodLength))
    (Some (Cases.B "ab")).

(** A monitor whose retry count is negative. *)
Definition neverFetching : Monitor := NewMonitorWithConfig (Cases.configOf (-1) Second []).

(** The state of [Cases.registered] before the monitor is registered. *)
Definition allocated : Sys := (alloc (NewMonitor Cases.url (Second * 5)) emptySys).1.

End Fixtures.

(** * Properties *)

Lemma sends_app tr1 tr2 : sends (tr1 ++ tr2) = sends tr1 ++ sends tr2.
Proof.
  induction tr1 as [|e tr1 IH]; simpl; [reflexivity|].
  destruct e; simpl; rewrite ?IH; reflexivity.
Qed.

Lemma gets_app tr1 tr2 : gets (tr1 ++ tr2) = gets tr1 ++ gets tr2.
Proof.
  induction tr1 as [|e tr1 IH]; simpl; [reflexivity|].
  destruct e; simpl; rewrite ?IH; reflexivity.
Qed.

Lemma fetchContent_error m w r : (Monitor.fetchContent m w r).2 = replyError r.
Proof.
  destruct r as [err|sc ct body]; simpl; [reflexivity|].
  destruct ((sc <? 200) || (300 <=? sc)); [reflexivity|].
  destruct body; reflexivity.
Qed.

Lemma retries_S d n0 k :
  retries d n0 (S k) = ESleep d :: EGet n0 :: retries d (S n0) k.
Proof.
  unfold retries. simpl. rewrite Nat.add_0_r. do 2 f_equal.
  rewrite <- seq_shift, flat_map_concat_map, map_map, <- flat_map_concat_map.
  apply flat_map_ext. intros j. do 3 f_equal. lia.
Qed.

Lemma sends_retries d n0 k : sends (retries d n0 k) = [].
Proof.
  revert n0; induction k as [|k IH]; intros n0; [reflexivity|].
  rewrite retries_S. simpl. apply IH.
Qed.

Lemma gets_retries d n0 k : gets (retries d n0 k) = seq n0 k.
Proof.
  revert n0; induction k as [|k IH]; intros n0; [reflexivity|].
  rewrite retries_S. simpl. f_equal. apply IH.
Qed.

Lemma sends_tries d n0 k : sends (tries d n0 k) = [].
Proof. destruct k; simpl; [reflexivity|apply sends_retries]. Qed.

Lemma gets_tries d n0 k : gets (tries d n0 k) = seq n0 k.
Proof. destruct k; simpl; [reflexivity|]. f_equal. apply gets_retries. Qed.

Lemma loopTrace_step d i n0 k :
  0 <= i ->
  (if 0 <? i then [ESleep d] else []) ++ [EGet n0] ++ loopTrace d (i + 1) (S n0) k
  = loopTrace d i n0 (S k).
Proof.
  intros Hi. unfold loopTrace.
  replace (0 <? i + 1) with true by (symmetry; apply Z.ltb_lt; lia).
  destruct (0 <? i); simpl; [rewrite retries_S|]; reflexivity.
Qed.

(** The loop makes [k] requests, [k] at most the rounds it has, in the
    order of [loopTrace]; it stops early only on a reply without error,
    and goes through all its rounds only on replies with errors. *)
Lemma attempts_spec net m n i w st :
  let d := Config.RetryInterval (config m) in
  0 <= i ->
  exists k : nat,
    (k <= n)%nat /\
    (Monitor.attempts net m n i w st).2 = loopTrace d i (requests w) k /\
    requests (Monitor.attempts net m n i w st).1.2 = (requests w + k)%nat /\
    (forall j, (S j < k)%nat -> replyError (net (requests w + j)%nat) <> None) /\
    ((Monitor.attempts net m n i w st).1.1.2 = None ->
       n = O /\ k = O \/
       (0 < k)%nat /\ replyError (net (requests w + k - 1)%nat) = None) /\
    ((Monitor.attempts net m n i w st).1.1.2 <> None -> k = n /\
       (n = O \/ replyError (net (requests w + k - 1)%nat) <> None)).
Proof.
  intros d. revert i w st. induction n as [|n IH]; intros i w st Hi.
  - exists O. simpl. unfold loopTrace. destruct (0 <? i); simpl.
    all: split_and!; try lia; auto.
  - cbn [Monitor.attempts].
    set (w1 := if 0 <? i then Monitor.sleep d w else w).
    assert (Hw1 : requests w1 = requests w) by (subst w1; destruct (0 <? i); reflexivity).
    replace (if 0 <? i then (Monitor.sleep (Config.RetryInterval (config m)) w,
                             [ESleep (Config.RetryInterval (config m))]) else (w, []))
      with (w1, if 0 <? i then [ESleep d] else []) by (subst w1 d; destruct (0 <? i); reflexivity).
    cbn beta iota.
    pose proof (fetchContent_error m w1 (net (requests w1))) as Herr.
    destruct (Monitor.fetchContent m w1 (net (requests w1))) as [[content change] err].
    simpl in Herr. subst err. rewrite Hw1 in *.
    destruct (replyError (net (requests w))) as [e|] eqn:Hre.
    + set (change' := if i =? Config.RetryCount (config m)
                      then Monitor.errorChange m (Monitor.sent w1) e else change).
      specialize (IH (i + 1) (Monitor.sent w1) (content, change', Some e)).
      destruct IH as (k & Hk & Htr & Hreq & Hfail & Hnone & Hsome); [lia|].
      destruct (Monitor.attempts net m n (i + 1) (Monitor.sent w1) (content, change', Some e))
        as [[st' w'] tr'] eqn:E.
      simpl in *. rewrite Hw1 in *.
      exists (S k). split_and!.
      * lia.
      * rewrite Htr, <- loopTrace_step by lia. rewrite <- app_assoc. reflexivity.
      * rewrite Hreq. lia.
      * intros j Hj. destruct j as [|j].
        -- rewrite Nat.add_0_r, Hre. discriminate.
        -- replace (requests w + S j)%nat with (S (requests w) + j)%nat by lia.
           apply Hfail. lia.
      * intros Hn. right. destruct (Hnone Hn) as [[-> ->]|[Hpos Hlast]].
        { simpl in E. injection E as <- <- <-. discriminate. }
        split; [lia|]. replace (requests w + S k - 1)%nat with (S (requests w) + k - 1)%nat by lia.
        exact Hlast.
      * intros Hs. destruct (Hsome Hs) as [-> Hor]. split; [reflexivity|]. right.
        destruct Hor as [->|Hlast].
        -- simpl. replace (requests w + 1 - 1)%nat with (requests w) by lia.
           rewrite Hre. discriminate.
        -- replace (requests w + S n - 1)%nat with (S (requests w) + n - 1)%nat by lia.
           exact Hlast.
    + exists 1%nat. simpl. split_and!.
      * lia.
      * rewrite <- (loopTrace_step d i (requests w) 0) by lia.
        unfold loopTrace. destruct (0 <? i + 1); reflexivity.
      * lia.
      * intros j Hj. lia.
      * intros _. right. split; [lia|].
        replace (requests w + 1 - 1)%nat with (requests w) by lia. exact Hre.
      * intros Habs. contradiction.
Qed.

Lemma fetchContent_failed m w r e :
  replyError r = Some e ->
  exists change, Monitor.fetchContent m w r = (None, change, Some e).
Proof.
  destruct r as [err|sc ct body]; simpl.
  - intros [= ->]. eauto.
  - destruct ((sc <? 200) || (300 <=? sc)).
    + intros [= <-]. eauto.
    + destruct body; [discriminate|]. intros [= ->]. eauto.
Qed.

(** When every round meets an error and the last round is the one with
    [i = RetryCount], the loop ends with the error event of the last
    reply and no content. *)
Lemma attempts_exhausted net m n i w st :
  0 <= i ->
  (0 < n)%nat ->
  i + Z.of_nat n - 1 = Config.RetryCount (config m) ->
  (forall j, (j < n)%nat -> replyError (net (requests w + j)%nat) <> None) ->
  exists e,
    replyError (net (requests w + n - 1)%nat) = Some e /\
    (Monitor.attempts net m n i w st).1.1 =
      (None, Monitor.errorChange m (Monitor.attempts net m n i w st).1.2 e, Some e).
Proof.
  revert i w st. induction n as [|n IH]; intros i w st Hi Hn Hlast Hfail; [lia|].
  cbn [Monitor.attempts].
  set (w1 := if 0 <? i then Monitor.sleep (Config.RetryInterval (config m)) w else w).
  assert (Hw1 : requests w1 = requests w) by (subst w1; destruct (0 <? i); reflexivity).
  replace (if 0 <? i then (Monitor.sleep (Config.RetryInterval (config m)) w,
                           [ESleep (Config.RetryInterval (config m))]) else (w, []))
    with (w1, if 0 <? i then [ESleep (Config.RetryInterval (config m))] else [])
    by (subst w1; destruct (0 <? i); reflexivity).
  cbn beta iota.
  destruct (replyError (net (requests w))) as [e|] eqn:Hre.
  2: { exfalso. apply (Hfail O); [lia|]. rewrite Nat.add_0_r. exact Hre. }
  rewrite Hw1.
  destruct (fetchContent_failed m w1 _ e Hre) as [change ->].
  destruct n as [|n].
  - replace (i =? Config.RetryCount (config m)) with true
      by (symmetry; apply Z.eqb_eq; lia).
    simpl. exists e. split; [|reflexivity].
    replace (requests w + 1 - 1)%nat with (requests w) by lia. exact Hre.
  - replace (i =? Config.RetryCount (config m)) with false
      by (symmetry; apply Z.eqb_neq; lia).
    assert (Hs : requests (Monitor.sent w1) = S (requests w))
      by (simpl; rewrite Hw1; reflexivity).
    match goal with
    | |- context [Monitor.attempts net m (S n) ?i' ?w' ?s'] => specialize (IH i' w' s')
    end.
    rewrite Hs in IH.
    destruct IH as (e' & He' & Hres); [lia|lia|lia| |].
    { intros j Hj. specialize (Hfail (S j)).
      replace (requests w + S j)%nat with (S (requests w) + j)%nat in Hfail by lia.
      apply Hfail. lia. }
    match goal with
    | |- context [Monitor.attempts net m (S n) ?i' ?w' ?s'] =>
        destruct (Monitor.attempts net m (S n) i' w' s') as [[st' w''] tr']
    end.
    cbn [fst snd] in *. exists e'. split; [|exact Hres].
    replace (requests w + S (S n) - 1)%nat with (S (requests w) + S n - 1)%nat by lia.
    exact He'.
Qed.

(** [detectChange] changes nothing but the baseline. *)
Lemma detectChange_monitor m content :
  (Monitor.detectChange m content).1.1 = m \/
  (Monitor.detectChange m content).1.1 = Monitor.setLastContent m content.
Proof.
  unfold Monitor.detectChange.
  destruct (lastContent m); [|right; reflexivity].
  destruct (0 <? len (filters m)), (Config.NormalizeWhitespace (config m)); cbn beta iota.
  all: repeat match goal with
       | |- context [if ?c then _ else _] => destruct c
       | |- context [match ?c with _ => _ end] => destruct c
       end; simpl; auto.
Qed.

Lemma detectChange_isFirstCheck m content :
  isFirstCheck (Monitor.detectChange m content).1.1 = isFirstCheck m.
Proof. destruct (detectChange_monitor m content) as [-> | ->]; reflexivity. Qed.

(** [performCheck], by the outcome of its fetch. *)
Lemma performCheck_unfold net m w :
  Monitor.performCheck net m w =
  let r := Monitor.fetchWithRetry net (Monitor.checking m) w in
  match r.1.1.2 with
  | Some _ => (Monitor.checking m, r.1.2, r.2 ++ [ESend r.1.1.1.2])
  | None =>
      let dc := Monitor.detectChange (Monitor.checking m) r.1.1.1.1 in
      (Monitor.checked dc.1.1 (clock r.1.2), r.1.2,
       r.2 ++ (if isFirstCheck m then []
               else if dc.1.2 then [ESend (Monitor.reported r.1.1.1.2 dc.2)] else []))
  end.
Proof.
  unfold Monitor.performCheck.
  destruct (Monitor.fetchWithRetry net (Monitor.checking m) w)
    as [[[[content change] err] w'] tr].
  cbn [fst snd]. destruct err; [reflexivity|]. cbn zeta.
  pose proof (detectChange_isFirstCheck (Monitor.checking m) content) as Hf.
  destruct (Monitor.detectChange (Monitor.checking m) content) as [[m' changed] details].
  cbn [fst snd] in *. rewrite Hf. simpl.
  destruct (isFirstCheck m); [rewrite app_nil_r; reflexivity|].
  destruct changed; [reflexivity|rewrite app_nil_r; reflexivity].
Qed.


Lemma replyError_failure r :
  replyError r <> None <-> transportError r \/ badStatus r.
Proof.
  destruct r as [err|sc ct body]; simpl.
  - split; [auto|discriminate].
  - destruct ((sc <? 200) || (300 <=? sc)) eqn:E.
    + split; [intros _|discriminate]. right.
      apply orb_true_iff in E as [E|E]; [left; apply Z.ltb_lt, E|right; apply Z.leb_le, E].
    + apply orb_false_iff in E as [E1 E2].
      apply Z.ltb_ge in E1. apply Z.leb_gt in E2.
      destruct body; split; try discriminate; auto; intros [[]|[?|?]]; lia.
Qed.

(** The fetch of a check: [k] attempts in the order of [tries]. *)
Lemma fetchWithRetry_spec net m w :
  let f := Monitor.fetchWithRetry net m w in
  let n := Z.to_nat (Config.RetryCount (config m) + 1) in
  exists k : nat,
    (k <= n)%nat /\
    f.2 = tries (Config.RetryInterval (config m)) (requests w) k /\
    requests f.1.2 = (requests w + k)%nat /\
    (forall j, (S j < k)%nat -> replyError (net (requests w + j)%nat) <> None) /\
    (f.1.1.2 = None ->
       n = O /\ k = O \/ (0 < k)%nat /\ replyError (net (requests w + k - 1)%nat) = None) /\
    (f.1.1.2 <> None ->
       (0 < n)%nat /\ k = n /\
       exists e, replyError (net (requests w + n - 1)%nat) = Some e /\
                 f.1.1 = (None, Monitor.errorChange m f.1.2 e, Some e)).
Proof.
  intros f n. subst f. unfold Monitor.fetchWithRetry. fold n.
  destruct (attempts_spec net m n 0 w (None, Change.zero, None)) as
    (k & Hk & Htr & Hreq & Hfail & Hnone & Hsome); [lia|].
  exists k. split_and!; auto.
  intros Herr. destruct (Hsome Herr) as [-> Hor].
  assert (Hn : (0 < n)%nat).
  { destruct n; [|lia]. simpl in Herr. contradiction. }
  split_and!; auto.
  destruct Hor as [->|Hlast]; [lia|].
  destruct (attempts_exhausted net m n 0 w (None, Change.zero, None)) as (e & He & Hres);
    [lia|lia| | |eauto].
  - subst n. lia.
  - intros j Hj. destruct (decide (S j < n)%nat) as [Hlt|Hge]; [apply Hfail, Hlt|].
    replace j with (n - 1)%nat by lia.
    replace (requests w + (n - 1))%nat with (requests w + n - 1)%nat by lia. exact Hlast.
Qed.

Lemma map_ESend_sends (l : list Change) : sends (map ESend l) = l.
Proof. induction l; simpl; congruence. Qed.

(** The events of one check. *)
Lemma performCheck_sends net m w :
  let f := Monitor.fetchWithRetry net (Monitor.checking m) w in
  let dc := Monitor.detectChange (Monitor.checking m) f.1.1.1.1 in
  sends (Monitor.performCheck net m w).2 =
    match f.1.1.2 with
    | Some _ => [f.1.1.1.2]
    | None =>
        if isFirstCheck m then []
        else if dc.1.2 then [Monitor.reported f.1.1.1.2 dc.2] else []
    end.
Proof.
  intros f dc. rewrite performCheck_unfold. fold f. cbv zeta. fold dc.
  destruct (fetchWithRetry_spec net (Monitor.checking m) w) as (k & _ & Htr & _).
  fold f in Htr.
  destruct (f.1.1.2); cbn [snd]; rewrite sends_app, Htr, sends_tries; [reflexivity|].
  destruct (isFirstCheck m); [reflexivity|]. destruct (dc.1.2); reflexivity.
Qed.

Lemma detectChange_first m content :
  lastContent m = None ->
  Monitor.detectChange m content = (Monitor.setLastContent m content, false, ""%string).
Proof. intros H. unfold Monitor.detectChange. rewrite H. reflexivity. Qed.

Lemma unobserved_new config : unobserved (NewMonitorWithConfig config).
Proof. split; reflexivity. Qed.

Lemma detectChange_config m content :
  config (Monitor.detectChange m content).1.1 = config m.
Proof. destruct (detectChange_monitor m content) as [-> | ->]; reflexivity. Qed.

Lemma performCheck_config net m w :
  config (Monitor.performCheck net m w).1.1 = config m.
Proof.
  rewrite performCheck_unfold. cbv zeta.
  destruct ((Monitor.fetchWithRetry net (Monitor.checking m) w).1.1.2); cbn [fst snd].
  - reflexivity.
  - unfold Monitor.checked. cbn [config]. rewrite detectChange_config. reflexivity.
Qed.

(** A check of a monitor that has observed something leaves a monitor that
    has observed something. *)
Lemma performCheck_observed net m w :
  unobserved (Monitor.performCheck net m w).1.1 -> unobserved m.
Proof.
  rewrite performCheck_unfold. cbv zeta.
  destruct ((Monitor.fetchWithRetry net (Monitor.checking m) w).1.1.2); cbn [fst snd].
  - intros H. exact H.
  - intros [H _]. discriminate H.
Qed.

(** While a monitor has observed nothing, the events of its checks are
    error events: until the first successful observation nothing else is
    sent. *)
Lemma only_errors_before_first_observation net ticks m w :
  unobserved (Monitor.onTicks net ticks m w).1.1 ->
  unobserved m /\
  Forall (fun c => exists w' e, c = Monitor.errorChange m w' e)
         (sends (Monitor.onTicks net ticks m w).2).
Proof.
  revert m w. induction ticks as [|t ticks IH]; intros m w; cbn [Monitor.onTicks].
  - simpl. intros H. split; [exact H|constructor].
  - generalize ({| clock := Z.max (clock w) t; requests := requests w |}). intros w1.
    pose proof (performCheck_config net m w1) as Hconfig.
    pose proof (performCheck_observed net m w1) as Hobs.
    pose proof (performCheck_sends net m w1) as Hsends. cbv zeta in Hsends.
    destruct (fetchWithRetry_spec net (Monitor.checking m) w1)
      as (k & _ & _ & _ & _ & _ & Hsome).
    destruct (Monitor.performCheck net m w1) as [[m1 w2] tr1].
    specialize (IH m1 w2).
    destruct (Monitor.onTicks net ticks m1 w2) as [[m2 w3] tr2].
    cbn [fst snd] in *. intros Hfinal.
    destruct (IH Hfinal) as [Hm1 Hrest]. specialize (Hobs Hm1).
    split; [exact Hobs|].
    rewrite sends_app, Hsends. apply Forall_app. split.
    + destruct ((Monitor.fetchWithRetry net (Monitor.checking m) w1).1.1.2) as [e|] eqn:Herr.
      * destruct Hsome as (_ & _ & e' & _ & Hres); [discriminate|].
        constructor; [|constructor]. rewrite Hres. cbn [fst snd]. eauto.
      * destruct Hobs as [-> _]. constructor.
    + eapply Forall_impl; [exact Hrest|]. intros c (w' & e & ->).
      exists w', e. unfold Monitor.errorChange. rewrite Hconfig. reflexivity.
Qed.

(** C1: the first change detection of a monitor (no baseline stored yet)
    reports no change and adopts the content as baseline; a new monitor has
    observed nothing; and a check of a monitor that has observed nothing
    either fails, sends its error event and leaves the monitor as it was in
    that respect, or succeeds, sends no event at all and adopts the content
    it fetched as baseline. *)
Theorem first_observation_adopts_baseline :
  (forall m content,
     lastContent m = None ->
     Monitor.detectChange m content = (Monitor.setLastContent m content, false, ""%string)) /\
  (forall config, unobserved (NewMonitorWithConfig config)) /\
  (forall net m w,
     unobserved m ->
     let fetched := Monitor.fetchWithRetry net (Monitor.checking m) w in
     let check := Monitor.performCheck net m w in
     match errorOf fetched with
     | None =>
         sends (effectsOf check) = [] /\
         lastContent (monitorAfter check) = contentOf fetched /\
         isFirstCheck (monitorAfter check) = false
     | Some e =>
         unobserved (monitorAfter check) /\
         sends (effectsOf check) = [changeOf fetched] /\
         Change.Error (changeOf fetched) = e
     end).
Proof.
  split; [exact detectChange_first|]. split; [exact unobserved_new|].
  intros net m w [Hfirst Hlast] f r.
  pose proof (performCheck_sends net m w) as Hsends. cbv zeta in Hsends.
  fold f r in Hsends. subst r. rewrite performCheck_unfold in *. fold f in Hsends |- *.
  cbv zeta in *.
  destruct (fetchWithRetry_spec net (Monitor.checking m) w) as (k & _ & _ & _ & _ & _ & Hsome).
  fold f in Hsome.
  destruct (f.1.1.2) as [e|] eqn:Herr.
  - destruct Hsome as (_ & _ & e' & _ & Hres); [discriminate|].
    split; [split; assumption|]. split; [exact Hsends|].
    destruct f as [[[[c ch] er] w'] tr]. cbn [fst snd] in *.
    injection Hres as -> -> ->. injection Herr as ->. reflexivity.
  - rewrite Hfirst in Hsends |- *. split; [exact Hsends|].
    rewrite detectChange_first by exact Hlast. split; reflexivity.
Qed.

(** C3: with a retry count that is not negative, a check makes between one
    and [RetryCount + 1] requests, a sleep of [RetryInterval] before every
    request but the first and nowhere else, and sends at most one event; a
    request fails exactly on a transport error or a status outside
    [200,300); when every request fails, all [RetryCount + 1] are made and
    one event is sent, which carries the error of the last reply and nothing
    else; with status 500 for ever and [RetryCount = 2] that is three
    requests and one error event. *)
Theorem retry_policy net m w :
  0 <= Config.RetryCount (config m) ->
  let rc := Config.RetryCount (config m) in
  let d := Config.RetryInterval (config m) in
  let check := Monitor.performCheck net m w in
  (forall m0 w0 reply, (Monitor.fetchContent m0 w0 reply).2 = replyError reply) /\
  (forall reply, replyError reply <> None <-> transportError reply \/ badStatus reply) /\
  (exists k : nat,
     1 <= Z.of_nat k <= rc + 1 /\
     effectsOf check = tries d (requests w) k ++ map ESend (sends (effectsOf check)) /\
     (length (sends (effectsOf check)) <= 1)%nat) /\
  ((forall j : nat, Z.of_nat j <= rc -> replyError (net (requests w + j)%nat) <> None) ->
   exists e,
     replyError (net (requests w + Z.to_nat rc)%nat) = Some e /\
     effectsOf check = tries d (requests w) (Z.to_nat (rc + 1))
                       ++ [ESend (Monitor.errorChange m (worldAfter check) e)]) /\
  (rc = 2 ->
   (forall n, exists contentType body, net n = Response 500 contentType body) ->
   length (gets (effectsOf check)) = 3%nat /\
   sends (effectsOf check)
     = [Monitor.errorChange m (worldAfter check) "unexpected status code: 500"]).
Proof.
  intros Hrc rc d r.
  assert (Hexh :
    (forall j : nat, Z.of_nat j <= rc -> replyError (net (requests w + j)%nat) <> None) ->
    exists e,
      replyError (net (requests w + Z.to_nat rc)%nat) = Some e /\
      r.2 = tries d (requests w) (Z.to_nat (rc + 1))
            ++ [ESend (Monitor.errorChange m r.1.2 e)]).
  { intros Hfail. subst r. rewrite performCheck_unfold. cbv zeta.
    destruct (fetchWithRetry_spec net (Monitor.checking m) w)
      as (k & Hk & Htr & _ & _ & Hnone & Hsome).
    change (config (Monitor.checking m)) with (config m) in *. fold rc d in Hk, Htr, Hnone, Hsome.
    set (f := Monitor.fetchWithRetry net (Monitor.checking m) w) in *.
    destruct (f.1.1.2) as [e0|] eqn:Herr.
    - destruct Hsome as (Hn & -> & e & He & Hres); [discriminate|].
      exists e. split.
      + replace (requests w + Z.to_nat rc)%nat
          with (requests w + Z.to_nat (rc + 1) - 1)%nat by lia. exact He.
      + cbn [fst snd]. rewrite Htr. rewrite Hres. reflexivity.
    - exfalso. destruct Hnone as [[Hn _]|[Hpos Hok]]; [reflexivity|lia|].
      apply (Hfail (k - 1)%nat); [lia|].
      replace (requests w + (k - 1))%nat with (requests w + k - 1)%nat by lia. exact Hok. }
  split; [intros; apply fetchContent_error|]. split; [apply replyError_failure|].
  split; [|split; [exact Hexh|]].
  - pose proof (performCheck_sends net m w) as Hsends. cbv zeta in Hsends. fold r in Hsends.
    subst r. rewrite performCheck_unfold in *. cbv zeta in *.
    destruct (fetchWithRetry_spec net (Monitor.checking m) w)
      as (k & Hk & Htr & _ & _ & Hnone & Hsome).
    change (config (Monitor.checking m)) with (config m) in *. fold rc d in Hk, Htr, Hnone, Hsome.
    set (f := Monitor.fetchWithRetry net (Monitor.checking m) w) in *.
    exists k. split.
    + split; [|lia].
      destruct (f.1.1.2) as [e0|].
      * destruct Hsome as (Hn & -> & _); [discriminate|lia].
      * destruct Hnone as [[Hn _]|[Hpos _]]; [reflexivity|lia|lia].
    + rewrite Hsends.
      destruct (f.1.1.2); cbn [fst snd]; rewrite Htr; [split; [reflexivity|simpl; lia]|].
      destruct (isFirstCheck m); [split; [reflexivity|simpl; lia]|].
      destruct ((Monitor.detectChange (Monitor.checking m) f.1.1.1.1).1.2);
        split; try reflexivity; simpl; lia.
  - intros Hrc2 H500.
    destruct Hexh as (e & He & Htr).
    { intros j _. destruct (H500 (requests w + j)%nat) as (ct & body & ->). discriminate. }
    destruct (H500 (requests w + Z.to_nat rc)%nat) as (ct & body & Hr).
    rewrite Hr in He. simpl in He. injection He as <-.
    rewrite Htr, gets_app, sends_app, gets_tries, sends_tries, Hrc2.
    split; reflexivity.
Qed.

(** C2, as amended: a check sends at most one event: the error event, with
    the error its fetch ended on, when the fetch fails for good; the change
    event when the fetch succeeds, the monitor has observed the target
    before and the detector reports a change; and nothing when the fetch
    succeeds on the first observation or the detector reports no change. *)
Theorem check_cycle_events net m w :
  let fetched := Monitor.fetchWithRetry net (Monitor.checking m) w in
  let detected := Monitor.detectChange (Monitor.checking m) (contentOf fetched) in
  let check := Monitor.performCheck net m w in
  sends (effectsOf check) =
    match errorOf fetched with
    | Some e => [Monitor.errorChange m (worldAfter check) e]
    | None =>
        if isFirstCheck m then []
        else if changedOf detected
        then [Monitor.reported (changeOf fetched) (detailsOf detected)]
        else []
    end /\
  (length (sends (effectsOf check)) <= 1)%nat.
Proof.
  intros f dc r. pose proof (performCheck_sends net m w) as H. cbv zeta in H.
  fold f in H. fold dc in H. fold r in H.
  assert (Hw : r.1.2 = f.1.2).
  { subst r. rewrite performCheck_unfold. cbv zeta. fold f.
    destruct (f.1.1.2); reflexivity. }
  destruct (fetchWithRetry_spec net (Monitor.checking m) w)
    as (k & _ & _ & _ & _ & _ & Hsome).
  fold f in Hsome.
  split.
  - rewrite H. destruct (f.1.1.2) as [e|] eqn:Herr; [|reflexivity].
    destruct Hsome as (_ & _ & e' & _ & Hres); [discriminate|].
    rewrite Hw. destruct f as [[[[c ch] er] w'] tr]. cbn [fst snd] in *.
    injection Hres as -> -> ->. injection Herr as ->. reflexivity.
  - rewrite H. destruct (f.1.1.2); [simpl; lia|].
    destruct (isFirstCheck m); [simpl; lia|]. destruct (dc.1.2); simpl; lia.
Qed.

Lemma byte_eqb_eq a b : byte_eqb a b = true <-> a = b.
Proof.
  unfold byte_eqb. split.
  - intros H. apply Byte.byte_dec_bl. exact H.
  - intros ->. apply Byte.byte_dec_lb. reflexivity.
Qed.

Lemma sameBytes_refl a : sameBytes a a = true.
Proof.
  induction a as [|x a IH]; simpl; [reflexivity|].
  rewrite (proj2 (byte_eqb_eq x x) eq_refl). exact IH.
Qed.

Lemma ByteSliceEqual_refl a : ByteSliceEqual a a = true.
Proof. unfold ByteSliceEqual. rewrite Z.eqb_refl. simpl. apply sameBytes_refl. Qed.

(** [detectChange] on a monitor that has a baseline, by what it compares. *)
Lemma detectChange_compared m last content :
  lastContent m = Some last ->
  Monitor.detectChange m content =
  let compareContent := Monitor.compared m (bytesOf content) in
  let compareLast := Monitor.compared m last in
  let method := Config.Method (config m) in
  if method =? MethodHash then
    if negb (Monitor.byteSliceEqual (Monitor.calculateHash compareContent)
                                    (Monitor.calculateHash compareLast))
    then (Monitor.setLastContent m content, true,
          Monitor.findDifference compareLast compareContent)
    else (m, false, ""%string)
  else if method =? MethodLength then
    if negb (len compareLast =? len compareContent)
    then (Monitor.setLastContent m content, true,
          Monitor.findDifference compareLast compareContent)
    else (m, false, ""%string)
  else if method =? MethodCustom then
    match Config.CustomCompareFn (config m) with
    | Some fn =>
        if (fn compareLast compareContent).1
        then (Monitor.setLastContent m content, true, (fn compareLast compareContent).2)
        else (m, false, ""%string)
    | None => (m, false, ""%string)
    end
  else (m, false, ""%string).
Proof.
  intros H. unfold Monitor.detectChange, Monitor.compared. rewrite H.
  destruct (0 <? len (filters m)), (Config.NormalizeWhitespace (config m)); cbn beta iota zeta.
  all: destruct (Config.Method (config m) =? MethodHash);
    [match goal with |- context [negb ?c] => destruct c end; reflexivity|].
  all: destruct (Config.Method (config m) =? MethodLength);
    [match goal with |- context [negb ?c] => destruct c end; reflexivity|].
  all: destruct (Config.Method (config m) =? MethodCustom); [|reflexivity].
  all: destruct (Config.CustomCompareFn (config m)) as [fn|]; [|reflexivity].
  all: match goal with
       | |- context [let '(_, _) := ?t in _] => destruct t as [[] ?]
       end; reflexivity.
Qed.

(** C5: whatever the method, when [detectChange] reports a change the
    monitor afterwards is the monitor before with the content it was given,
    as it was given, for baseline: not what the filters or the
    normalization made of it. *)
Theorem changed_stores_original m content m' details :
  Monitor.detectChange m content = (m', true, details) ->
  m' = Monitor.setLastContent m content /\ lastContent m' = content.
Proof.
  destruct (lastContent m) as [last|] eqn:Hlast.
  - rewrite (detectChange_compared m last content Hlast). cbv zeta.
    repeat match goal with
    | |- context [if ?c then _ else _] => destruct c
    | |- context [match Config.CustomCompareFn ?c with _ => _ end] =>
        destruct (Config.CustomCompareFn c)
    end; intros [= <- ?]; try discriminate; split; reflexivity.
  - unfold Monitor.detectChange. rewrite Hlast. discriminate.
Qed.

(** *** [findDifference] *)

Lemma scanDiff_ge i a b : Monitor.scanDiff i a b = -1 \/ i <= Monitor.scanDiff i a b.
Proof.
  revert i b. induction a as [|x a IH]; intros i [|y b]; simpl; auto.
  destruct (negb (byte_eqb x y)); [right; lia|].
  destruct (IH (i + 1) b); [auto|right; lia].
Qed.

Lemma firstDifference_least a b p k :
  firstDifference a b p -> a !! k <> b !! k -> (p <= k)%nat.
Proof.
  intros [Hbefore _] Hk. destruct (decide (p <= k)%nat); [assumption|].
  exfalso. apply Hk, Hbefore. lia.
Qed.

Lemma scanDiff_found i a b :
  0 <= i ->
  i <= Monitor.scanDiff i a b ->
  firstDifference a b (Z.to_nat (Monitor.scanDiff i a b - i)) /\
  Monitor.scanDiff i a b - i < Z.min (len a) (len b).
Proof.
  revert i b. induction a as [|x a IH]; intros i [|y b] Hi; simpl; try lia.
  unfold len in *. cbn [length].
  destruct (negb (byte_eqb x y)) eqn:E.
  - intros _. rewrite Z.sub_diag. split; [|lia]. split; [intros j Hj; simpl in Hj; lia|].
    simpl. intros [= ->]. rewrite (proj2 (byte_eqb_eq y y) eq_refl) in E. discriminate.
  - intros Hle. apply negb_false_iff, byte_eqb_eq in E. subst y.
    destruct (scanDiff_ge (i + 1) a b) as [Hm|Hge]; [lia|].
    destruct (IH (i + 1) b) as [[Hbefore Hat] Hlt]; [lia|exact Hge|].
    replace (Z.to_nat (Monitor.scanDiff (i + 1) a b - i))
      with (S (Z.to_nat (Monitor.scanDiff (i + 1) a b - (i + 1)))) by lia.
    split; [|lia]. split.
    + intros [|j] Hj; [reflexivity|]. simpl. apply Hbefore. lia.
    + exact Hat.
Qed.

Lemma scanDiff_none i a b :
  Monitor.scanDiff i a b = -1 -> 0 <= i ->
  forall j, (j < Nat.min (length a) (length b))%nat -> a !! j = b !! j.
Proof.
  revert i b. induction a as [|x a IH]; intros i [|y b]; simpl; intros H Hi j Hj; try lia.
  destruct (negb (byte_eqb x y)) eqn:E; [lia|].
  apply negb_false_iff, byte_eqb_eq in E. subst y.
  destruct j as [|j]; [reflexivity|]. simpl. apply (IH (i + 1) b); [assumption|lia|lia].
Qed.

(** The position reported for two contents that are not equal is the first
    index at which they differ. *)
Lemma diffPosition_first a b :
  a <> b ->
  ((0 <=? Monitor.scanDiff 0 a b) || negb (len a =? len b)) = true /\
  0 <= Monitor.diffPosition a b <= Z.min (len a) (len b) /\
  firstDifference a b (Z.to_nat (Monitor.diffPosition a b)).
Proof.
  intros Hne. unfold Monitor.diffPosition.
  destruct (scanDiff_ge 0 a b) as [Hm|Hge].
  - rewrite Hm. simpl.
    pose proof (scanDiff_none 0 a b Hm ltac:(lia)) as Hsame.
    assert (Hlen : length a <> length b).
    { intros Hlen. apply Hne. apply list_eq. intros j.
      destruct (decide (j < length a)%nat) as [Hj|Hj].
      - apply Hsame. lia.
      - rewrite !lookup_ge_None_2 by lia. reflexivity. }
    unfold len. split; [apply negb_true_iff, Z.eqb_neq; lia|]. split; [lia|].
    split.
    + intros j Hj. apply Hsame. lia.
    + destruct (decide (length a < length b)%nat).
      * rewrite Z.min_l, Nat2Z.id by lia. rewrite (lookup_ge_None_2 a) by lia.
        intros Heq. symmetry in Heq. apply lookup_ge_None_1 in Heq. lia.
      * rewrite Z.min_r, Nat2Z.id by lia. rewrite (lookup_ge_None_2 b) by lia.
        intros Heq. apply lookup_ge_None_1 in Heq. lia.
  - destruct (scanDiff_found 0 a b ltac:(lia) Hge) as [Hfirst Hlt].
    rewrite Z.sub_0_r in *.
    replace (Monitor.scanDiff 0 a b <? 0) with false by (symmetry; apply Z.ltb_ge; lia).
    split; [apply orb_true_iff; left; apply Z.leb_le; lia|]. split; [lia|]. exact Hfirst.
Qed.

(** What [findDifference] says of two contents that are not equal. *)
Lemma findDifference_differs a b :
  a <> b ->
  let p := Monitor.diffPosition a b in
  Monitor.findDifference a b =
  Monitor.differsAt p (slice a (Z.max 0 (p - 20)) (Z.min (len a) (p + 20)))
                      (slice b (Z.max 0 (p - 20)) (Z.min (len b) (p + 20))).
Proof.
  intros Hne p. unfold Monitor.findDifference.
  destruct (diffPosition_first a b Hne) as (-> & _ & _). fold p.
  replace (if p - 20 <? 0 then 0 else p - 20) with (Z.max 0 (p - 20))
    by (destruct (Z.ltb_spec (p - 20) 0); lia).
  replace (if len a <? p + 20 then len a else p + 20) with (Z.min (len a) (p + 20))
    by (destruct (Z.ltb_spec (len a) (p + 20)); lia).
  replace (if len b <? p + 20 then len b else p + 20) with (Z.min (len b) (p + 20))
    by (destruct (Z.ltb_spec (len b) (p + 20)); lia).
  reflexivity.
Qed.

Lemma ReplaceAll_noMatch re src repl :
  Go.regexp.doExecute re src 0 = None -> Go.regexp.ReplaceAll re src repl = src.
Proof.
  intros H. unfold Go.regexp.ReplaceAll. cbn [Go.regexp.replaceLoop].
  replace (length src <? 0)%nat with false by (symmetry; apply Nat.ltb_ge; lia).
  rewrite H. reflexivity.
Qed.



Lemma fold_startAndForward ps s :
  fold_left Manager.startAndForward ps s = withGoroutines s (goroutines s ++ spawned ps).
Proof.
  revert s. induction ps as [|p ps IH]; intros s; simpl.
  - unfold withGoroutines. rewrite app_nil_r. destruct s; reflexivity.
  - rewrite IH. unfold withGoroutines, Manager.startAndForward, Manager.startAt, Manager.spawn.
    simpl. rewrite <- !app_assoc. reflexivity.
Qed.



(** *** The registry *)

Lemma AddMonitor_empty_url monitor s mon :
  heap s !! monitor = Some mon -> Monitor.GetURL mon = ""%string ->
  Manager.AddMonitor monitor s = Ok (s, Some ErrURLEmpty).
Proof.
  intros Hp Hurl. unfold Manager.AddMonitor, deref. rewrite Hp. simpl.
  rewrite Hurl. reflexivity.
Qed.

Lemma AddMonitor_registered monitor s mon other :
  heap s !! monitor = Some mon -> Monitor.GetURL mon <> ""%string ->
  monitors (manager s) !! Monitor.GetURL mon = Some other ->
  exists e, Manager.AddMonitor monitor s = Ok (s, Some e).
Proof.
  intros Hp Hurl Hreg. unfold Manager.AddMonitor, deref. rewrite Hp. simpl.
  destruct (decide (Monitor.GetURL mon = ""%string)); [contradiction|].
  rewrite Hreg. eauto.
Qed.

Lemma AddMonitor_fresh monitor s mon :
  heap s !! monitor = Some mon -> Monitor.GetURL mon <> ""%string ->
  monitors (manager s) !! Monitor.GetURL mon = None ->
  Manager.AddMonitor monitor s =
    Ok (Manager.setManager s
          (Manager.setMonitors (manager s)
             (<[Monitor.GetURL mon := monitor]> (monitors (manager s)))), None).
Proof.
  intros Hp Hurl Hreg. unfold Manager.AddMonitor, deref. rewrite Hp. simpl.
  destruct (decide (Monitor.GetURL mon = ""%string)); [contradiction|].
  rewrite Hreg. reflexivity.
Qed.

(** [AddMonitorWithConfig] fails on an empty URL, on an interval that is not
    positive and on a URL that is registered, and then the manager is as it
    was. *)
Lemma AddMonitorWithConfig_fails config s :
  Config.URL config = ""%string \/ Config.Interval config <= 0 \/
  is_Some (monitors (manager s) !! Config.URL config) ->
  exists s' e,
    Manager.AddMonitorWithConfig config s = Ok (s', None, Some e) /\
    manager s' = manager s /\ goroutines s' = goroutines s.
Proof.
  intros H. unfold Manager.AddMonitorWithConfig.
  destruct (decide (Config.URL config = ""%string)) as [Hurl|Hurl]; [eauto|].
  destruct (Z.leb_spec (Config.Interval config) 0) as [Hi|Hi]; [eauto|].
  destruct H as [H|[H|[other Hreg]]]; [contradiction|lia|].
  unfold Manager.AddMonitor, deref. cbn [heap Manager.setHeap].
  rewrite lookup_app_r, Nat.sub_diag by lia. cbn [lookup list_lookup mbind Result_bind].
  change (Monitor.GetURL (NewMonitorWithConfig config)) with (Config.URL config).
  destruct (decide (Config.URL config = ""%string)); [contradiction|].
  cbn [manager Manager.setHeap]. rewrite Hreg. simpl. eauto.
Qed.

Lemma RemoveMonitor_unknown url s :
  monitors (manager s) !! url = None ->
  Manager.RemoveMonitor url s = Ok (s, Some (Manager.noMonitor url)).
Proof. intros H. unfold Manager.RemoveMonitor. rewrite H. reflexivity. Qed.

(** [RemoveMonitor] on a registered URL whose monitor was not stopped
    before: the monitor is stopped, no group has the URL, the registry has
    it no more. *)
Lemma RemoveMonitor_registered url s monitor mon :
  monitors (manager s) !! url = Some monitor ->
  heap s !! monitor = Some mon ->
  stopClosed mon = false ->
  exists s',
    Manager.RemoveMonitor url s = Ok (s', None) /\
    (exists mon', heap s' !! monitor = Some mon' /\ ctxDone mon' = true /\ stopClosed mon' = true) /\
    (forall name group, groups (manager s') !! name = Some group ->
                        MonitorGroup.Monitors group !! url = None) /\
    monitors (manager s') !! url = None /\
    (forall other, other <> url ->
       monitors (manager s') !! other = monitors (manager s) !! other).
Proof.
  intros Hreg Hp Hstop. unfold Manager.RemoveMonitor, Manager.stopAt, deref, Monitor.Stop.
  rewrite Hreg, Hp. simpl. rewrite Hstop. simpl. eexists. split; [reflexivity|].
  simpl. split_and!.
  - eexists. split; [apply list_lookup_insert_eq; eapply lookup_lt_Some, Hp|]. auto.
  - intros name group. rewrite lookup_fmap.
    destruct (groups (manager s) !! name) as [g|]; simpl; [|discriminate].
    intros [= <-]. simpl. apply lookup_delete_eq.
  - apply lookup_delete_eq.
  - intros other Hne. apply lookup_delete_ne. congruence.
Qed.
(** C4, as amended: when the hash method reports a change, the details
    are those of [findDifference] on the two contents as compared, that is
    after the filters and the normalization: the first index [p] at which
    these differ (the shorter length when one is a prefix of the other) and
    the bytes from [p - 20] to [p + 20] of each, within its bounds. Without
    filters and normalization [p] is at most every index [k] at which the
    baseline and the new content differ, and it is [k] exactly when they
    agree before [k]. *)
Theorem hash_details_of_compared_content m last content m' details :
  lastContent m = Some last ->
  Config.Method (config m) = MethodHash ->
  Monitor.detectChange m content = (m', true, details) ->
  let old := Monitor.compared m last in
  let new := Monitor.compared m (bytesOf content) in
  let p := Monitor.diffPosition old new in
  details = Monitor.differsAt p (slice old (Z.max 0 (p - 20)) (Z.min (len old) (p + 20)))
                                (slice new (Z.max 0 (p - 20)) (Z.min (len new) (p + 20))) /\
  0 <= p <= Z.min (len old) (len new) /\
  firstDifference old new (Z.to_nat p) /\
  (filters m = [] -> Config.NormalizeWhitespace (config m) = false ->
   old = last /\ new = bytesOf content /\
   forall k : nat,
     last !! k <> bytesOf content !! k ->
     (Z.to_nat p <= k)%nat /\
     (Z.to_nat p = k <-> forall j, (j < k)%nat -> last !! j = bytesOf content !! j)).
Proof.
  intros Hlast Hmethod Hdc old new p.
  rewrite (detectChange_compared m last content Hlast) in Hdc. cbv zeta in Hdc.
  rewrite Hmethod in Hdc. change (MethodHash =? MethodHash) with true in Hdc. cbv iota in Hdc.
  fold old new in Hdc.
  destruct (Monitor.byteSliceEqual (Monitor.calculateHash new) (Monitor.calculateHash old))
    eqn:Heq; cbn [negb] in Hdc; [discriminate|].
  injection Hdc as _ Hdetails.
  assert (Hne : old <> new).
  { intros E. rewrite E in Heq. unfold Monitor.byteSliceEqual in Heq.
    rewrite ByteSliceEqual_refl in Heq. discriminate. }
  destruct (diffPosition_first old new Hne) as (_ & Hrange & Hfirst). fold p in Hrange, Hfirst.
  split; [rewrite <- Hdetails; apply findDifference_differs, Hne|].
  split; [exact Hrange|]. split; [exact Hfirst|].
  intros Hfilters Hnorm.
  assert (Hold : old = last).
  { subst old. unfold Monitor.compared. rewrite Hfilters, Hnorm. reflexivity. }
  assert (Hnew : new = bytesOf content).
  { subst new. unfold Monitor.compared. rewrite Hfilters, Hnorm. reflexivity. }
  split; [exact Hold|]. split; [exact Hnew|].
  rewrite Hold, Hnew in Hfirst. intros k Hk.
  split; [eapply firstDifference_least; eassumption|].
  split.
  - intros <-. apply Hfirst.
  - intros Hbefore. pose proof (firstDifference_least _ _ _ _ Hfirst Hk) as Hle.
    destruct (decide (Z.to_nat p = k)) as [|Hneq]; [assumption|].
    exfalso. apply (proj2 Hfirst), Hbefore. lia.
Qed.


(** A result is the triple of its parts. *)
Lemma triple_eta {A B C} (x : A * B * C) : x = (x.1.1, x.1.2, x.2).
Proof. destruct x as [[? ?] ?]. reflexivity. Qed.

(** ** The properties at concrete inputs *)

Lemma first_observation_adopts_baseline_witness :
  unobserved Cases.retryTwice /\
  sends (effectsOf (Monitor.performCheck Cases.samePage Cases.retryTwice Cases.start)) = [] /\
  lastContent (monitorAfter (Monitor.performCheck Cases.samePage Cases.retryTwice Cases.start))
    = Some (Cases.B "same").
Proof.
  destruct first_observation_adopts_baseline as (_ & Hnew & Hcheck).
  pose proof (Hnew (Cases.configOf 2 Second [])) as Hun.
  split; [exact Hun|].
  pose proof (Hcheck Cases.samePage Cases.retryTwice Cases.start Hun) as H.
  cbv zeta in H.
  assert (E : (Monitor.fetchWithRetry Cases.samePage (Monitor.checking Cases.retryTwice)
                 Cases.start).1.1.2 = None) by (vm_compute; reflexivity).
  rewrite E in H. destruct H as (H1 & H2 & _).
  split; [exact H1|]. rewrite H2. vm_compute. reflexivity.
Defined.

(** C2 is not what the code does: the second check of a page that stays the
    same is a completed check after the first observation, and it sends
    nothing. *)
Lemma unchanged_check_sends_nothing :
  let first := Monitor.performCheck Cases.samePage Cases.retryTwice Cases.start in
  let second := Monitor.performCheck Cases.samePage (monitorAfter first) (worldAfter first) in
  isFirstCheck (monitorAfter first) = false /\
  lastContent (monitorAfter first) = Some (Cases.B "same") /\
  gets (effectsOf second) = [1%nat] /\
  status (monitorAfter second) = "idle"%string /\
  sends (effectsOf second) = [].
Proof. cbv zeta. split_and!; vm_compute; reflexivity. Qed.

Lemma retry_policy_witness :
  0 <= Config.RetryCount (config Cases.retryTwice) /\
  length (gets (effectsOf (Monitor.performCheck Cases.always500 Cases.retryTwice Cases.start)))
    = 3%nat /\
  exists c,
    sends (effectsOf (Monitor.performCheck Cases.always500 Cases.retryTwice Cases.start)) = [c] /\
    Change.Error c = "unexpected status code: 500"%string.
Proof.
  assert (H : 0 <= Config.RetryCount (config Cases.retryTwice)) by (simpl; lia).
  split; [exact H|].
  pose proof (retry_policy Cases.always500 Cases.retryTwice Cases.start H)
    as (_ & _ & _ & _ & Hscenario).
  destruct Hscenario as [Hgets Hsends];
    [reflexivity | intros n; eexists _, _; reflexivity |].
  split; [exact Hgets|]. eexists. split; [exact Hsends|reflexivity].
Defined.

Lemma hash_details_of_compared_content_witness :
  lastContent Cases.versioned = Some (Cases.B "version: 1 a") /\
  Config.Method (config Cases.versioned) = MethodHash /\
  changedOf (Monitor.detectChange Cases.versioned (Some (Cases.B "version: 2 b"))) = true /\
  firstDifference (Cases.B "version: X.Y.Z a") (Cases.B "version: X.Y.Z b") 15.
Proof.
  assert (Hchanged :
    (Monitor.detectChange Cases.versioned (Some (Cases.B "version: 2 b"))).1.2 = true)
    by (vm_compute; reflexivity).
  split; [reflexivity|]. split; [reflexivity|]. split; [exact Hchanged|].
  pose proof (triple_eta (Monitor.detectChange Cases.versioned (Some (Cases.B "version: 2 b"))))
    as H.
  rewrite Hchanged in H.
  pose proof (hash_details_of_compared_content Cases.versioned _ _ _ _ eq_refl eq_refl H)
    as (_ & _ & Hfirst & _).
  vm_compute in Hfirst. exact Hfirst.
Defined.

(** C4 is not what the code does. With the version filter, the baseline
    [version: 1 a] and the new content [version: 2 b] have twelve bytes each
    and differ at index 9; the hash method reports a change, and its details
    give position 15, past the end of both, with the filtered text for
    context: the scan is over the filtered contents, where the scan of the
    contents themselves gives 9. And without any filter, [ab] and [cd]
    differ at index 1 while the details give position 0. *)
Lemma details_scan_filtered_content :
  let A := Cases.B "version: 1 a" in
  let B := Cases.B "version: 2 b" in
  lastContent Cases.versioned = Some A /\
  len A = 12 /\ len B = 12 /\ A !! 9%nat <> B !! 9%nat /\
  changedOf (Monitor.detectChange Cases.versioned (Some B)) = true /\
  detailsOf (Monitor.detectChange Cases.versioned (Some B)) =
    Monitor.differsAt 15 (Cases.B "version: X.Y.Z a") (Cases.B "version: X.Y.Z b") /\
  Monitor.findDifference A B =
    Monitor.differsAt 9 (Cases.B "version: 1 a") (Cases.B "version: 2 b") /\
  lastContent Cases.plain = Some (Cases.B "ab") /\
  Cases.B "ab" !! 1%nat <> Cases.B "cd" !! 1%nat /\
  changedOf (Monitor.detectChange Cases.plain (Some (Cases.B "cd"))) = true /\
  detailsOf (Monitor.detectChange Cases.plain (Some (Cases.B "cd"))) =
    Monitor.differsAt 0 (Cases.B "ab") (Cases.B "cd").
Proof.
  cbv zeta. split_and!; try (vm_compute; reflexivity); vm_compute; discriminate.
Qed.

Lemma changed_stores_original_witness :
  let content := Some (Cases.B "version: 2 b") in
  let r := Monitor.detectChange Cases.versioned content in
  r = (monitorAfter r, true, detailsOf r) /\
  lastContent (monitorAfter r) = content /\
  Monitor.compared Cases.versioned (bytesOf content) = Cases.B "version: X.Y.Z b".
Proof.
  intros content r.
  assert (Hchanged : r.1.2 = true) by (vm_compute; reflexivity).
  pose proof (triple_eta r) as H. rewrite Hchanged in H.
  split; [exact H|].
  split; [exact (proj2 (changed_stores_original Cases.versioned content _ _ H))|].
  vm_compute. reflexivity.
Defined.

(** C6 on the code: [AddMonitor] takes a monitor whose interval is zero, and
    registers it; [AddMonitorWithConfig] refuses the same configuration; and
    [run] of that monitor panics in [time.NewTicker]. *)
Lemma AddMonitor_accepts_interval_zero :
  let mon := NewMonitor Cases.url 0 in
  let s := (alloc mon emptySys).1 in
  let monitor := (alloc mon emptySys).2 in
  Config.Interval (config mon) = 0 /\
  (exists s', Manager.AddMonitor monitor s = Ok (s', None) /\
              monitors (manager s') !! Cases.url = Some monitor) /\
  Manager.AddMonitorWithConfig (config mon) emptySys
    = Ok (emptySys, None, Some ErrInvalidInterval) /\
  (forall net ticks w,
     Monitor.run net ticks mon w = Panic "non-positive interval for NewTicker").
Proof.
  cbv zeta. split; [reflexivity|]. split; [|split; [vm_compute; reflexivity|reflexivity]].
  eexists. split; [vm_compute; reflexivity|]. vm_compute. reflexivity.
Qed.

(** The manager of [Cases.registered] is what the calls of
    [TestRemoveMonitor] build. *)
Example registered_by_the_api :
  let s0 := (alloc (NewMonitor Cases.url (Second * 5)) emptySys).1 in
  exists s1,
    Manager.AddMonitor 0%nat s0 = Ok (s1, None) /\
    let s2 := (Manager.CreateGroup "test-group" "Test Group" s1).1.1 in
    Manager.AddToGroup Cases.url "test-group" s2 = (Cases.registered, None).
Proof. eexists. split; vm_compute; reflexivity. Qed.

(** C7 on the code: after [StopMonitor], [RemoveMonitor] of the same URL,
    which is still registered and still in its group, panics in
    [monitor.Stop()] and removes nothing. *)
Lemma RemoveMonitor_of_stopped_monitor_panics :
  exists s,
    Manager.StopMonitor Cases.url Cases.registered = Ok (s, None) /\
    manager s = manager Cases.registered /\
    monitors (manager s) !! Cases.url = Some 0%nat /\
    Manager.RemoveMonitor Cases.url s = Panic "close of closed channel".
Proof.
  eexists. split; [vm_compute; reflexivity|]. split_and!; vm_compute; reflexivity.
Qed.





(** C10 on the code: a forwarder that holds an event while [Stop] runs is
    still there, able to send, when [Stop] has closed the shared stream;
    its [select] then has both cases ready, and when it takes the send it
    sends on the closed stream and panics. [Stop] waits for no forwarder. *)
Lemma forwarder_sends_after_close :
  let schedule := [Fanin.Receive; Fanin.StopCancel; Fanin.StopMonitors; Fanin.StopClose] in
  exists s panicked returned,
    Fanin.exec schedule (Fanin.init [Cases.event]) = Some s /\
    Fanin.stopper s = Fanin.Closed /\
    Fanin.closed s = true /\
    Fanin.done s = true /\
    Fanin.forwarder s = Fanin.Selecting Cases.event /\
    Fanin.canStillSend s = true /\
    Fanin.step Fanin.SelectDone s = Some returned /\
    Fanin.forwarder returned = Fanin.Returned /\
    Fanin.step Fanin.SelectSend s = Some panicked /\
    Fanin.forwarder panicked = Fanin.Panicked.
Proof. cbv zeta. eexists _, _, _. split_and!; reflexivity. Qed.

(** ** The tests of the repository, on the embedding *)

Example sha256_of_the_empty_string :
  CalculateSHA256 [] =
  "e3b0c44298fc1c149afbf4c8996fb92427ae41e4649b934ca495991b7852b855"%string.
Proof. vm_compute. reflexivity. Qed.

Example sha256_of_hello_world :
  CalculateSHA256 (Cases.B "hello world") =
  "b94d27b9934d3e08a52e52d7da7dabfac484efe37a5380ee9088f7ace2efcde9"%string.
Proof. vm_compute. reflexivity. Qed.

Example the_filters_of_the_constructors :
  NewTimestampFilter = inl Cases.timestampFilter /\ NewDateFilter = inl Cases.dateFilter.
Proof. split; reflexivity. Qed.

Example timestamp_filter_cases :
  map (fun s => string_of_list_byte (RegexFilter.Apply Cases.timestampFilter (Cases.B s)))
    ["Last updated: 2023-04-15T14:32:17Z"; "Published: 2023-04-15T14:32:17+09:00";
     "Generated: 202304150212+0900"; "Timestamp: 1681543937";
     "MS Timestamp: 1681543937123"; "This text has no timestamp"]%string
  = ["Last updated: TIMESTAMP"; "Published: TIMESTAMP"; "Generated: TIMESTAMP";
     "Timestamp: TIMESTAMP"; "MS Timestamp: TIMESTAMP"; "This text has no timestamp"]%string.
Proof. vm_compute. reflexivity. Qed.

Example date_filter_cases :
  map (fun s => string_of_list_byte (RegexFilter.Apply Cases.dateFilter (Cases.B s)))
    ["Date: 2023-04-15"; "Published on 04/15/2023"; "Updated on 15.04.2023";
     "From 2023-01-01 to 2023-12-31"; "This text has no date"]%string
  = ["Date: DATE"; "Published on DATE"; "Updated on DATE"; "From DATE to DATE";
     "This text has no date"]%string.
Proof. vm_compute. reflexivity. Qed.

Example find_difference_cases :
  Monitor.findDifference (Cases.B "hello world") (Cases.B "hello world")
    = "Content changed but no specific difference found"%string /\
  Monitor.findDifference (Cases.B "hello") (Cases.B "hello world")
    = Monitor.differsAt 5 (Cases.B "hello") (Cases.B "hello world") /\
  Monitor.findDifference (Cases.B "hello world") (Cases.B "hello woRld")
    = Monitor.differsAt 8 (Cases.B "hello world") (Cases.B "hello woRld").
Proof. split_and!; vm_compute; reflexivity. Qed.

Example normalize_content_cases :
  Monitor.normalizeContent (Cases.normalizing false) [] = [] /\
  Monitor.normalizeContent (Cases.normalizing false)
    (Cases.B "hello" ++ [x0d; x0a] ++ Cases.B "world" ++ [x0d])
    = Cases.B "hello" ++ [x0a] ++ Cases.B "world" ++ [x0a] /\
  Monitor.normalizeContent (Cases.normalizing true) (Cases.B "  hello   world  ")
    = Cases.B "hello world" /\
  Monitor.normalizeContent (Cases.normalizing true)
    (Cases.B "  hello " ++ [x0d; x0a] ++ Cases.B " world  " ++ [x0d] ++ Cases.B " test")
    = Cases.B "hello world test".
Proof. split_and!; vm_compute; reflexivity. Qed.

Example detect_change_with_normalization :
  let m := Monitor.setLastContent (Cases.normalizing true) (Some (Cases.B "hello world")) in
  changedOf (Monitor.detectChange m (Some (Cases.B "hello  world"))) = false /\
  changedOf (Monitor.detectChange m (Some (Cases.B "hello universe"))) = true /\
  detailsOf (Monitor.detectChange m (Some (Cases.B "hello universe")))
    = Monitor.differsAt 6 (Cases.B "hello world") (Cases.B "hello universe").
Proof. cbv zeta. split_and!; vm_compute; reflexivity. Qed.

(** * Further properties *)

(** ** pkg/utils *)

Lemma sameBytes_eq a b :
  length a = length b -> sameBytes a b = true -> a = b.
Proof.
  revert b. induction a as [|x a IH]; intros [|y b] Hlen; simpl in *; try lia; [reflexivity|].
  destruct (byte_eqb x y) eqn:E; [|discriminate].
  apply byte_eqb_eq in E. subst y. intros H. f_equal. apply IH; [lia|exact H].
Qed.

(** X1: [ByteSliceEqual] decides the equality of two byte slices: it answers
    true exactly when both hold the same bytes. *)
Theorem ByteSliceEqual_decides a b : ByteSliceEqual a b = true <-> a = b.
Proof.
  split.
  - unfold ByteSliceEqual, len. destruct (Z.eqb_spec (Z.of_nat (length a)) (Z.of_nat (length b)));
      simpl; [|discriminate].
    apply sameBytes_eq. lia.
  - intros ->. apply ByteSliceEqual_refl.
Qed.

(** ** filters.go *)

(** X2: a pipeline runs its filters from first to last: the pipeline of two
    lists one after the other is the second applied to what the first
    makes of the content, the empty pipeline changes nothing, and the
    pipeline of a new monitor with [IgnoreTimestamps] runs the configured
    filters and then the timestamp filter. *)
Theorem pipeline_composes :
  (forall (l1 l2 : list ContentFilter) content,
     ContentFilterList.Apply (l1 ++ l2) content
     = ContentFilterList.Apply l2 (ContentFilterList.Apply l1 content)) /\
  (forall content, ContentFilterList.Apply [] content = content) /\
  (forall config content,
     ContentFilterList.Apply (filters (NewMonitorWithConfig config)) content
     = if Config.IgnoreTimestamps config
       then RegexFilter.Apply Cases.timestampFilter
              (ContentFilterList.Apply (Config.ContentFilters config) content)
       else ContentFilterList.Apply (Config.ContentFilters config) content).
Proof.
  split_and!.
  - intros l1 l2 content. unfold ContentFilterList.Apply. apply fold_left_app.
  - reflexivity.
  - intros config content. unfold NewMonitorWithConfig. cbn [filters].
    destruct (Config.IgnoreTimestamps config); [|reflexivity].
    change NewTimestampFilter with (@inl RegexFilter string Cases.timestampFilter).
    cbv iota. unfold ContentFilterList.Apply. rewrite fold_left_app. reflexivity.
Qed.

(** *** Content without digits *)

Lemma timestamp_needs_digit s pos :
  match s with [] => True | b :: _ => isDigit b = false end ->
  Go.regexp.matchAt Patterns.timestamp s pos = None.
Proof.
  unfold isDigit. destruct s as [|b s]; intros H.
  - reflexivity.
  - unfold Go.regexp.matchAt, Patterns.timestamp, Patterns.seq, Patterns.digit.
    cbn [Go.regexp.matchk Go.regexp.Repeat Go.regexp.RepeatRange].
    rewrite H. reflexivity.
Qed.

Lemma date_needs_digit s pos :
  match s with [] => True | b :: _ => isDigit b = false end ->
  Go.regexp.matchAt Patterns.date s pos = None.
Proof.
  unfold isDigit. destruct s as [|b s]; intros H.
  - reflexivity.
  - unfold Go.regexp.matchAt, Patterns.date, Patterns.seq, Patterns.digit.
    cbn [Go.regexp.matchk Go.regexp.Repeat Go.regexp.RepeatRange].
    rewrite H. reflexivity.
Qed.

Lemma search_needs_digit re :
  (forall s pos, match s with [] => True | b :: _ => isDigit b = false end ->
                 Go.regexp.matchAt re s pos = None) ->
  forall s pos, Forall (fun b => isDigit b = false) s -> Go.regexp.search re s pos = None.
Proof.
  intros Hre s. induction s as [|b s IH]; intros pos Hs; cbn [Go.regexp.search].
  - rewrite Hre by exact I. reflexivity.
  - inversion Hs as [|? ? Hb Hrest]; subst. rewrite Hre by exact Hb. apply IH, Hrest.
Qed.

(** X3: content without any ASCII digit passes the timestamp filter, the date
    filter and the default filters unchanged. *)
Theorem digit_free_content_is_kept content :
  Forall (fun b => isDigit b = false) content ->
  RegexFilter.Apply Cases.timestampFilter content = content /\
  RegexFilter.Apply Cases.dateFilter content = content /\
  (forall l, CreateDefaultFilters = inl l -> ContentFilterList.Apply l content = content).
Proof.
  intros H.
  assert (Hts : RegexFilter.Apply Cases.timestampFilter content = content).
  { apply ReplaceAll_noMatch. unfold Go.regexp.doExecute. simpl skipn.
    apply (search_needs_digit _ timestamp_needs_digit), H. }
  assert (Hd : RegexFilter.Apply Cases.dateFilter content = content).
  { apply ReplaceAll_noMatch. unfold Go.regexp.doExecute. simpl skipn.
    apply (search_needs_digit _ date_needs_digit), H. }
  split_and!; [exact Hts|exact Hd|].
  intros l [= <-].
  change (RegexFilter.Apply Cases.dateFilter (RegexFilter.Apply Cases.timestampFilter content)
          = content).
  rewrite Hts. exact Hd.
Qed.

Lemma digit_free_content_is_kept_witness :
  Forall (fun b => isDigit b = false) (Cases.B "This text has no date") /\
  RegexFilter.Apply Cases.timestampFilter (Cases.B "This text has no date")
    = Cases.B "This text has no date".
Proof.
  assert (H : Forall (fun b => isDigit b = false) (Cases.B "This text has no date"))
    by (repeat constructor).
  split; [exact H|]. exact (proj1 (digit_free_content_is_kept _ H)).
Defined.

(** ** monitor.go: the change detector *)

(** X4: with a baseline stored, [detectChange] reports no change and leaves the
    monitor as it is when the hash or the length method compares equal
    contents, when the custom method has no comparator, and when the method
    is none of the three; in particular the hash and the length method
    report no change for the baseline itself. *)
Theorem detectChange_reports_no_change m last :
  lastContent m = Some last ->
  (forall content,
     (Config.Method (config m) = MethodHash \/ Config.Method (config m) = MethodLength) /\
     Monitor.compared m (bytesOf content) = Monitor.compared m last
     \/ Config.Method (config m) = MethodCustom /\ Config.CustomCompareFn (config m) = None
     \/ (Config.Method (config m) <> MethodHash /\ Config.Method (config m) <> MethodLength /\
         Config.Method (config m) <> MethodCustom) ->
     Monitor.detectChange m content = (m, false, ""%string)) /\
  (Config.Method (config m) = MethodHash \/ Config.Method (config m) = MethodLength ->
   Monitor.detectChange m (Some last) = (m, false, ""%string)).
Proof.
  intros Hlast.
  assert (Hgen : forall content,
     (Config.Method (config m) = MethodHash \/ Config.Method (config m) = MethodLength) /\
     Monitor.compared m (bytesOf content) = Monitor.compared m last
     \/ Config.Method (config m) = MethodCustom /\ Config.CustomCompareFn (config m) = None
     \/ (Config.Method (config m) <> MethodHash /\ Config.Method (config m) <> MethodLength /\
         Config.Method (config m) <> MethodCustom) ->
     Monitor.detectChange m content = (m, false, ""%string)).
  { intros content H. rewrite (detectChange_compared m last content Hlast). cbv zeta.
    destruct H as [[Hm Heq]|[[Hm Hfn]|(H1 & H2 & H3)]].
    - rewrite Heq. unfold Monitor.byteSliceEqual. rewrite ByteSliceEqual_refl, Z.eqb_refl.
      destruct Hm as [-> | ->]; reflexivity.
    - rewrite Hm, Hfn. reflexivity.
    - apply Z.eqb_neq in H1, H2, H3. rewrite H1, H2, H3. reflexivity. }
  split; [exact Hgen|].
  intros Hm. apply Hgen. left. split; [exact Hm|reflexivity].
Qed.

Lemma detectChange_reports_no_change_witness :
  lastContent Cases.plain = Some (Cases.B "ab") /\
  Monitor.detectChange Cases.plain (Some (Cases.B "ab")) = (Cases.plain, false, ""%string).
Proof.
  assert (H : lastContent Cases.plain = Some (Cases.B "ab")) by reflexivity.
  split; [exact H|].
  apply (proj2 (detectChange_reports_no_change Cases.plain _ H)). left. reflexivity.
Defined.

(** X5: the baseline moves only on a change: [detectChange] touches no field of
    the monitor but [lastContent]; when it reports no change on a monitor
    that has a baseline the monitor is as before; and it reports a change
    only on a monitor that has a baseline. *)
Theorem detectChange_keeps_baseline m content :
  let r := Monitor.detectChange m content in
  (monitorAfter r = m \/ monitorAfter r = Monitor.setLastContent m content) /\
  (changedOf r = false -> lastContent m <> None -> monitorAfter r = m) /\
  (changedOf r = true -> lastContent m <> None).
Proof.
  intros r. subst r. split; [apply detectChange_monitor|].
  destruct (lastContent m) as [last|] eqn:Hlast.
  - rewrite (detectChange_compared m last content Hlast). cbv zeta.
    split; [|discriminate]. intros Hc _. revert Hc.
    repeat match goal with
    | |- context [if ?c then _ else _] => destruct c
    | |- context [match Config.CustomCompareFn ?c with _ => _ end] =>
        destruct (Config.CustomCompareFn c)
    end; cbn [fst snd]; intros; try discriminate; reflexivity.
  - unfold Monitor.detectChange. rewrite Hlast. cbn [fst snd].
    split; [intros _ H; contradiction|discriminate].
Qed.

(** *** [findDifference] *)

Lemma differsAt_not_generic p a b :
  Monitor.differsAt p a b <> "Content changed but no specific difference found"%string.
Proof. unfold Monitor.differsAt. simpl. discriminate. Qed.

Lemma scanDiff_same i a : Monitor.scanDiff i a a = -1.
Proof.
  revert i. induction a as [|x a IH]; intros i; simpl; [reflexivity|].
  rewrite (proj2 (byte_eqb_eq x x) eq_refl). simpl. apply IH.
Qed.

(** X6: [findDifference] gives its message without a position exactly for equal
    contents. Otherwise it names the first position [p] where they differ,
    and the two contexts it cuts, from [p - 20] or 0 to [p + 20] or the end,
    lie within the contents (no slice is out of range) and have at most 40
    bytes. *)
Theorem findDifference_contexts a b :
  let p := Monitor.diffPosition a b in
  let start := Z.max 0 (p - 20) in
  let oldEnd := Z.min (len a) (p + 20) in
  let newEnd := Z.min (len b) (p + 20) in
  (Monitor.findDifference a b = "Content changed but no specific difference found"%string
   <-> a = b) /\
  (a <> b ->
   Monitor.findDifference a b = Monitor.differsAt p (slice a start oldEnd) (slice b start newEnd) /\
   0 <= start <= p /\ p <= oldEnd <= len a /\ p <= newEnd <= len b /\
   len (slice a start oldEnd) = oldEnd - start /\
   len (slice b start newEnd) = newEnd - start /\
   oldEnd - start <= 40 /\ newEnd - start <= 40).
Proof.
  intros p start oldEnd newEnd.
  assert (Hdiff : a <> b ->
    Monitor.findDifference a b
    = Monitor.differsAt p (slice a start oldEnd) (slice b start newEnd))
    by (intros Hne; apply findDifference_differs, Hne).
  split.
  - split.
    + intros H. destruct (List.list_eq_dec Byte.byte_eq_dec a b) as [|Hne]; [assumption|].
      rewrite (Hdiff Hne) in H. exfalso. exact (differsAt_not_generic _ _ _ H).
    + intros ->. unfold Monitor.findDifference. rewrite scanDiff_same, Z.eqb_refl. reflexivity.
  - intros Hne. split; [exact (Hdiff Hne)|].
    destruct (diffPosition_first a b Hne) as (_ & Hrange & _). fold p in Hrange.
    assert (Hslice : forall (l : list byte) lo hi,
              0 <= lo <= hi -> hi <= len l -> len (slice l lo hi) = hi - lo).
    { intros l lo hi H1 H2. unfold slice, len in *.
      rewrite length_take, length_drop. lia. }
    subst start oldEnd newEnd. split_and!; try lia; apply Hslice; lia.
Qed.

Lemma findDifference_contexts_witness :
  Cases.B "hello" <> Cases.B "hello world" /\
  Monitor.findDifference (Cases.B "hello") (Cases.B "hello world")
    = Monitor.differsAt 5 (Cases.B "hello") (Cases.B "hello world").
Proof.
  assert (H : Cases.B "hello" <> Cases.B "hello world") by (vm_compute; discriminate).
  split; [exact H|].
  exact (proj1 (proj2 (findDifference_contexts _ _) H)).
Defined.

(** X7: when the length method reports a change, the compared contents have
    different lengths and the details name the first position at which
    they differ, which is at most the shorter length. *)
Theorem length_details m last content m' details :
  lastContent m = Some last ->
  Config.Method (config m) = MethodLength ->
  Monitor.detectChange m content = (m', true, details) ->
  let old := Monitor.compared m last in
  let new := Monitor.compared m (bytesOf content) in
  let p := Monitor.diffPosition old new in
  len old <> len new /\
  details = Monitor.differsAt p (slice old (Z.max 0 (p - 20)) (Z.min (len old) (p + 20)))
                                (slice new (Z.max 0 (p - 20)) (Z.min (len new) (p + 20))) /\
  0 <= p <= Z.min (len old) (len new) /\
  firstDifference old new (Z.to_nat p).
Proof.
  intros Hlast Hmethod Hdc old new p.
  rewrite (detectChange_compared m last content Hlast) in Hdc. cbv zeta in Hdc.
  rewrite Hmethod in Hdc. change (MethodLength =? MethodHash) with false in Hdc.
  change (MethodLength =? MethodLength) with true in Hdc. cbv iota in Hdc.
  fold old new in Hdc.
  destruct (Z.eqb_spec (len old) (len new)) as [Heq|Hlen]; cbn [negb] in Hdc; [discriminate|].
  injection Hdc as _ Hdetails.
  assert (Hne : old <> new) by (intros E; apply Hlen; rewrite E; reflexivity).
  destruct (diffPosition_first old new Hne) as (_ & Hrange & Hfirst). fold p in Hrange, Hfirst.
  split; [exact Hlen|]. split; [rewrite <- Hdetails; apply findDifference_differs, Hne|].
  split; [exact Hrange|exact Hfirst].
Qed.

(** ** monitor.go: the check cycle *)

Lemma fetchContent_world m w r :
  Monitor.fetchContent m (Monitor.sent w) r = Monitor.fetchContent m w r.
Proof. reflexivity. Qed.

Lemma fetchContent_ok m w r :
  replyError r = None ->
  exists statusCode contentType content,
    200 <= statusCode < 300 /\
    Monitor.fetchContent m w r
    = (Some content,
       {| Change.URL := Config.URL (config m); Change.Timestamp := clock w;
          Change.HasChanged := false; Change.StatusCode := statusCode;
          Change.ContentType := contentType; Change.Error := ""; Change.Details := "" |},
       None).
Proof.
  destruct r as [err|statusCode contentType body]; simpl; [discriminate|].
  destruct ((statusCode <? 200) || (300 <=? statusCode)) eqn:Hs; [discriminate|].
  destruct body as [content|err]; [|discriminate]. intros _.
  exists statusCode, contentType, content. split; [|reflexivity].
  apply orb_false_iff in Hs. destruct Hs as [H1 H2].
  apply Z.ltb_ge in H1. apply Z.leb_gt in H2. lia.
Qed.

(** A retry loop that ends without an error ran no round at all or ends
    with what its last request gave, stamped with the clock it ends at. *)
Lemma attempts_success net m n i w st :
  (Monitor.attempts net m n i w st).1.1.2 = None ->
  n = O /\ (Monitor.attempts net m n i w st).1.1 = st \/
  exists r, replyError r = None /\
    (Monitor.attempts net m n i w st).1.1
    = Monitor.fetchContent m (Monitor.attempts net m n i w st).1.2 r.
Proof.
  revert i w st. induction n as [|n IH]; intros i w st; [left; split; reflexivity|].
  intros H. right. revert H. cbn [Monitor.attempts].
  set (w1 := if 0 <? i then _ else _).
  assert (Hw1 : exists w0 tr0, w1 = (w0, tr0)) by (destruct w1; eauto).
  destruct Hw1 as (w0 & tr0 & ->).
  pose proof (fetchContent_error m w0 (net (requests w0))) as Herr.
  destruct (Monitor.fetchContent m w0 (net (requests w0))) as [[content change] err] eqn:Hf.
  cbn [snd] in Herr.
  destruct err as [e|].
  - match goal with
    | |- context [Monitor.attempts net m n ?i1 ?w1 ?s1] =>
        specialize (IH i1 w1 s1);
        destruct (Monitor.attempts net m n i1 w1 s1) as [[st2 w2] tr2] eqn:Ha
    end.
    cbn [fst snd] in *. intros H. destruct (IH H) as [[_ Hst]|Hr]; [|exact Hr].
    rewrite Hst in H. discriminate.
  - cbn [fst snd]. intros _. exists (net (requests w0)). split; [symmetry; exact Herr|].
    rewrite fetchContent_world. symmetry. exact Hf.
Qed.

Lemma wrap64_succ a : wrap64 (wrap64 a + 1) = wrap64 (a + 1).
Proof.
  unfold wrap64. f_equal.
  replace ((a + 2 ^ 63) mod 2 ^ 64 - 2 ^ 63 + 1 + 2 ^ 63) with ((a + 2 ^ 63) mod 2 ^ 64 + 1) by lia.
  rewrite Zplus_mod_idemp_l. f_equal. lia.
Qed.

(** X8: what [GetStatus] reads after a check. The check counts itself, with the
    wrap-around of [int64]. A check whose fetch fails in the end leaves the
    status at [checking] and keeps the time of the last check, the baseline
    and the first-check mark; a check whose fetch succeeds sets the status
    to [idle], the time of the last check to the clock, and clears the
    first-check mark. The configuration, the filters and the stop marks stay
    as they are. *)
Theorem status_after_check net m w :
  let fetched := Monitor.fetchWithRetry net (Monitor.checking m) w in
  let check := Monitor.performCheck net m w in
  config (monitorAfter check) = config m /\
  filters (monitorAfter check) = filters m /\
  ctxDone (monitorAfter check) = ctxDone m /\
  stopClosed (monitorAfter check) = stopClosed m /\
  match errorOf fetched with
  | Some _ =>
      Monitor.GetStatus (monitorAfter check)
      = (lastCheck m, "checking"%string, wrap64 (checkCount m + 1)) /\
      lastContent (monitorAfter check) = lastContent m /\
      isFirstCheck (monitorAfter check) = isFirstCheck m
  | None =>
      Monitor.GetStatus (monitorAfter check)
      = (clock (worldAfter check), "idle"%string, wrap64 (checkCount m + 1)) /\
      isFirstCheck (monitorAfter check) = false
  end.
Proof.
  intros fetched check. subst check. rewrite performCheck_unfold. cbv zeta. fold fetched.
  destruct (errorOf fetched) as [e|] eqn:He.
  - cbn [fst snd]. split_and!; reflexivity.
  - cbn [fst snd].
    destruct (detectChange_monitor (Monitor.checking m) (contentOf fetched)) as [-> | ->];
      split_and!; reflexivity.
Qed.

(** X9: with a retry count that is not negative, a check whose fetch succeeds
    leaves the monitor with a baseline: the fetched content when there was
    none, also when the body is empty. *)
Theorem successful_check_sets_baseline net m w :
  0 <= Config.RetryCount (config m) ->
  let fetched := Monitor.fetchWithRetry net (Monitor.checking m) w in
  let check := Monitor.performCheck net m w in
  errorOf fetched = None ->
  (exists content, contentOf fetched = Some content) /\
  lastContent (monitorAfter check) <> None /\
  (lastContent m = None -> lastContent (monitorAfter check) = contentOf fetched).
Proof.
  intros Hrc fetched check He.
  assert (Hc : exists content, contentOf fetched = Some content).
  { destruct (attempts_success net (Monitor.checking m)
                (Z.to_nat (Config.RetryCount (config (Monitor.checking m)) + 1)) 0 w
                (None, Change.zero, None) He) as [[Hn _]|(r & Hr & Hres)].
    - cbn [Monitor.checking config] in Hn. lia.
    - destruct (fetchContent_ok (Monitor.checking m)
                  (Monitor.fetchWithRetry net (Monitor.checking m) w).1.2 r Hr)
        as (sc & ct & content & _ & Hf).
      exists content. subst fetched. unfold Monitor.fetchWithRetry in *.
      rewrite Hres, Hf. reflexivity. }
  split; [exact Hc|].
  subst check. rewrite performCheck_unfold. cbv zeta. fold fetched. rewrite He.
  cbn [fst snd Monitor.checked lastContent].
  destruct (lastContent m) as [last|] eqn:Hlast.
  - split; [|discriminate].
    destruct (detectChange_monitor (Monitor.checking m) (contentOf fetched)) as [-> | ->];
      cbn [Monitor.setLastContent Monitor.checking lastContent].
    + rewrite Hlast. discriminate.
    + destruct Hc as (content & ->). discriminate.
  - rewrite detectChange_first by exact Hlast.
    cbn [fst snd Monitor.setLastContent lastContent].
    split; [|reflexivity]. destruct Hc as (content & ->). discriminate.
Qed.

(** X10: every event a check sends carries the URL of the configuration. It is
    either the error event, with no change, no status, no content type and
    no details, or the change event of a monitor past its first check, with
    no error and a status in [200,300). *)
Theorem events_well_formed net m w c :
  0 <= Config.RetryCount (config m) ->
  let fetched := Monitor.fetchWithRetry net (Monitor.checking m) w in
  let check := Monitor.performCheck net m w in
  In c (sends (effectsOf check)) ->
  Change.URL c = Config.URL (config m) /\
  (Change.HasChanged c = false /\ Change.StatusCode c = 0 /\
   Change.ContentType c = ""%string /\ Change.Details c = ""%string /\
   errorOf fetched = Some (Change.Error c)
   \/
   Change.HasChanged c = true /\ Change.Error c = ""%string /\
   200 <= Change.StatusCode c < 300 /\ isFirstCheck m = false /\
   errorOf fetched = None).
Proof.
  intros Hrc fetched check Hin.
  subst check. rewrite performCheck_sends in Hin. cbv zeta in Hin.
  fold fetched in Hin.
  destruct (errorOf fetched) as [e|] eqn:He.
  - destruct Hin as [<-|[]].
    destruct (fetchWithRetry_spec net (Monitor.checking m) w)
      as (k & _ & _ & _ & _ & _ & Hfail).
    fold fetched in Hfail.
    destruct Hfail as (_ & _ & e' & _ & Hres); [rewrite He; discriminate|].
    assert (e' = e) by (rewrite Hres in He; cbn in He; congruence). subst e'.
    rewrite Hres. cbn [fst snd]. split; [reflexivity|].
    left. split_and!; reflexivity.
  - destruct (attempts_success net (Monitor.checking m)
                (Z.to_nat (Config.RetryCount (config (Monitor.checking m)) + 1)) 0 w
                (None, Change.zero, None) He) as [[Hn _]|(r & Hr & Hres)].
    { cbn [Monitor.checking config] in Hn. lia. }
    destruct (fetchContent_ok (Monitor.checking m) fetched.1.2 r Hr)
      as (sc & ct & content & Hsc & Hf).
    assert (Hch : changeOf fetched
                  = {| Change.URL := Config.URL (config m); Change.Timestamp := clock fetched.1.2;
                       Change.HasChanged := false; Change.StatusCode := sc;
                       Change.ContentType := ct; Change.Error := ""; Change.Details := "" |}).
    { subst fetched. unfold Monitor.fetchWithRetry in *. rewrite Hres, Hf. reflexivity. }
    destruct (isFirstCheck m) eqn:Hfirst; [destruct Hin|].
    destruct (changedOf _) in Hin; [|destruct Hin].
    destruct Hin as [<-|[]]. rewrite Hch. cbn.
    split; [reflexivity|]. right. split_and!; try reflexivity; lia.
Qed.

Lemma events_well_formed_witness :
  Forall (fun c => Change.URL c = Cases.url /\ Change.HasChanged c = false /\
                   Change.StatusCode c = 0)
         (sends (effectsOf (Monitor.performCheck Cases.always500 Cases.retryTwice Cases.start))).
Proof.
  apply List.Forall_forall. intros c Hin.
  assert (Hrc : 0 <= Config.RetryCount (config Cases.retryTwice)) by (vm_compute; discriminate).
  destruct (events_well_formed Cases.always500 Cases.retryTwice Cases.start c Hrc Hin)
    as (Hurl & [(Hc & Hs & _)|(_ & _ & _ & Hfirst & _)]).
  - split; [exact Hurl|]. split; assumption.
  - discriminate Hfirst.
Defined.

(** X11: with a negative retry count the retry loop does not run: a check makes
    no request, takes no time, fails never, and compares the baseline with
    no content at all; the event it then sends on a change has neither URL
    nor status. *)
Theorem negative_retry_count_fetches_nothing net m w :
  Config.RetryCount (config m) < 0 ->
  let check := Monitor.performCheck net m w in
  Monitor.fetchWithRetry net (Monitor.checking m) w = (None, Change.zero, None, w, []) /\
  worldAfter check = w /\
  gets (effectsOf check) = [] /\
  Forall (fun c => c = Monitor.reported Change.zero (Change.Details c))
         (sends (effectsOf check)).
Proof.
  intros Hrc check.
  assert (Hf : Monitor.fetchWithRetry net (Monitor.checking m) w
               = (None, Change.zero, None, w, [])).
  { unfold Monitor.fetchWithRetry. cbn [Monitor.checking config].
    replace (Z.to_nat (Config.RetryCount (config m) + 1)) with O by lia. reflexivity. }
  split; [exact Hf|]. subst check. rewrite performCheck_unfold. cbv zeta. rewrite Hf.
  cbn [fst snd app].
  destruct (isFirstCheck m); [split_and!; try reflexivity; constructor|].
  destruct (changedOf _); split_and!; try reflexivity; repeat constructor.
Qed.

Lemma negative_retry_count_fetches_nothing_witness :
  Config.RetryCount (config Fixtures.neverFetching) < 0 /\
  gets (effectsOf (Monitor.performCheck Cases.samePage Fixtures.neverFetching Cases.start)) = [].
Proof.
  assert (H : Config.RetryCount (config Fixtures.neverFetching) < 0) by reflexivity.
  split; [exact H|].
  exact (proj1 (proj2 (proj2 (negative_retry_count_fetches_nothing Cases.samePage
                                Fixtures.neverFetching Cases.start H)))).
Defined.

(** *** [run] *)

Lemma tries_no_close d n0 k : ~ In EClose (tries d n0 k).
Proof.
  assert (Hr : forall k n0, ~ In EClose (retries d n0 k)).
  { intros k'. induction k' as [|k' IH]; intros n0'; [intros []|].
    rewrite retries_S. intros [H|[H|H]]; try discriminate. exact (IH _ H). }
  destruct k as [|k]; [intros []|]. simpl. intros [H|H]; [discriminate|exact (Hr _ _ H)].
Qed.

Lemma performCheck_no_close net m w : ~ In EClose (Monitor.performCheck net m w).2.
Proof.
  rewrite performCheck_unfold. cbv zeta.
  destruct (fetchWithRetry_spec net (Monitor.checking m) w) as (k & _ & Htr & _).
  cbv zeta in Htr.
  set (f := Monitor.fetchWithRetry net (Monitor.checking m) w) in *.
  assert (Hf : ~ In EClose f.2) by (rewrite Htr; apply tries_no_close).
  destruct (f.1.1.2); cbn [fst snd]; intros H; apply in_app_or in H; destruct H as [H|H];
    try exact (Hf H).
  - destruct H as [H|[]]. discriminate.
  - destruct (isFirstCheck m); [destruct H|].
    destruct (changedOf _); [|destruct H]. destruct H as [H|[]]. discriminate.
Qed.

Lemma performCheck_checkCount net m w :
  checkCount (Monitor.performCheck net m w).1.1 = wrap64 (checkCount m + 1).
Proof.
  rewrite performCheck_unfold. cbv zeta.
  destruct ((Monitor.fetchWithRetry net (Monitor.checking m) w).1.1.2); cbn [fst snd];
    [reflexivity|].
  destruct (detectChange_monitor (Monitor.checking m)
              (Monitor.fetchWithRetry net (Monitor.checking m) w).1.1.1.1) as [-> | ->];
    reflexivity.
Qed.

Lemma wrap64_add a b : wrap64 (wrap64 a + b) = wrap64 (a + b).
Proof.
  unfold wrap64. f_equal.
  replace ((a + 2 ^ 63) mod 2 ^ 64 - 2 ^ 63 + b + 2 ^ 63) with ((a + 2 ^ 63) mod 2 ^ 64 + b) by lia.
  rewrite Zplus_mod_idemp_l. f_equal. lia.
Qed.

Lemma wrap64_idem a : wrap64 (wrap64 a) = wrap64 a.
Proof. pose proof (wrap64_add a 0) as H. rewrite !Z.add_0_r in H. exact H. Qed.

Lemma onTicks_spec net ticks m w :
  config (Monitor.onTicks net ticks m w).1.1 = config m /\
  (wrap64 (checkCount m) = checkCount m ->
   checkCount (Monitor.onTicks net ticks m w).1.1 = wrap64 (checkCount m + len ticks)) /\
  ~ In EClose (Monitor.onTicks net ticks m w).2 /\
  (length (sends (Monitor.onTicks net ticks m w).2) <= length ticks)%nat.
Proof.
  revert m w. induction ticks as [|t ticks IH]; intros m w.
  - simpl. split_and!; try reflexivity; try tauto.
    + intros H. unfold len. simpl. rewrite Z.add_0_r. symmetry. exact H.
  - cbn [Monitor.onTicks].
    set (w1 := {| clock := Z.max (clock w) t; requests := requests w |}).
    pose proof (performCheck_config net m w1) as Hc.
    pose proof (performCheck_checkCount net m w1) as Hn.
    pose proof (performCheck_no_close net m w1) as Hcl.
    pose proof (performCheck_sends net m w1) as Hs.
    assert (Hs1 : (length (sends (Monitor.performCheck net m w1).2) <= 1)%nat).
    { rewrite Hs. cbv zeta. repeat match goal with
      | |- context [match ?x with _ => _ end] => destruct x
      end; simpl; lia. }
    clear Hs.
    destruct (Monitor.performCheck net m w1) as [[m1 w2] tr1]. cbn [fst snd] in *.
    specialize (IH m1 w2).
    destruct (Monitor.onTicks net ticks m1 w2) as [[m2 w3] tr2]. cbn [fst snd] in *.
    destruct IH as (IH1 & IH2 & IH3 & IH4).
    split_and!.
    + congruence.
    + intros _. rewrite IH2 by (rewrite Hn; apply wrap64_idem).
      rewrite Hn, wrap64_add. f_equal. unfold len. cbn [length]. lia.
    + intros H. apply in_app_or in H. tauto.
    + rewrite sends_app, length_app. cbn [length]. lia.
Qed.

(** X12: [run] panics at once, checking nothing, when the interval is not
    positive. With a positive interval it checks once at the start and once
    for every tick, counts these checks, sends at most one event for each,
    and closes the change stream exactly once, as the last thing it
    does. *)
Theorem run_checks_then_closes net ticks m w :
  (Config.Interval (config m) <= 0 ->
   exists msg, Monitor.run net ticks m w = Panic msg) /\
  (0 < Config.Interval (config m) ->
   exists m' w' tr,
     Monitor.run net ticks m w = Ok (m', w', tr ++ [EClose]) /\
     ~ In EClose tr /\
     (length (sends tr) <= 1 + length ticks)%nat /\
     config m' = config m /\
     checkCount m' = wrap64 (checkCount m + 1 + len ticks)).
Proof.
  split; intros Hi; unfold Monitor.run.
  - destruct (Z.leb_spec (Config.Interval (config m)) 0); [eauto|lia].
  - destruct (Z.leb_spec (Config.Interval (config m)) 0); [lia|].
    pose proof (performCheck_config net m w) as Hc.
    pose proof (performCheck_checkCount net m w) as Hn.
    pose proof (performCheck_no_close net m w) as Hcl.
    pose proof (performCheck_sends net m w) as Hs.
    assert (Hs1 : (length (sends (Monitor.performCheck net m w).2) <= 1)%nat).
    { rewrite Hs. cbv zeta. repeat match goal with
      | |- context [match ?x with _ => _ end] => destruct x
      end; simpl; lia. }
    clear Hs.
    destruct (Monitor.performCheck net m w) as [[m1 w1] tr1]. cbn [fst snd] in *.
    destruct (onTicks_spec net ticks m1 w1) as (H1 & H2 & H3 & H4).
    destruct (Monitor.onTicks net ticks m1 w1) as [[m2 w2] tr2]. cbn [fst snd] in *.
    exists m2, w2, (tr1 ++ tr2). split; [rewrite app_assoc; reflexivity|].
    split_and!.
    + intros Hin. apply in_app_or in Hin. tauto.
    + rewrite sends_app, length_app. lia.
    + congruence.
    + rewrite H2 by (rewrite Hn; apply wrap64_idem).
      rewrite Hn, wrap64_add. reflexivity.
Qed.

Lemma run_checks_then_closes_witness :
  exists msg, Monitor.run Cases.samePage [] (NewMonitor Cases.url 0) Cases.start = Panic msg.
Proof.
  apply (proj1 (run_checks_then_closes Cases.samePage [] (NewMonitor Cases.url 0) Cases.start)).
  vm_compute. discriminate.
Defined.

Lemma onTicks_now net ticks m w :
  Monitor.onTicks net (clock w :: ticks) m w =
  let r := Monitor.performCheck net m w in
  let r' := Monitor.onTicks net ticks r.1.1 r.1.2 in
  (r'.1.1, r'.1.2, r.2 ++ r'.2).
Proof.
  cbn [Monitor.onTicks]. rewrite Z.max_id.
  replace {| clock := clock w; requests := requests w |} with w by (destruct w; reflexivity).
  cbv zeta. destruct (Monitor.performCheck net m w) as [[m1 w1] tr1]. cbn [fst snd].
  destruct (Monitor.onTicks net ticks m1 w1) as [[m2 w2] tr2]. reflexivity.
Qed.

(** X13: as long as [run] leaves its monitor without a first observation, all it
    has sent are error events: a monitor that [run] returns unobserved was
    unobserved at the start, and every event of the run is the error event
    of a check that ran out of attempts. *)
Theorem run_sends_errors_until_observed net ticks m w m' w' tr :
  Monitor.run net ticks m w = Ok (m', w', tr) ->
  unobserved m' ->
  unobserved m /\
  Forall (fun c => exists w0 e, c = Monitor.errorChange m w0 e) (sends tr).
Proof.
  unfold Monitor.run. destruct (_ <=? _); [discriminate|].
  pose proof (onTicks_now net ticks m w) as Hnow. cbv zeta in Hnow.
  destruct (Monitor.performCheck net m w) as [[m1 w1] tr1]. cbn [fst snd] in Hnow.
  destruct (Monitor.onTicks net ticks m1 w1) as [[m2 w2] tr2]. cbn [fst snd] in Hnow.
  intros [= <- <- <-] Hun.
  pose proof (only_errors_before_first_observation net (clock w :: ticks) m w) as H.
  rewrite Hnow in H. cbn [fst snd] in H. destruct (H Hun) as [Hm Hall].
  split; [exact Hm|]. rewrite app_assoc, sends_app. cbn [sends]. rewrite app_nil_r. exact Hall.
Qed.

(** ** manager.go *)

Lemma stopAt_spec p h :
  Manager.stopAt p h =
  match h !! p with
  | None => Panic "invalid memory address or nil pointer dereference"
  | Some mon => if stopClosed mon then Panic "close of closed channel"
                else Ok (<[p := stopped mon]> h)
  end.
Proof.
  unfold Manager.stopAt, deref. destruct (h !! p) as [mon|]; [|reflexivity].
  cbn. unfold Monitor.Stop. destruct (stopClosed mon); reflexivity.
Qed.

(** [stopEach] succeeds on pointers that are distinct and lead to monitors
    not stopped before, and on no others; it then stops these monitors and
    leaves the others alone. *)
Lemma stopEach_ok ps h h' :
  Manager.stopEach ps h = Ok h' ->
  NoDup ps /\
  (forall p, p ∈ ps -> exists mon, h !! p = Some mon /\ stopClosed mon = false) /\
  (forall q : ptr, h' !! q = if decide (q ∈ ps) then stopped <$> h !! q else h !! q).
Proof.
  revert h h'. induction ps as [|p ps IH]; intros h h'; cbn [Manager.stopEach].
  - intros [= <-]. split; [constructor|]. split; [intros p Hp; inversion Hp|].
    intros q. case_decide as Hq; [inversion Hq|reflexivity].
  - rewrite stopAt_spec. destruct (h !! p) as [mon|] eqn:Hp; [|discriminate].
    destruct (stopClosed mon) eqn:Hs; [discriminate|]. cbn.
    intros H. destruct (IH _ _ H) as (Hnd & Hall & Hlook).
    assert (Hlt : (p < length h)%nat) by (eapply lookup_lt_Some, Hp).
    assert (Hnot : p ∉ ps).
    { intros Hin. destruct (Hall p Hin) as (mon' & Hm' & Hs').
      rewrite list_lookup_insert_eq in Hm' by exact Hlt. injection Hm' as <-.
      discriminate Hs'. }
    split; [constructor; assumption|]. split.
    + intros q Hq. apply elem_of_cons in Hq. destruct Hq as [->|Hq]; [eauto|].
      destruct (Hall q Hq) as (mon' & Hm' & Hs').
      rewrite list_lookup_insert_ne in Hm' by (intros ->; contradiction). eauto.
    + intros q. rewrite Hlook. destruct (decide (q = p)) as [->|Hne].
      * rewrite list_lookup_insert_eq by exact Hlt. rewrite Hp.
        repeat case_decide; try contradiction; try reflexivity.
        exfalso. match goal with Hn : _ ∉ _ :: _ |- _ => apply Hn; left end.
      * rewrite list_lookup_insert_ne by congruence.
        repeat case_decide; try reflexivity; exfalso.
        -- match goal with Hn : _ ∉ _ :: _ |- _ => apply Hn; right; assumption end.
        -- match goal with Hn : _ ∈ _ :: _ |- _ =>
             apply elem_of_cons in Hn; destruct Hn; [congruence|contradiction] end.
Qed.

Lemma stopEach_succeeds ps h :
  NoDup ps ->
  (forall p, p ∈ ps -> exists mon, h !! p = Some mon /\ stopClosed mon = false) ->
  exists h', Manager.stopEach ps h = Ok h'.
Proof.
  revert h. induction ps as [|p ps IH]; intros h Hnd Hall; cbn [Manager.stopEach]; [eauto|].
  apply NoDup_cons in Hnd. destruct Hnd as [Hnot Hnd].
  rewrite stopAt_spec. destruct (Hall p) as (mon & Hp & Hs); [left|].
  rewrite Hp, Hs. cbn. apply IH; [exact Hnd|].
  intros q Hq. destruct (Hall q) as (mon' & Hq' & Hs'); [right; exact Hq|].
  exists mon'. split; [|exact Hs'].
  rewrite list_lookup_insert_ne by (intros ->; contradiction). exact Hq'.
Qed.

Lemma stopped_GetURL mon : Monitor.GetURL (stopped mon) = Monitor.GetURL mon.
Proof. reflexivity. Qed.

Lemma consistent_heap h s :
  consistent s ->
  (forall (q : ptr) mon, heap s !! q = Some mon ->
     exists mon', h !! q = Some mon' /\ Monitor.GetURL mon' = Monitor.GetURL mon) ->
  consistent {| heap := h; goroutines := goroutines s; manager := manager s |}.
Proof.
  intros [Hm Hg] Hh. split; [|exact Hg]. cbn. intros url p Hp.
  destruct (Hm url p Hp) as (Hne & mon & Hq & Hu). split; [exact Hne|].
  destruct (Hh p mon Hq) as (mon' & Hq' & Hu'). exists mon'. split; [exact Hq'|congruence].
Qed.

Lemma stopEach_urls ps h h' (q : ptr) mon :
  Manager.stopEach ps h = Ok h' -> h !! q = Some mon ->
  exists mon', h' !! q = Some mon' /\ Monitor.GetURL mon' = Monitor.GetURL mon.
Proof.
  intros H Hq. destruct (stopEach_ok _ _ _ H) as (_ & _ & Hlook).
  rewrite Hlook, Hq. case_decide; cbn; eauto.
Qed.

Lemma consistent_goroutines gs s :
  consistent s -> consistent (withGoroutines s gs).
Proof. intros H. exact H. Qed.

(** Distinct registered URLs lead to distinct monitors. *)
Lemma consistent_pointers s :
  consistent s -> NoDup (map_to_list (monitors (manager s))).*2.
Proof.
  intros [Hm _]. apply NoDup_fmap_2_strong; [|apply NoDup_map_to_list].
  intros [u1 p1] [u2 p2] H1 H2. cbn. intros <-.
  apply elem_of_map_to_list in H1, H2.
  destruct (Hm _ _ H1) as (_ & mon1 & Hq1 & Hu1).
  destruct (Hm _ _ H2) as (_ & mon2 & Hq2 & Hu2).
  congruence.
Qed.

Lemma consistent_members s name g :
  consistent s -> groups (manager s) !! name = Some g ->
  NoDup (map_to_list (MonitorGroup.Monitors g)).*2.
Proof.
  intros [Hm Hg] Hname. apply NoDup_fmap_2_strong; [|apply NoDup_map_to_list].
  intros [u1 p1] [u2 p2] H1 H2. cbn. intros <-.
  apply elem_of_map_to_list in H1, H2.
  destruct (Hg _ _ Hname) as [_ Hsub].
  destruct (Hm _ _ (Hsub _ _ H1)) as (_ & mon1 & Hq1 & Hu1).
  destruct (Hm _ _ (Hsub _ _ H2)) as (_ & mon2 & Hq2 & Hu2).
  congruence.
Qed.

Lemma elem_of_pointers {A} (m : gmap string A) p :
  p ∈ (map_to_list m).*2 <-> exists url, m !! url = Some p.
Proof.
  rewrite list_elem_of_fmap. split.
  - intros ([u q] & -> & H). apply elem_of_map_to_list in H. eauto.
  - intros (u & H). exists (u, p). split; [reflexivity|]. apply elem_of_map_to_list, H.
Qed.

(** X14: the empty manager is consistent, and every operation of the manager
    that returns keeps the registry consistent. *)
Theorem consistent_preserved :
  consistent emptySys /\
  (forall mon s, consistent s -> consistent (alloc mon s).1) /\
  (forall monitor s s' e,
     consistent s -> Manager.AddMonitor monitor s = Ok (s', e) -> consistent s') /\
  (forall config s s' monitor e,
     consistent s -> Manager.AddMonitorWithConfig config s = Ok (s', monitor, e) ->
     consistent s') /\
  (forall name description s,
     consistent s -> consistent (Manager.CreateGroup name description s).1.1) /\
  (forall url groupName s, consistent s -> consistent (Manager.AddToGroup url groupName s).1) /\
  (forall url s s' e,
     consistent s -> Manager.RemoveMonitor url s = Ok (s', e) -> consistent s') /\
  (forall s, consistent s -> consistent (Manager.Start s)) /\
  (forall url s, consistent s -> consistent (Manager.StartMonitor url s).1) /\
  (forall groupName s, consistent s -> consistent (Manager.StartGroup groupName s).1) /\
  (forall s s', consistent s -> Manager.Stop s = Ok s' -> consistent s') /\
  (forall url s s' e,
     consistent s -> Manager.StopMonitor url s = Ok (s', e) -> consistent s') /\
  (forall groupName s s' e,
     consistent s -> Manager.StopGroup groupName s = Ok (s', e) -> consistent s').
Proof.
  assert (Hadd : forall monitor s s' e,
     consistent s -> Manager.AddMonitor monitor s = Ok (s', e) -> consistent s').
  { intros monitor s s' e Hc. unfold Manager.AddMonitor, deref.
    destruct (heap s !! monitor) as [mon|] eqn:Hp; [|discriminate]. cbn.
    destruct (decide (Monitor.GetURL mon = ""%string)) as [|Hne]; [intros [= <- _]; exact Hc|].
    destruct (monitors (manager s) !! Monitor.GetURL mon) eqn:Hreg; [intros [= <- _]; exact Hc|].
    intros [= <- _]. destruct Hc as [Hm Hg]. split; cbn.
    - intros url p. destruct (decide (url = Monitor.GetURL mon)) as [->|Hu].
      + rewrite lookup_insert_eq. intros [= <-]. eauto.
      + rewrite lookup_insert_ne by congruence. apply Hm.
    - intros name g Hname. destruct (Hg name g Hname) as [Hn Hsub]. split; [exact Hn|].
      intros url p Hin. pose proof (Hsub url p Hin) as Hr.
      rewrite lookup_insert_ne by congruence. exact Hr. }
  assert (Halloc : forall mon s, consistent s -> consistent (alloc mon s).1).
  { intros mon s Hc. apply (consistent_heap _ s Hc). intros q mon' Hq.
    exists mon'. split; [|reflexivity].
    rewrite lookup_app_l by (eapply lookup_lt_Some, Hq). exact Hq. }
  split_and!.
  - split; cbn; intros ? ? H; rewrite lookup_empty in H; discriminate.
  - exact Halloc.
  - exact Hadd.
  - intros config s s' monitor e Hc. unfold Manager.AddMonitorWithConfig.
    destruct (decide _); [intros [= <- _ _]; exact Hc|].
    destruct (_ <=? _); [intros [= <- _ _]; exact Hc|].
    destruct (Manager.AddMonitor _ _) as [[s1 e1]|] eqn:Ha; [|discriminate]. cbn.
    assert (consistent s1) by (eapply Hadd; [|exact Ha]; apply (Halloc _ s Hc)).
    destruct e1; intros [= <- _ _]; assumption.
  - intros name description s Hc. unfold Manager.CreateGroup.
    destruct (groups (manager s) !! name) eqn:Hname; [exact Hc|].
    destruct Hc as [Hm Hg]. split; cbn; [exact Hm|].
    intros n g. destruct (decide (n = name)) as [->|Hn].
    + rewrite lookup_insert_eq. intros [= <-]. cbn. split; [reflexivity|].
      intros url p H. rewrite lookup_empty in H. discriminate.
    + rewrite lookup_insert_ne by congruence. apply Hg.
  - intros url groupName s Hc. unfold Manager.AddToGroup.
    destruct (monitors (manager s) !! url) as [monitor|] eqn:Hurl; [|exact Hc].
    destruct (groups (manager s) !! groupName) as [group|] eqn:Hname; [|exact Hc].
    destruct Hc as [Hm Hg]. split; cbn; [exact Hm|].
    intros n g. destruct (decide (n = groupName)) as [->|Hn].
    + rewrite lookup_insert_eq. intros [= <-]. cbn.
      destruct (Hg _ _ Hname) as [Hgn Hsub]. split; [exact Hgn|].
      intros u p. destruct (decide (u = url)) as [->|Hu].
      * rewrite lookup_insert_eq. intros [= <-]. exact Hurl.
      * rewrite lookup_insert_ne by congruence. apply Hsub.
    + rewrite lookup_insert_ne by congruence. apply Hg.
  - intros url s s' e Hc. unfold Manager.RemoveMonitor.
    destruct (monitors (manager s) !! url) as [monitor|] eqn:Hurl; [|intros [= <- _]; exact Hc].
    destruct (Manager.stopAt monitor (heap s)) as [h|] eqn:Hstop; [|discriminate]. cbn.
    intros [= <- _]. destruct Hc as [Hm Hg].
    assert (Hstop' : Manager.stopEach [monitor] (heap s) = Ok h)
      by (cbn; rewrite Hstop; reflexivity).
    split; cbn.
    + intros u p. destruct (decide (u = url)) as [->|Hu].
      * rewrite lookup_delete_eq. discriminate.
      * rewrite lookup_delete_ne by congruence. intros Hp.
        destruct (Hm u p Hp) as (Hne & mon & Hq & Hmu). split; [exact Hne|].
        destruct (stopEach_urls _ _ _ _ _ Hstop' Hq) as (mon' & Hq' & Hu').
        exists mon'. split; [exact Hq'|congruence].
    + intros n g. rewrite lookup_fmap. destruct (groups (manager s) !! n) as [g0|] eqn:Hn;
        [|discriminate]. cbn. intros [= <-]. destruct (Hg _ _ Hn) as [Hgn Hsub].
      split; [exact Hgn|]. cbn. intros u p. destruct (decide (u = url)) as [->|Hu].
      * rewrite lookup_delete_eq. discriminate.
      * rewrite !lookup_delete_ne by congruence. apply Hsub.
  - intros s Hc. unfold Manager.Start. rewrite fold_startAndForward.
    apply consistent_goroutines, Hc.
  - intros url s Hc. unfold Manager.StartMonitor.
    destruct (monitors (manager s) !! url); [|exact Hc]. exact Hc.
  - intros groupName s Hc. unfold Manager.StartGroup.
    destruct (groups (manager s) !! groupName); [|exact Hc]. cbn.
    rewrite fold_startAndForward. apply consistent_goroutines, Hc.
  - intros s s' Hc. unfold Manager.Stop.
    destruct (Manager.stopEach _ _) as [h|] eqn:Hstop; [|discriminate]. cbn.
    destruct (changeChannelClosed (manager s)); [discriminate|]. intros [= <-].
    destruct Hc as [Hm Hg]. split; cbn; [|exact Hg].
    intros url p Hp. destruct (Hm url p Hp) as (Hne & mon & Hq & Hu). split; [exact Hne|].
    destruct (stopEach_urls _ _ _ _ _ Hstop Hq) as (mon' & Hq' & Hu').
    exists mon'. split; [exact Hq'|congruence].
  - intros url s s' e Hc. unfold Manager.StopMonitor.
    destruct (monitors (manager s) !! url) as [monitor|]; [|intros [= <- _]; exact Hc].
    destruct (Manager.stopAt monitor (heap s)) as [h|] eqn:Hstop; [|discriminate]. cbn.
    intros [= <- _].
    assert (Hstop' : Manager.stopEach [monitor] (heap s) = Ok h)
      by (cbn; rewrite Hstop; reflexivity).
    apply (consistent_heap h s Hc). intros q mon Hq. eapply stopEach_urls; eassumption.
  - intros groupName s s' e Hc. unfold Manager.StopGroup.
    destruct (groups (manager s) !! groupName) as [group|]; [|intros [= <- _]; exact Hc].
    destruct (Manager.stopEach _ _) as [h|] eqn:Hstop; [|discriminate]. cbn.
    intros [= <- _].
    apply (consistent_heap h s Hc). intros q mon Hq. eapply stopEach_urls; eassumption.
Qed.

Lemma Stop_closed s :
  changeChannelClosed (manager s) = true -> exists msg, Manager.Stop s = Panic msg.
Proof.
  intros H. unfold Manager.Stop. destruct (Manager.stopEach _ _); cbn; [|eauto].
  rewrite H. eauto.
Qed.

(** X15: [Stop] of a consistent manager returns exactly when the shared stream
    is still open and no registered monitor was stopped before. It then
    stops every registered monitor, leaves every other monitor, the
    registry, the groups and the goroutines as they are, marks the stream
    closed and the context done; and a second [Stop] panics. *)
Theorem Stop_stops_every_monitor s :
  consistent s ->
  ((exists s', Manager.Stop s = Ok s') <->
   changeChannelClosed (manager s) = false /\
   forall url p mon, monitors (manager s) !! url = Some p -> heap s !! p = Some mon ->
                     stopClosed mon = false) /\
  (forall s', Manager.Stop s = Ok s' ->
     monitors (manager s') = monitors (manager s) /\
     groups (manager s') = groups (manager s) /\
     goroutines s' = goroutines s /\
     changeChannelClosed (manager s') = true /\
     managerDone (manager s') = true /\
     (forall url p, monitors (manager s) !! url = Some p ->
        exists mon, heap s !! p = Some mon /\ heap s' !! p = Some (stopped mon)) /\
     (forall q : ptr, (forall url, monitors (manager s) !! url <> Some q) ->
        heap s' !! q = heap s !! q) /\
     exists msg, Manager.Stop s' = Panic msg).
Proof.
  intros Hc. split.
  - split.
    + intros (s' & H). unfold Manager.Stop in H.
      destruct (Manager.stopEach _ _) as [h|] eqn:Hstop; [|discriminate]. cbn in H.
      destruct (changeChannelClosed (manager s)); [discriminate|]. split; [reflexivity|].
      intros url p mon Hp Hq. destruct (stopEach_ok _ _ _ Hstop) as (_ & Hall & _).
      destruct (Hall p) as (mon' & Hq' & Hs); [apply elem_of_pointers; eauto|]. congruence.
    + intros [Hopen Hall].
      destruct (stopEach_succeeds (map_to_list (monitors (manager s))).*2 (heap s))
        as (h & Hstop).
      * apply consistent_pointers, Hc.
      * intros p Hp. apply elem_of_pointers in Hp. destruct Hp as (url & Hp).
        destruct (proj1 Hc url p Hp) as (_ & mon & Hq & _). eauto.
      * unfold Manager.Stop. rewrite Hstop. cbn. rewrite Hopen. eauto.
  - intros s' H. unfold Manager.Stop in H.
    destruct (Manager.stopEach _ _) as [h|] eqn:Hstop; [|discriminate]. cbn in H.
    destruct (changeChannelClosed (manager s)); [discriminate|]. injection H as <-. cbn.
    destruct (stopEach_ok _ _ _ Hstop) as (_ & Hall & Hlook).
    split_and!; try reflexivity.
    + intros url p Hp. destruct (Hall p) as (mon & Hq & _); [apply elem_of_pointers; eauto|].
      exists mon. split; [exact Hq|]. rewrite Hlook, Hq.
      case_decide as Hin; [reflexivity|]. exfalso. apply Hin, elem_of_pointers. eauto.
    + intros q Hq. rewrite Hlook. case_decide as Hin; [|reflexivity].
      apply elem_of_pointers in Hin. destruct Hin as (url & Hin). destruct (Hq url Hin).
    + apply Stop_closed. reflexivity.
Qed.

(** X16: [StopGroup] of an unknown group is an error that changes nothing. On a
    group of a consistent manager it returns exactly when no member was
    stopped before; it then stops the members and nothing else. *)
Theorem StopGroup_stops_the_members groupName s :
  (groups (manager s) !! groupName = None ->
   Manager.StopGroup groupName s = Ok (s, Some (Manager.noGroup groupName))) /\
  (forall group,
     consistent s -> groups (manager s) !! groupName = Some group ->
     ((exists s', Manager.StopGroup groupName s = Ok (s', None)) <->
      forall url p mon, MonitorGroup.Monitors group !! url = Some p ->
                        heap s !! p = Some mon -> stopClosed mon = false) /\
     (forall s' e, Manager.StopGroup groupName s = Ok (s', e) ->
        e = None /\ manager s' = manager s /\ goroutines s' = goroutines s /\
        (forall url p, MonitorGroup.Monitors group !! url = Some p ->
           exists mon, heap s !! p = Some mon /\ heap s' !! p = Some (stopped mon)) /\
        (forall q : ptr, (forall url, MonitorGroup.Monitors group !! url <> Some q) ->
           heap s' !! q = heap s !! q))).
Proof.
  split; [intros H; unfold Manager.StopGroup; rewrite H; reflexivity|].
  intros group Hc Hg. unfold Manager.StopGroup. rewrite Hg. split.
  - split.
    + intros (s' & H).
      destruct (Manager.stopEach _ _) as [h|] eqn:Hstop; [|discriminate].
      intros url p mon Hp Hq. destruct (stopEach_ok _ _ _ Hstop) as (_ & Hall & _).
      destruct (Hall p) as (mon' & Hq' & Hs); [apply elem_of_pointers; eauto|]. congruence.
    + intros Hall.
      destruct (stopEach_succeeds (map_to_list (MonitorGroup.Monitors group)).*2 (heap s))
        as (h & Hstop).
      * eapply consistent_members; eassumption.
      * intros p Hp. apply elem_of_pointers in Hp. destruct Hp as (url & Hp).
        destruct (proj2 Hc _ _ Hg) as [_ Hsub].
        destruct (proj1 Hc url p (Hsub _ _ Hp)) as (_ & mon & Hq & _). eauto.
      * rewrite Hstop. cbn. eauto.
  - intros s' e H.
    destruct (Manager.stopEach _ _) as [h|] eqn:Hstop; [|discriminate]. cbn in H.
    injection H as <- <-. cbn.
    destruct (stopEach_ok _ _ _ Hstop) as (_ & Hall & Hlook).
    split_and!; try reflexivity.
    + intros url p Hp. destruct (Hall p) as (mon & Hq & _); [apply elem_of_pointers; eauto|].
      exists mon. split; [exact Hq|]. rewrite Hlook, Hq.
      case_decide as Hin; [reflexivity|]. exfalso. apply Hin, elem_of_pointers. eauto.
    + intros q Hq. rewrite Hlook. case_decide as Hin; [|reflexivity].
      apply elem_of_pointers in Hin. destruct Hin as (url & Hin). destruct (Hq url Hin).
Qed.

(** X17: [StopMonitor] of an unknown URL is an error that changes nothing. Of a
    registered monitor it stops that monitor and changes nothing else, or
    panics when the monitor was stopped before. Stopping is one-shot: once
    [StopMonitor] has returned without error, [StopMonitor] and
    [RemoveMonitor] of the same URL and [Stop] all panic. *)
Theorem StopMonitor_is_one_shot url s :
  (monitors (manager s) !! url = None ->
   Manager.StopMonitor url s = Ok (s, Some (Manager.noMonitor url))) /\
  (forall p mon,
     monitors (manager s) !! url = Some p -> heap s !! p = Some mon ->
     Manager.StopMonitor url s =
       if stopClosed mon then Panic "close of closed channel"
       else Ok (Manager.setHeap s (<[p := stopped mon]> (heap s)), None)) /\
  (forall s',
     Manager.StopMonitor url s = Ok (s', None) ->
     (exists msg, Manager.StopMonitor url s' = Panic msg) /\
     (exists msg, Manager.RemoveMonitor url s' = Panic msg) /\
     (exists msg, Manager.Stop s' = Panic msg)).
Proof.
  split_and!.
  - intros H. unfold Manager.StopMonitor. rewrite H. reflexivity.
  - intros p mon Hp Hq. unfold Manager.StopMonitor. rewrite Hp, stopAt_spec, Hq.
    destruct (stopClosed mon); reflexivity.
  - intros s'. unfold Manager.StopMonitor at 1.
    destruct (monitors (manager s) !! url) as [p|] eqn:Hp; [|discriminate].
    rewrite stopAt_spec. destruct (heap s !! p) as [mon|] eqn:Hq; [|discriminate].
    destruct (stopClosed mon); [discriminate|]. cbn. intros [= <-].
    assert (Hq' : heap (Manager.setHeap s (<[p:=stopped mon]> (heap s))) !! p
                  = Some (stopped mon))
      by (cbn; apply list_lookup_insert_eq; eapply lookup_lt_Some, Hq).
    split_and!.
    + unfold Manager.StopMonitor. cbn [Manager.setHeap manager]. rewrite Hp, stopAt_spec, Hq'.
      eauto.
    + unfold Manager.RemoveMonitor. cbn [Manager.setHeap manager]. rewrite Hp, stopAt_spec, Hq'.
      eauto.
    + destruct (Manager.Stop _) as [s2|msg] eqn:Hstop; [|eauto]. exfalso.
      unfold Manager.Stop in Hstop.
      destruct (Manager.stopEach _ _) as [h|] eqn:He; [|discriminate].
      destruct (stopEach_ok _ _ _ He) as (_ & Hall & _).
      destruct (Hall p) as (mon' & Hm' & Hs'); [apply elem_of_pointers; eauto|].
      rewrite Hq' in Hm'. injection Hm' as <-. discriminate Hs'.
Qed.

(** *** The registry *)

(** X18: [AddMonitor] panics exactly on a pointer that leads nowhere. When it
    returns an error the state is as before. When it returns none, the URL
    of the monitor is not empty and was not registered, [GetMonitor] of it
    now gives the monitor, every other URL is as before, and the list of
    URLs has grown by this one. *)
Theorem AddMonitor_then_GetMonitor monitor s :
  ((exists msg, Manager.AddMonitor monitor s = Panic msg) <-> heap s !! monitor = None) /\
  (forall s' e, Manager.AddMonitor monitor s = Ok (s', Some e) -> s' = s) /\
  (forall s',
     Manager.AddMonitor monitor s = Ok (s', None) ->
     exists mon,
       heap s !! monitor = Some mon /\
       Monitor.GetURL mon <> ""%string /\
       Manager.GetMonitor (Monitor.GetURL mon) s
         = (None, Some (Manager.noMonitor (Monitor.GetURL mon))) /\
       Manager.GetMonitor (Monitor.GetURL mon) s' = (Some monitor, None) /\
       (forall url, url <> Monitor.GetURL mon ->
          Manager.GetMonitor url s' = Manager.GetMonitor url s) /\
       Manager.ListMonitors s' ≡ₚ Monitor.GetURL mon :: Manager.ListMonitors s /\
       heap s' = heap s /\ goroutines s' = goroutines s /\
       groups (manager s') = groups (manager s)).
Proof.
  unfold Manager.AddMonitor, deref.
  destruct (heap s !! monitor) as [mon|] eqn:Hp; cbn.
  - split_and!.
    + split; [|discriminate]. intros (msg & H).
      destruct (decide _); [discriminate|]. destruct (monitors _ !! _); discriminate.
    + intros s' e. destruct (decide _); [intros [= <- _]; reflexivity|].
      destruct (monitors _ !! _); [intros [= <- _]; reflexivity|discriminate].
    + intros s'. destruct (decide _) as [|Hne]; [discriminate|].
      destruct (monitors (manager s) !! Monitor.GetURL mon) eqn:Hreg; [discriminate|].
      intros [= <-]. exists mon. unfold Manager.GetMonitor, Manager.ListMonitors. cbn.
      rewrite Hreg, lookup_insert_eq. split_and!; try reflexivity; try assumption.
      * intros url Hu. rewrite lookup_insert_ne by congruence. reflexivity.
      * rewrite map_to_list_insert by exact Hreg. reflexivity.
  - split_and!; [split; eauto|discriminate|discriminate].
Qed.

Lemma elem_of_keys {A} (m : gmap string A) k :
  k ∈ (map_to_list m).*1 <-> is_Some (m !! k).
Proof.
  rewrite list_elem_of_fmap. split.
  - intros ([k' x] & -> & H). apply elem_of_map_to_list in H. eauto.
  - intros (x & H). exists (k, x). split; [reflexivity|]. apply elem_of_map_to_list, H.
Qed.

(** X19: [ListMonitors] and [ListGroups] name every registered URL and every
    group once, and nothing else: a URL is listed exactly when [GetMonitor]
    finds it, a group exactly when [GetGroup] finds it. *)
Theorem listings_match_lookups s :
  NoDup (Manager.ListMonitors s) /\
  NoDup (Manager.ListGroups s) /\
  (forall url, url ∈ Manager.ListMonitors s <-> (Manager.GetMonitor url s).2 = None) /\
  (forall name, name ∈ Manager.ListGroups s <-> (Manager.GetGroup name s).2 = None) /\
  (forall url, (Manager.GetMonitor url s).2 = None <-> (Manager.GetMonitor url s).1 <> None) /\
  (forall name, (Manager.GetGroup name s).2 = None <-> (Manager.GetGroup name s).1 <> None).
Proof.
  unfold Manager.ListMonitors, Manager.ListGroups, Manager.GetMonitor, Manager.GetGroup.
  split_and!; try apply NoDup_fst_map_to_list.
  - intros url. rewrite elem_of_keys. destruct (monitors (manager s) !! url); cbn.
    + split; eauto.
    + split; [intros [? H]|]; discriminate.
  - intros name. rewrite elem_of_keys. destruct (groups (manager s) !! name); cbn.
    + split; eauto.
    + split; [intros [? H]|]; discriminate.
  - intros url. destruct (monitors (manager s) !! url); cbn; split; congruence.
  - intros name. destruct (groups (manager s) !! name); cbn; split; congruence.
Qed.


(** X21: [RemoveMonitor] that returns without error leaves the URL unknown:
    [GetMonitor] and a second [RemoveMonitor] answer with the error of an
    unknown URL, the list of URLs and every group have lost it, and the
    monitor it led to is stopped. *)
Theorem RemoveMonitor_then_lookup url s s' :
  Manager.RemoveMonitor url s = Ok (s', None) ->
  Manager.GetMonitor url s' = (None, Some (Manager.noMonitor url)) /\
  Manager.RemoveMonitor url s' = Ok (s', Some (Manager.noMonitor url)) /\
  Manager.StopMonitor url s' = Ok (s', Some (Manager.noMonitor url)) /\
  (url ∉ Manager.ListMonitors s') /\
  (forall name group, groups (manager s') !! name = Some group ->
     MonitorGroup.Monitors group !! url = None) /\
  (exists p mon, monitors (manager s) !! url = Some p /\ heap s !! p = Some mon /\
                 stopClosed mon = false /\ heap s' !! p = Some (stopped mon)) /\
  (forall other, other <> url ->
     Manager.GetMonitor other s' = Manager.GetMonitor other s).
Proof.
  unfold Manager.RemoveMonitor at 1.
  destruct (monitors (manager s) !! url) as [p|] eqn:Hp; [|discriminate].
  rewrite stopAt_spec. destruct (heap s !! p) as [mon|] eqn:Hq; [|discriminate].
  destruct (stopClosed mon) eqn:Hs; [discriminate|]. cbn. intros [= <-].
  unfold Manager.GetMonitor, Manager.RemoveMonitor, Manager.StopMonitor, Manager.ListMonitors.
  cbn. rewrite lookup_delete_eq. split_and!; try reflexivity.
  - rewrite elem_of_keys, lookup_delete_eq. intros [? H]. discriminate.
  - intros name group. rewrite lookup_fmap.
    destruct (groups (manager s) !! name); [|discriminate]. cbn. intros [= <-]. cbn.
    apply lookup_delete_eq.
  - exists p, mon. split_and!; try reflexivity; try assumption.
    apply list_lookup_insert_eq. eapply lookup_lt_Some, Hq.
  - intros other Hne. rewrite lookup_delete_ne by congruence. reflexivity.
Qed.

(** *** Groups *)

(** X22: [CreateGroup] of a name that is taken is an error that changes nothing.
    Of a new name it makes an empty group of that name and description,
    which [GetGroup] then finds; other groups and the monitors are as
    before. *)
Theorem CreateGroup_then_GetGroup name description s :
  (forall group, groups (manager s) !! name = Some group ->
     exists e, Manager.CreateGroup name description s = (s, None, Some e)) /\
  (groups (manager s) !! name = None ->
   exists s' group,
     Manager.CreateGroup name description s = (s', Some group, None) /\
     MonitorGroup.Name group = name /\
     MonitorGroup.Description group = description /\
     MonitorGroup.Monitors group = ∅ /\
     Manager.GetGroup name s' = (Some group, None) /\
     (forall other, other <> name -> Manager.GetGroup other s' = Manager.GetGroup other s) /\
     Manager.ListGroups s' ≡ₚ name :: Manager.ListGroups s /\
     monitors (manager s') = monitors (manager s) /\ heap s' = heap s /\
     goroutines s' = goroutines s).
Proof.
  unfold Manager.CreateGroup. split.
  - intros group ->. eauto.
  - intros H. rewrite H. eexists _, _. split; [reflexivity|].
    unfold Manager.GetGroup, Manager.ListGroups. cbn. rewrite lookup_insert_eq.
    split_and!; try reflexivity.
    + intros other Hne. rewrite lookup_insert_ne by congruence. reflexivity.
    + rewrite map_to_list_insert by exact H. reflexivity.
Qed.

(** X23: [AddToGroup] looks up the URL first, then the group; either missing is
    an error that changes nothing. Otherwise the group holds, under the
    URL, the monitor the registry holds, its other members and the other
    groups are as before, and adding the same URL again changes nothing. *)
Theorem AddToGroup_adds_the_registered_monitor url groupName s :
  (monitors (manager s) !! url = None ->
   Manager.AddToGroup url groupName s = (s, Some (Manager.noMonitor url))) /\
  (forall monitor,
     monitors (manager s) !! url = Some monitor ->
     groups (manager s) !! groupName = None ->
     Manager.AddToGroup url groupName s = (s, Some (Manager.noGroup groupName))) /\
  (forall monitor group,
     monitors (manager s) !! url = Some monitor ->
     groups (manager s) !! groupName = Some group ->
     exists s' group',
       Manager.AddToGroup url groupName s = (s', None) /\
       Manager.GetGroup groupName s' = (Some group', None) /\
       MonitorGroup.Monitors group' !! url = Some monitor /\
       (forall other, other <> url ->
          MonitorGroup.Monitors group' !! other = MonitorGroup.Monitors group !! other) /\
       MonitorGroup.Name group' = MonitorGroup.Name group /\
       MonitorGroup.Description group' = MonitorGroup.Description group /\
       (forall other, other <> groupName ->
          Manager.GetGroup other s' = Manager.GetGroup other s) /\
       monitors (manager s') = monitors (manager s) /\ heap s' = heap s /\
       Manager.AddToGroup url groupName s' = (s', None)).
Proof.
  unfold Manager.AddToGroup at 1 2 3. split_and!.
  - intros ->. reflexivity.
  - intros monitor -> ->. reflexivity.
  - intros monitor group Hurl Hg. rewrite Hurl, Hg. eexists _, _. split; [reflexivity|].
    unfold Manager.GetGroup, Manager.AddToGroup. cbn. rewrite Hurl, !lookup_insert_eq. cbn.
    split_and!; try reflexivity.
    + apply lookup_insert_eq.
    + intros other Hne. apply lookup_insert_ne. congruence.
    + intros other Hne. rewrite lookup_insert_ne by congruence. reflexivity.
    + rewrite !insert_insert_eq. reflexivity.
Qed.

(** *** [normalizeContent] *)

Lemma HasPrefix_nil s : Go.strings.HasPrefix s [] = true.
Proof. destruct s; reflexivity. Qed.

Lemma replaceFrom_no_CR n s :
  (length s <= n)%nat -> x0d ∉ Go.strings.replaceFrom n s [x0d] [x0a].
Proof.
  revert s. induction n as [|n IH]; intros s Hn.
  - destruct s; [|simpl in Hn; lia]. simpl. apply not_elem_of_nil.
  - destruct s as [|b rest]; [simpl; apply not_elem_of_nil|].
    cbn [Go.strings.replaceFrom Go.strings.HasPrefix]. rewrite HasPrefix_nil, andb_true_r.
    simpl in Hn. destruct (byte_eqb b x0d) eqn:Hb.
    + cbn [length skipn app]. intros H. apply elem_of_cons in H. destruct H as [H|H];
        [discriminate|]. revert H. apply IH. rewrite length_drop. lia.
    + intros H. apply elem_of_cons in H. destruct H as [H|H].
      * subst b. rewrite (proj2 (byte_eqb_eq x0d x0d) eq_refl) in Hb. discriminate.
      * revert H. apply IH. lia.
Qed.

Lemma replaceFrom_without n s old new :
  x0d ∉ s -> Go.strings.replaceFrom n s (x0d :: old) new = s.
Proof.
  revert s. induction n as [|n IH]; intros s Hs; [destruct s; reflexivity|].
  destruct s as [|b rest]; [reflexivity|].
  cbn [Go.strings.replaceFrom Go.strings.HasPrefix].
  destruct (byte_eqb b x0d) eqn:Hb.
  - apply byte_eqb_eq in Hb. subst b. exfalso. apply Hs. left.
  - cbn [andb]. f_equal. apply IH. intros H. apply Hs. right. exact H.
Qed.

Lemma HasPrefix_length s old :
  Go.strings.HasPrefix s old = true -> (length old <= length s)%nat.
Proof.
  revert s. induction old as [|p old IH]; intros s; [simpl; lia|].
  destruct s as [|x s]; [discriminate|]. cbn [Go.strings.HasPrefix]. intros H.
  apply andb_true_iff in H. destruct H as [_ H]. apply IH in H. simpl. lia.
Qed.

Lemma replaceFrom_length n s old new :
  (length new <= length old)%nat ->
  (length (Go.strings.replaceFrom n s old new) <= length s)%nat.
Proof.
  intros Hlen. revert s. induction n as [|n IH]; intros s; [destruct s; simpl; lia|].
  destruct s as [|b rest]; [simpl; lia|]. cbn [Go.strings.replaceFrom].
  destruct (Go.strings.HasPrefix (b :: rest) old) eqn:Hp.
  - apply HasPrefix_length in Hp. rewrite length_app.
    pose proof (IH (skipn (length old) (b :: rest))) as H. rewrite length_drop in H. lia.
  - cbn [length]. pose proof (IH rest). lia.
Qed.

(** X24: without [NormalizeWhitespace], [normalizeContent] leaves no carriage
    return and makes nothing longer; content without a carriage return
    comes back as it is, so normalizing twice is normalizing once. *)
Theorem normalizeContent_line_endings m content :
  Config.NormalizeWhitespace (config m) = false ->
  let out := Monitor.normalizeContent m content in
  (x0d ∉ out) /\
  (length out <= length content)%nat /\
  (x0d ∉ content -> out = content) /\
  Monitor.normalizeContent m out = out.
Proof.
  intros Hn out.
  assert (Hout : forall c, x0d ∉ c -> Monitor.normalizeContent m c = c).
  { intros c Hc. unfold Monitor.normalizeContent. rewrite Hn.
    destruct (len c =? 0); [reflexivity|]. unfold Go.strings.ReplaceAll.
    rewrite (replaceFrom_without _ c [x0a] [x0a] Hc). apply replaceFrom_without, Hc. }
  assert (Hno : x0d ∉ out).
  { subst out. unfold Monitor.normalizeContent. rewrite Hn.
    destruct (len content =? 0) eqn:He.
    - apply Z.eqb_eq in He. destruct content; [apply not_elem_of_nil|].
      unfold len in He. simpl in He. lia.
    - unfold Go.strings.ReplaceAll at 1. apply replaceFrom_no_CR. lia. }
  split; [exact Hno|]. split; [|split; [apply Hout|apply Hout, Hno]].
  subst out. unfold Monitor.normalizeContent. rewrite Hn.
  destruct (len content =? 0); [lia|]. unfold Go.strings.ReplaceAll.
  etransitivity; [apply replaceFrom_length; simpl; lia|].
  apply replaceFrom_length. simpl. lia.
Qed.

Lemma normalizeContent_line_endings_witness :
  Config.NormalizeWhitespace (config (Cases.normalizing false)) = false /\
  x0d ∉ Monitor.normalizeContent (Cases.normalizing false)
          (Cases.B "hello" ++ [x0d; x0a] ++ Cases.B "world" ++ [x0d]).
Proof.
  assert (H : Config.NormalizeWhitespace (config (Cases.normalizing false)) = false)
    by reflexivity.
  split; [exact H|].
  exact (proj1 (normalizeContent_line_endings (Cases.normalizing false) _ H)).
Defined.

(** **** White space *)

Lemma asciiSpace_spec b :
  asciiSpace b = true <-> 9 <= byteZ b <= 13 \/ byteZ b = 32.
Proof.
  unfold asciiSpace. rewrite orb_true_iff, andb_true_iff, !Z.leb_le, Z.eqb_eq. tauto.
Qed.

Lemma IsSpace_ascii b : asciiSpace b = true -> Go.utf8.IsSpace (byteZ b) = true.
Proof.
  intros H. apply asciiSpace_spec in H. unfold Go.utf8.IsSpace.
  destruct H as [H| ->]; [|reflexivity].
  replace ((9 <=? byteZ b) && (byteZ b <=? 13)) with true; [reflexivity|].
  symmetry. apply andb_true_iff. rewrite !Z.leb_le. exact H.
Qed.

Lemma not_asciiSpace b : 128 <= byteZ b -> asciiSpace b = false.
Proof.
  intros H. apply not_true_is_false. intros Hs. apply asciiSpace_spec in Hs. lia.
Qed.

Lemma cont_high b : Go.utf8.cont b = true -> 128 <= byteZ b.
Proof. unfold Go.utf8.cont. rewrite andb_true_iff, !Z.leb_le. lia. Qed.

Ltac bools :=
  repeat match goal with
  | H : (_ || _) = false |- _ => apply orb_false_iff in H; destruct H
  | H : negb _ = false |- _ => apply negb_false_iff in H
  | H : (_ <? _) = false |- _ => apply Z.ltb_ge in H
  | H : (_ <? _) = true |- _ => apply Z.ltb_lt in H
  | H : (_ =? _) = true |- _ => apply Z.eqb_eq in H
  | H : (_ =? _) = false |- _ => apply Z.eqb_neq in H
  | H : Go.utf8.cont _ = true |- _ => apply cont_high in H
  end.

(** The bytes of a rune that is not white space are not ASCII white space,
    and every rune of a non-empty input has a byte at least. *)
Lemma DecodeRune_bytes b0 rest :
  let '(r, w) := Go.utf8.DecodeRune (b0 :: rest) in
  (1 <= w)%nat /\
  (Go.utf8.IsSpace r = false -> Forall (fun b => asciiSpace b = false) (firstn w (b0 :: rest))).
Proof.
  unfold Go.utf8.DecodeRune.
  destruct (byteZ b0 <? 128) eqn:H0.
  { split; [lia|]. intros Hr. repeat constructor.
    apply not_true_is_false. intros Hs. apply IsSpace_ascii in Hs. congruence. }
  assert (Hb0 : asciiSpace b0 = false) by (bools; apply not_asciiSpace; assumption).
  destruct ((byteZ b0 <? 194) || (244 <? byteZ b0)) eqn:H1;
    [split; [lia|]; intros _; repeat constructor; exact Hb0|].
  cbv zeta.
  set (lo := if byteZ b0 =? 224 then 160 else if byteZ b0 =? 240 then 144 else 128).
  set (hi := if byteZ b0 =? 237 then 159 else if byteZ b0 =? 244 then 143 else 191).
  assert (Hlo : 128 <= lo) by (subst lo; repeat destruct (_ =? _); lia).
  clearbody lo hi.
  destruct rest as [|b1 rest1]; [split; [lia|]; intros _; repeat constructor; exact Hb0|].
  destruct (byteZ b0 <? 224).
  { destruct ((byteZ b1 <? lo) || (hi <? byteZ b1)) eqn:H2;
      (split; [lia|]); intros _; repeat constructor; try exact Hb0.
    bools. apply not_asciiSpace. lia. }
  destruct rest1 as [|b2 rest2]; [split; [lia|]; intros _; repeat constructor; exact Hb0|].
  destruct (byteZ b0 <? 240).
  { destruct ((byteZ b1 <? lo) || (hi <? byteZ b1) || negb (Go.utf8.cont b2)) eqn:H2;
      (split; [lia|]); intros _; repeat constructor; try exact Hb0;
      bools; apply not_asciiSpace; lia. }
  destruct rest2 as [|b3 rest3]; [split; [lia|]; intros _; repeat constructor; exact Hb0|].
  destruct ((byteZ b1 <? lo) || (hi <? byteZ b1) || negb (Go.utf8.cont b2)
            || negb (Go.utf8.cont b3)) eqn:H2;
    (split; [lia|]); intros _; repeat constructor; try exact Hb0;
    bools; apply not_asciiSpace; lia.
Qed.

Lemma fieldsFrom_fields n s cur :
  Forall (fun b => asciiSpace b = false) cur ->
  Forall (fun f => f <> [] /\ Forall (fun b => asciiSpace b = false) f)
         (Go.strings.fieldsFrom n s cur).
Proof.
  revert s cur. induction n as [|n IH]; intros s cur Hcur.
  all: assert (Hbase : Forall (fun f => f <> [] /\ Forall (fun b => asciiSpace b = false) f)
                         (match cur with [] => [] | _ :: _ => [cur] end))
         by (destruct cur; [constructor|]; constructor; [split; [discriminate|exact Hcur]|];
             constructor).
  - destruct s; exact Hbase.
  - destruct s as [|b0 rest].
    + exact Hbase.
    + cbn [Go.strings.fieldsFrom].
      pose proof (DecodeRune_bytes b0 rest) as Hd.
      destruct (Go.utf8.DecodeRune (b0 :: rest)) as [r w].
      destruct Hd as [_ Hd]. destruct (Go.utf8.IsSpace r).
      * destruct cur as [|c cur'].
        -- apply IH. constructor.
        -- constructor; [split; [discriminate|exact Hcur]|]. apply IH. constructor.
      * apply IH. apply Forall_app. split; [exact Hcur|]. apply Hd. reflexivity.
Qed.

Lemma singleSpaces_words f rest :
  Forall (fun b => asciiSpace b = false) f ->
  singleSpaces (f ++ rest) = singleSpaces rest.
Proof.
  induction 1 as [|b f Hb _ IH]; [reflexivity|].
  cbn [app singleSpaces]. rewrite Hb. exact IH.
Qed.

Lemma Join_collapsed fields :
  Forall (fun f => f <> [] /\ Forall (fun b => asciiSpace b = false) f) fields ->
  singleSpaces (Go.strings.Join fields [x20]) = true /\
  startsWithWord (Go.strings.Join fields [x20]) = true.
Proof.
  induction 1 as [|f fields [Hne Hf] Hrest IH]; [split; reflexivity|].
  assert (Hstart : forall tail, startsWithWord (f ++ tail) = true).
  { intros tail. destruct f as [|b f']; [contradiction|]. cbn.
    inversion Hf; subst. rewrite H1. reflexivity. }
  destruct fields as [|f2 fields'].
  - cbn [Go.strings.Join]. split.
    + rewrite <- (app_nil_r f). rewrite singleSpaces_words by exact Hf. reflexivity.
    + rewrite <- (app_nil_r f). apply Hstart.
  - change (Go.strings.Join (f :: f2 :: fields') [x20])
      with (f ++ [x20] ++ Go.strings.Join (f2 :: fields') [x20]).
    split; [|apply Hstart]. rewrite singleSpaces_words by exact Hf.
    destruct IH as [IH1 IH2]. cbn [app singleSpaces].
    change (asciiSpace x20) with true. cbv iota.
    change (byte_eqb x20 x20) with true. cbn [andb].
    destruct (Go.strings.Join (f2 :: fields') [x20]) as [|b' tail] eqn:Hj.
    + exfalso. inversion Hrest as [|? ? [Hne2 _] _]; subst.
      destruct f2; [contradiction|]. destruct fields'; discriminate Hj.
    + cbn [startsWithWord] in IH2. rewrite IH2, IH1. reflexivity.
Qed.

Lemma singleSpaces_tail b l : singleSpaces (b :: l) = true -> singleSpaces l = true.
Proof. cbn [singleSpaces]. intros H. apply andb_true_iff in H. tauto. Qed.

Lemma singleSpaces_skipn k l : singleSpaces l = true -> singleSpaces (skipn k l) = true.
Proof.
  revert l. induction k as [|k IH]; intros l H; [exact H|].
  destruct l as [|b l]; [reflexivity|]. cbn [skipn]. apply IH. eapply singleSpaces_tail, H.
Qed.

(** [trimLeft] cuts a prefix off, and with enough fuel what it leaves does
    not start with white space. *)
Lemma trimLeft_spec n s :
  (exists k, Go.strings.trimLeft n s = skipn k s) /\
  ((length s <= n)%nat -> startsWithWord (Go.strings.trimLeft n s) = true).
Proof.
  revert s. induction n as [|n IH]; intros s.
  - split; [exists O; destruct s; reflexivity|]. destruct s; [reflexivity|simpl; lia].
  - destruct s as [|b0 rest]; [split; [exists O|]; reflexivity|].
    cbn [Go.strings.trimLeft].
    pose proof (DecodeRune_bytes b0 rest) as Hd.
    destruct (Go.utf8.DecodeRune (b0 :: rest)) as [r w]. destruct Hd as [Hw Hd].
    destruct (Go.utf8.IsSpace r) eqn:Hr.
    + destruct (IH (skipn w (b0 :: rest))) as [(k & Hk) Hstart]. split.
      * exists (w + k)%nat. rewrite Hk. rewrite skipn_skipn. f_equal. lia.
      * intros Hn. apply Hstart. rewrite length_drop. simpl in *. lia.
    + split; [exists O; reflexivity|]. intros _. specialize (Hd eq_refl).
      destruct w as [|w]; [lia|]. cbn [firstn] in Hd. inversion Hd; subst.
      cbn. rewrite H1. reflexivity.
Qed.

Lemma runeStart_le n p start lim : Go.utf8.runeStart n p start lim <= start.
Proof.
  revert start. induction n as [|n IH]; intros start; simpl; [lia|].
  destruct (start <? lim); [lia|]. destruct (negb _); [lia|].
  pose proof (IH (start - 1)). lia.
Qed.

(** The last rune of a non-empty input has a byte at least, and is the
    last byte when that is ASCII. *)
Lemma DecodeLastRune_spec s :
  s <> [] ->
  (1 <= (Go.utf8.DecodeLastRune s).2)%nat /\
  (forall b, last s = Some b -> asciiSpace b = true ->
             Go.utf8.IsSpace (Go.utf8.DecodeLastRune s).1 = true).
Proof.
  intros Hne. unfold Go.utf8.DecodeLastRune.
  assert (He : 1 <= len s) by (destruct s; [contradiction|unfold len; simpl; lia]).
  destruct (Z.eqb_spec (len s) 0) as [|_]; [lia|].
  assert (Hlast : forall b, last s = Some b -> nth (Z.to_nat (len s - 1)) s x00 = b).
  { intros b Hb. rewrite last_lookup in Hb. unfold len.
    replace (Z.to_nat (Z.of_nat (length s) - 1)) with (Nat.pred (length s)) by lia.
    apply nth_lookup_Some with (d := x00) in Hb. exact Hb. }
  destruct (byteZ (nth (Z.to_nat (len s - 1)) s x00) <? 128) eqn:Hlow.
  - cbn [fst snd]. split; [lia|]. intros b Hb Hs. rewrite (Hlast b Hb).
    apply IsSpace_ascii, Hs.
  - cbv zeta. split.
    + pose proof (runeStart_le 4 s (len s - 2) (Z.max 0 (len s - 4))) as Hrs.
      destruct (Go.utf8.DecodeRune _) as [r' size].
      destruct (Z.eqb_spec (Z.max 0 (Go.utf8.runeStart 4 s (len s - 2) (Z.max 0 (len s - 4)))
                            + Z.of_nat size) (len s)) as [Heq|_]; cbn [snd]; lia.
    + intros b Hb Hs. rewrite (Hlast b Hb) in Hlow. apply asciiSpace_spec in Hs.
      apply Z.ltb_ge in Hlow. lia.
Qed.

Lemma last_firstn_not_space k (l : list byte) :
  singleSpaces l = true ->
  match last (firstn k l) with Some b => asciiSpace b = false | None => True end ->
  singleSpaces (firstn k l) = true.
Proof.
  revert k. induction l as [|b l IH]; intros k Hs Hl; [destruct k; reflexivity|].
  destruct k as [|k]; [reflexivity|]. cbn [firstn] in Hl. cbn [firstn singleSpaces] in Hs |- *.
  apply andb_true_iff in Hs. destruct Hs as [Hb Hs].
  rewrite last_cons in Hl.
  apply andb_true_iff. split.
  - destruct (asciiSpace b) eqn:Hbs; [|reflexivity].
    apply andb_true_iff in Hb. destruct Hb as [Hb1 Hb2].
    apply andb_true_iff. split; [exact Hb1|].
    destruct l as [|b' l']; [discriminate|].
    destruct k as [|k]; [|exact Hb2]. cbn in Hl. congruence.
  - apply IH; [exact Hs|]. destruct (last (firstn k l)); [exact Hl|exact I].
Qed.

(** [trimRight] cuts a suffix off, and with enough fuel what it leaves does
    not end with ASCII white space. *)
Lemma trimRight_spec n s :
  (exists k, Go.strings.trimRight n s = firstn k s) /\
  ((length s <= n)%nat ->
   match last (Go.strings.trimRight n s) with
   | Some b => asciiSpace b = false
   | None => True
   end).
Proof.
  revert s. induction n as [|n IH]; intros s.
  - split; [exists (length s); rewrite firstn_all; destruct s; reflexivity|].
    destruct s; [intros _; exact I|simpl; lia].
  - destruct s as [|b0 rest]; [split; [exists O; reflexivity|intros _; exact I]|].
    cbn [Go.strings.trimRight].
    assert (Hne : b0 :: rest <> []) by (intros ?; discriminate).
    destruct (DecodeLastRune_spec (b0 :: rest) Hne) as [Hw Hsp].
    destruct (Go.utf8.DecodeLastRune (b0 :: rest)) as [r w]. cbn [fst snd] in *.
    destruct (Go.utf8.IsSpace r) eqn:Hr.
    + destruct (IH (firstn (length (b0 :: rest) - w) (b0 :: rest))) as [(k & Hk) Hend]. split.
      * exists (Nat.min k (length (b0 :: rest) - w)). rewrite Hk.
        rewrite firstn_firstn. reflexivity.
      * intros Hn. apply Hend. rewrite length_take. simpl in *. lia.
    + split; [exists (length (b0 :: rest)); rewrite firstn_all; reflexivity|].
      intros _. destruct (last (b0 :: rest)) as [b|] eqn:Hb; [|exact I].
      apply not_true_is_false. intros Hs. discriminate (Hsp b eq_refl Hs).
Qed.

Lemma TrimSpace_collapsed l :
  singleSpaces l = true ->
  singleSpaces (Go.strings.TrimSpace l) = true /\
  startsWithWord (Go.strings.TrimSpace l) = true.
Proof.
  intros Hs. unfold Go.strings.TrimSpace.
  destruct (trimLeft_spec (length l) l) as [(k & Hk) Hstart].
  specialize (Hstart (Nat.le_refl _)).
  set (t := Go.strings.trimLeft (length l) l) in *.
  assert (Ht : singleSpaces t = true) by (rewrite Hk; apply singleSpaces_skipn, Hs).
  destruct (trimRight_spec (length t) t) as [(j & Hj) Hend].
  specialize (Hend (Nat.le_refl _)). rewrite Hj in *. split.
  - apply last_firstn_not_space; assumption.
  - destruct t as [|b t']; [destruct j; reflexivity|].
    destruct j as [|j]; [reflexivity|]. exact Hstart.
Qed.

Lemma singleSpaces_lookup l (i : nat) b :
  singleSpaces l = true -> l !! i = Some b -> asciiSpace b = true ->
  b = x20 /\ exists b', l !! S i = Some b' /\ asciiSpace b' = false.
Proof.
  revert i. induction l as [|c l IH]; intros i Hs Hi Hb; [discriminate|].
  destruct i as [|i].
  - injection Hi as ->. cbn [singleSpaces] in Hs. rewrite Hb in Hs.
    apply andb_true_iff in Hs. destruct Hs as [Hs _].
    apply andb_true_iff in Hs. destruct Hs as [H1 H2].
    split; [apply byte_eqb_eq, H1|]. destruct l as [|b' l']; [discriminate|].
    exists b'. split; [reflexivity|]. apply negb_true_iff, H2.
  - apply (IH i); [eapply singleSpaces_tail, Hs|exact Hi|exact Hb].
Qed.

(** X25: with [NormalizeWhitespace], what [normalizeContent] returns has its
    ASCII white space collapsed: every tab, line feed, vertical tab, form
    feed, carriage return or space in it is a space, is not the first byte,
    and is followed by a byte that is not white space. *)
Theorem normalizeContent_collapses_whitespace m content :
  Config.NormalizeWhitespace (config m) = true ->
  let out := Monitor.normalizeContent m content in
  forall (i : nat) b,
    out !! i = Some b -> asciiSpace b = true ->
    b = x20 /\ (0 < i)%nat /\ exists b', out !! S i = Some b' /\ asciiSpace b' = false.
Proof.
  intros Hn out.
  assert (Hout : singleSpaces out = true /\ startsWithWord out = true).
  { subst out. unfold Monitor.normalizeContent. rewrite Hn.
    destruct (Z.eqb_spec (len content) 0) as [He|_].
    - destruct content; [split; reflexivity|unfold len in He; simpl in He; lia].
    - apply TrimSpace_collapsed, Join_collapsed, fieldsFrom_fields. constructor. }
  destruct Hout as [Hs Hw]. intros i b Hi Hb.
  destruct (singleSpaces_lookup out i b Hs Hi Hb) as [Hx Hnext].
  split; [exact Hx|]. split; [|exact Hnext].
  destruct i as [|i]; [|lia]. exfalso.
  destruct out as [|c out']; [discriminate|]. injection Hi as ->.
  cbn in Hw. rewrite Hb in Hw. discriminate.
Qed.

Lemma normalizeContent_collapses_whitespace_witness :
  Config.NormalizeWhitespace (config (Cases.normalizing true)) = true /\
  Monitor.normalizeContent (Cases.normalizing true) (Cases.B "  hello   world  ") !! 5%nat
    = Some x20 /\
  asciiSpace x20 = true /\
  exists b',
    Monitor.normalizeContent (Cases.normalizing true) (Cases.B "  hello   world  ") !! 6%nat
      = Some b' /\ asciiSpace b' = false.
Proof.
  assert (H : Config.NormalizeWhitespace (config (Cases.normalizing true)) = true)
    by reflexivity.
  assert (H5 : Monitor.normalizeContent (Cases.normalizing true)
                 (Cases.B "  hello   world  ") !! 5%nat = Some x20)
    by (vm_compute; reflexivity).
  assert (Hs : asciiSpace x20 = true) by reflexivity.
  split; [exact H|]. split; [exact H5|]. split; [exact Hs|].
  exact (proj2 (proj2 (normalizeContent_collapses_whitespace
                         (Cases.normalizing true) _ H 5%nat x20 H5 Hs))).
Defined.

(** ** pkg/utils and the hashes of the detector *)

Lemma round_length st kw :
  length (Go.sha256.round st kw) = length st.
Proof.
  unfold Go.sha256.round.
  do 9 (destruct st as [|? st]; [reflexivity|]). reflexivity.
Qed.

Lemma fold_round_length l st :
  length (fold_left Go.sha256.round l st) = length st.
Proof.
  revert st. induction l as [|kw l IH]; intros st; [reflexivity|].
  cbn [fold_left]. rewrite IH. apply round_length.
Qed.

Lemma zipAdd_length a b :
  length a = length b -> length (Go.sha256.zipAdd a b) = length a.
Proof.
  revert b. induction a as [|x a IH]; intros [|y b] H; try discriminate; [reflexivity|].
  cbn [Go.sha256.zipAdd length]. f_equal. apply IH. simpl in H. lia.
Qed.

Lemma blocks_length n h l :
  length (Go.sha256.blocks n h l) = length h.
Proof.
  revert h l. induction n as [|n IH]; intros h l; [reflexivity|].
  cbn [Go.sha256.blocks]. rewrite IH. unfold Go.sha256.block.
  apply zipAdd_length. symmetry. apply fold_round_length.
Qed.

Lemma be_bytes_length n z : length (Go.sha256.be_bytes n z) = n.
Proof. induction n as [|n IH]; [reflexivity|]. cbn [Go.sha256.be_bytes length]. lia. Qed.

Lemma flat_map_be_bytes_length ws :
  length (flat_map (Go.sha256.be_bytes 4) ws) = (4 * length ws)%nat.
Proof.
  induction ws as [|w ws IH]; [reflexivity|].
  cbn [flat_map]. rewrite length_app, be_bytes_length, IH. simpl. lia.
Qed.

Lemma Sum256_length msg : length (Go.sha256.Sum256 msg) = 32%nat.
Proof.
  unfold Go.sha256.Sum256. cbv zeta.
  rewrite flat_map_be_bytes_length, blocks_length. reflexivity.
Qed.

Lemma byteZ_range b : 0 <= byteZ b < 256.
Proof.
  unfold byteZ. pose proof (Byte.to_N_bounded b) as H. lia.
Qed.

Lemma hexdigit_hex z : 0 <= z < 16 -> isHexDigit (Go.hexdigit z) = true.
Proof.
  intros H.
  assert (Hz : z = 0 \/ z = 1 \/ z = 2 \/ z = 3 \/ z = 4 \/ z = 5 \/ z = 6 \/ z = 7 \/
               z = 8 \/ z = 9 \/ z = 10 \/ z = 11 \/ z = 12 \/ z = 13 \/ z = 14 \/ z = 15)
    by lia.
  repeat (destruct Hz as [->|Hz]; [reflexivity|]). subst z. reflexivity.
Qed.

Lemma hex_EncodeToString_spec l :
  String.length (Go.hex_EncodeToString l) = (2 * length l)%nat /\
  Forall (fun c => isHexDigit c = true) (list_ascii_of_string (Go.hex_EncodeToString l)).
Proof.
  induction l as [|b l [IH1 IH2]]; [split; [reflexivity|constructor]|].
  cbn [Go.hex_EncodeToString String.length list_ascii_of_string length].
  pose proof (byteZ_range b) as Hb. split; [lia|].
  constructor; [apply hexdigit_hex; split; [apply Z.div_pos; lia|apply Z.div_lt_upper_bound; lia]|].
  constructor; [apply hexdigit_hex, Z.mod_pos_bound; lia|]. exact IH2.
Qed.

(** X26: the hash the detector compares has 32 bytes for every content, and
    [CalculateSHA256] gives 64 lower-case hexadecimal digits for every
    input. *)
Theorem hashes_have_fixed_length :
  (forall content, len (Monitor.calculateHash content) = 32) /\
  (forall data,
     String.length (CalculateSHA256 data) = 64%nat /\
     Forall (fun c => isHexDigit c = true) (list_ascii_of_string (CalculateSHA256 data))).
Proof.
  split.
  - intros content. unfold len, Monitor.calculateHash. rewrite Sum256_length. reflexivity.
  - intros data. unfold CalculateSHA256.
    destruct (hex_EncodeToString_spec (Go.sha256.Sum256 data)) as [H1 H2].
    split; [rewrite H1, Sum256_length; reflexivity|exact H2].
Qed.

(** ** The fan-in *)

Lemma relays_init sent : relays sent (Fanin.init sent).
Proof.
  split_and!; cbn; try discriminate; try congruence.
  exists []. split_and!; [reflexivity|simpl; lia|reflexivity].
Qed.

Lemma relays_step sent a s s' :
  relays sent s -> Fanin.step a s = Some s' -> relays sent s'.
Proof.
  intros ((dropped & Hsent & Hlen & Hheld) & Hclosed & Hdone & Hpanic & Hret).
  unfold held, Fanin.canStillSend in *. unfold Fanin.step.
  destruct s as [dn cl st fw pd rc]. cbn in *.
  destruct a.
  - (* StopCancel *)
    destruct st; try (destruct fw; discriminate).
    intros H. assert (Hs' : s' = {| Fanin.done := true; Fanin.closed := cl;
                                    Fanin.stopper := Fanin.Cancelled; Fanin.forwarder := fw;
                                    Fanin.pending := pd; Fanin.received := rc |})
      by (destruct fw; congruence).
    subst s'. unfold relays, held, Fanin.canStillSend. cbn.
    split_and!; try reflexivity; try (intros; reflexivity).
    + exists dropped. split_and!; assumption.
    + intros Hc. specialize (Hclosed Hc). discriminate.
    + exact Hpanic.
  - (* StopMonitors *)
    destruct st; try (destruct fw; discriminate).
    intros H. assert (Hs' : s' = {| Fanin.done := dn; Fanin.closed := cl;
                                    Fanin.stopper := Fanin.MonitorsStopped; Fanin.forwarder := fw;
                                    Fanin.pending := pd; Fanin.received := rc |})
      by (destruct fw; congruence).
    subst s'. unfold relays, held, Fanin.canStillSend. cbn.
    split_and!.
    + exists dropped. split_and!; assumption.
    + intros Hc. specialize (Hclosed Hc). discriminate.
    + intros _. apply Hdone. discriminate.
    + exact Hpanic.
    + exact Hret.
  - (* StopClose *)
    destruct st; try (destruct fw; discriminate).
    intros H. assert (Hs' : s' = {| Fanin.done := dn; Fanin.closed := true;
                                    Fanin.stopper := Fanin.Closed; Fanin.forwarder := fw;
                                    Fanin.pending := pd; Fanin.received := rc |})
      by (destruct fw; congruence).
    subst s'. unfold relays, held, Fanin.canStillSend. cbn.
    split_and!.
    + exists dropped. split_and!; assumption.
    + reflexivity.
    + intros _. apply Hdone. discriminate.
    + reflexivity.
    + exact Hret.
  - (* Receive *)
    destruct fw; try (destruct st; discriminate).
    destruct pd as [|c rest]; [destruct st; discriminate|].
    intros H. assert (Hs' : s' = {| Fanin.done := dn; Fanin.closed := cl;
                                    Fanin.stopper := st; Fanin.forwarder := Fanin.Selecting c;
                                    Fanin.pending := rest; Fanin.received := rc |})
      by (destruct st; congruence).
    subst s'. unfold relays, held, Fanin.canStillSend. cbn.
    rewrite (Hheld eq_refl) in Hsent. cbn in Hsent.
    split_and!; try assumption; try discriminate.
    exists [c]. split_and!; [exact Hsent|simpl; lia|reflexivity].
  - (* RangeEnd *)
    destruct fw; try (destruct st; discriminate).
    destruct st; try discriminate; destruct pd; try discriminate; intros [= <-];
      unfold relays, held, Fanin.canStillSend; cbn;
      (split_and!; try assumption; try discriminate;
       [exists dropped; split_and!; [assumption|assumption|discriminate]
       |intros _; apply Hdone; discriminate]).
  - (* SelectSend *)
    destruct fw as [|c| |]; try (destruct st; discriminate).
    rewrite (Hheld eq_refl) in Hsent.
    intros H. destruct cl.
    + assert (Hs' : s' = {| Fanin.done := dn; Fanin.closed := true;
                            Fanin.stopper := st; Fanin.forwarder := Fanin.Panicked;
                            Fanin.pending := pd; Fanin.received := rc |})
        by (destruct st; congruence).
      subst s'. unfold relays, held, Fanin.canStillSend. cbn.
      split_and!; try assumption; try discriminate; try reflexivity.
      exists [c]. split_and!; [exact Hsent|simpl; lia|discriminate].
    + assert (Hs' : s' = {| Fanin.done := dn; Fanin.closed := false;
                            Fanin.stopper := st; Fanin.forwarder := Fanin.Ranging;
                            Fanin.pending := pd; Fanin.received := rc ++ [c] |})
        by (destruct st; congruence).
      subst s'. unfold relays, held, Fanin.canStillSend. cbn.
      split_and!; try assumption; try discriminate.
      exists []. split_and!; [rewrite <- app_assoc; exact Hsent|simpl; lia|reflexivity].
  - (* SelectDone *)
    destruct fw as [|c| |]; try (destruct st; discriminate).
    rewrite (Hheld eq_refl) in Hsent.
    intros H. destruct dn; [|destruct st; discriminate].
    assert (Hs' : s' = {| Fanin.done := true; Fanin.closed := cl;
                          Fanin.stopper := st; Fanin.forwarder := Fanin.Returned;
                          Fanin.pending := pd; Fanin.received := rc |})
      by (destruct st; congruence).
    subst s'. unfold relays, held, Fanin.canStillSend. cbn.
    split_and!; try assumption; try discriminate; try reflexivity.
    exists [c]. split_and!; [exact Hsent|simpl; lia|discriminate].
Qed.

Lemma relays_exec sent schedule s s' :
  relays sent s -> Fanin.exec schedule s = Some s' -> relays sent s'.
Proof.
  revert s. induction schedule as [|a schedule IH]; intros s Hs; cbn [Fanin.exec].
  - intros [= <-]. exact Hs.
  - destruct (Fanin.step a s) as [s1|] eqn:Hstep; [|discriminate].
    apply IH. eapply relays_step; eassumption.
Qed.

(** X27: whatever the schedule of [Stop] and [forwardChanges]: the reader of the
    shared stream has received what the monitor sent, in order and without
    repetition, up to the event the forwarder holds and those still to
    come; no event is lost while the forwarder runs, and at most one (the
    one it held) when it ends. The forwarder ends only after the context
    was cancelled, and panics only after the shared stream was closed. *)
Theorem forwarder_relays_in_order schedule sent s :
  Fanin.exec schedule (Fanin.init sent) = Some s ->
  (exists dropped,
     sent = Fanin.received s ++ dropped ++ Fanin.pending s /\
     (length dropped <= 1)%nat /\
     (Fanin.canStillSend s = true -> dropped = held s)) /\
  (Fanin.forwarder s = Fanin.Returned -> Fanin.done s = true) /\
  (Fanin.forwarder s = Fanin.Panicked -> Fanin.closed s = true) /\
  (Fanin.closed s = true -> Fanin.done s = true /\ Fanin.stopper s = Fanin.Closed).
Proof.
  intros H. destruct (relays_exec sent schedule _ _ (relays_init sent) H)
    as (Hrel & Hclosed & Hdone & Hpanic & Hret).
  split_and!; try assumption.
  intros Hc. pose proof (Hclosed Hc) as Hst. split; [|exact Hst].
  apply Hdone. rewrite Hst. discriminate.
Qed.

Lemma forwarder_relays_in_order_witness :
  let s := {| Fanin.done := false; Fanin.closed := false;
              Fanin.stopper := Fanin.NotCalled;
              Fanin.forwarder := Fanin.Selecting Cases.event;
              Fanin.pending := []; Fanin.received := [Cases.event] |} in
  Fanin.exec [Fanin.Receive; Fanin.SelectSend; Fanin.Receive]
    (Fanin.init [Cases.event; Cases.event]) = Some s /\
  exists dropped,
    [Cases.event; Cases.event] = Fanin.received s ++ dropped ++ Fanin.pending s /\
    (length dropped <= 1)%nat /\
    (Fanin.canStillSend s = true -> dropped = held s).
Proof.
  intros s.
  assert (H : Fanin.exec [Fanin.Receive; Fanin.SelectSend; Fanin.Receive]
                (Fanin.init [Cases.event; Cases.event]) = Some s) by reflexivity.
  split; [exact H|]. exact (proj1 (forwarder_relays_in_order _ _ _ H)).
Defined.

(** ** pkg/http *)

Lemma fold_Set_other order h key :
  (forall kv, kv ∈ order -> CanonicalMIMEHeaderKey kv.1 <> key) ->
  fold_left (fun h kv => Header.Set_ h kv.1 kv.2) order h !! key = h !! key.
Proof.
  revert h. induction order as [|kv order IH]; intros h Hno; [reflexivity|].
  cbn [fold_left]. rewrite IH by (intros kv' Hin; apply Hno; right; exact Hin).
  unfold Header.Set_. apply lookup_insert_ne. apply Hno. left.
Qed.

Lemma fold_Set_entry order h k v :
  (k, v) ∈ order ->
  (forall kv, kv ∈ order -> CanonicalMIMEHeaderKey kv.1 = CanonicalMIMEHeaderKey k ->
              kv = (k, v)) ->
  fold_left (fun h kv => Header.Set_ h kv.1 kv.2) order h !! CanonicalMIMEHeaderKey k
  = Some [v].
Proof.
  revert h. induction order as [|kv order IH]; intros h Hin Huniq; [inversion Hin|].
  cbn [fold_left]. destruct (decide ((k, v) ∈ order)) as [Hlater|Hnot].
  - apply IH; [exact Hlater|]. intros kv' Hin'. apply Huniq. right. exact Hin'.
  - apply elem_of_cons in Hin. destruct Hin as [<-|Hin]; [|contradiction].
    rewrite fold_Set_other.
    + unfold Header.Set_. cbn. apply lookup_insert_eq.
    + intros kv' Hin' Heq. apply Hnot. rewrite <- (Huniq kv'); [exact Hin'|right; exact Hin'|exact Heq].
Qed.

(** X28: what [AddHeaders] leaves in the header of the request, whatever the
    order in which the custom headers are visited. A custom header is there
    under its name, provided no other custom header has the same canonical
    name. The user agent is the default one when the request had none and
    no custom header names it, and the one of the request when it had one.
    Every header that no custom header names, the user agent apart, is as
    before. So the new request of a check, which [fetchContent] passes with
    [version.UserAgent()], carries [Hawkeye/dev] unless the configured
    headers name a user agent. *)
Theorem AddHeaders_sets_the_headers req (headers : gmap string string) order defaultUserAgent :
  order ≡ₚ map_to_list headers ->
  let out := AddHeaders req order defaultUserAgent in
  ((forall k1 k2, is_Some (headers !! k1) -> is_Some (headers !! k2) ->
                  CanonicalMIMEHeaderKey k1 = CanonicalMIMEHeaderKey k2 -> k1 = k2) ->
   forall k v, headers !! k = Some v -> Header.Get out k = v) /\
  ((forall k, is_Some (headers !! k) -> CanonicalMIMEHeaderKey k <> "User-Agent"%string) ->
   Header.Get out "User-Agent" =
     if decide (Header.Get req "User-Agent" = ""%string) then defaultUserAgent
     else Header.Get req "User-Agent") /\
  (forall key,
     CanonicalMIMEHeaderKey key <> "User-Agent"%string ->
     (forall k, is_Some (headers !! k) ->
                CanonicalMIMEHeaderKey k <> CanonicalMIMEHeaderKey key) ->
     out !! CanonicalMIMEHeaderKey key = req !! CanonicalMIMEHeaderKey key) /\
  ((forall k, is_Some (headers !! k) -> CanonicalMIMEHeaderKey k <> "User-Agent"%string) ->
   Header.Get (AddHeaders ∅ order UserAgent) "User-Agent" = "Hawkeye/dev"%string).
Proof.
  intros Hperm out.
  assert (Hin : forall k v, (k, v) ∈ order <-> headers !! k = Some v).
  { intros k v. rewrite Hperm. apply elem_of_map_to_list. }
  split_and!.
  - intros Hinj k v Hk. unfold Header.Get. subst out. unfold AddHeaders. cbv zeta.
    rewrite (fold_Set_entry order _ k v); [reflexivity|apply Hin, Hk|].
    intros [k' v'] Hin' Heq. apply Hin in Hin'. cbn in Heq.
    assert (k' = k) by (apply Hinj; eauto). subst k'. congruence.
  - intros Hno. unfold Header.Get at 1. subst out. unfold AddHeaders. cbv zeta.
    rewrite fold_Set_other.
    + destruct (decide (Header.Get req "User-Agent" = ""%string)) as [He|Hne].
      * unfold Header.Set_. rewrite lookup_insert_eq. reflexivity.
      * reflexivity.
    + intros [k v] Hkv. apply Hin in Hkv. cbn. intros Heq. apply (Hno k); [eauto|].
      rewrite Heq. reflexivity.
  - intros key Hua Hno. subst out. unfold AddHeaders. cbv zeta.
    rewrite fold_Set_other.
    + destruct (decide (Header.Get req "User-Agent" = ""%string)) as [He|Hne]; [|reflexivity].
      unfold Header.Set_. apply lookup_insert_ne. intros Heq. apply Hua. rewrite <- Heq.
      reflexivity.
    + intros [k v] Hkv. apply Hin in Hkv. cbn. apply Hno. eauto.
  - intros Hno. unfold Header.Get at 1. unfold AddHeaders. cbv zeta.
    rewrite fold_Set_other.
    + reflexivity.
    + intros [k v] Hkv. apply Hin in Hkv. cbn. intros Heq. apply (Hno k); [eauto|].
      rewrite Heq. reflexivity.
Qed.

(** [TestAddHeaders]: the custom headers and the default user agent on an
    empty request, and a custom user agent that replaces the default. *)
Example add_headers_cases :
  let headers := [("X-Test", "test-value"); ("Content-Type", "application/json")]%string in
  let out := AddHeaders ∅ headers "TestAgent/1.0" in
  Header.Get out "X-Test" = "test-value"%string /\
  Header.Get out "Content-Type" = "application/json"%string /\
  Header.Get out "User-Agent" = "TestAgent/1.0"%string /\
  Header.Get (AddHeaders ∅ [("User-Agent", "Custom/2.0")]%string "TestAgent/1.0") "User-Agent"
    = "Custom/2.0"%string /\
  Header.Get (AddHeaders ∅ [("user-agent", "Custom/2.0")]%string "TestAgent/1.0") "User-Agent"
    = "Custom/2.0"%string /\
  Header.Get (AddHeaders (Header.Set_ ∅ "User-Agent" "ExistingAgent/1.0") headers "TestAgent/1.0")
    "User-Agent" = "ExistingAgent/1.0"%string.
Proof. cbv zeta. split_and!; vm_compute; reflexivity. Qed.

(** ** The further properties at concrete inputs *)

Lemma length_details_witness :
  lastContent Fixtures.byLength = Some (Cases.B "ab") /\
  Config.Method (config Fixtures.byLength) = MethodLength /\
  changedOf (Monitor.detectChange Fixtures.byLength (Some (Cases.B "abc"))) = true /\
  firstDifference (Cases.B "ab") (Cases.B "abc") 2.
Proof.
  assert (Hchanged :
    (Monitor.detectChange Fixtures.byLength (Some (Cases.B "abc"))).1.2 = true)
    by (vm_compute; reflexivity).
  split; [reflexivity|]. split; [reflexivity|]. split; [exact Hchanged|].
  pose proof (triple_eta (Monitor.detectChange Fixtures.byLength (Some (Cases.B "abc")))) as H.
  rewrite Hchanged in H.
  pose proof (length_details Fixtures.byLength _ _ _ _ eq_refl eq_refl H)
    as (_ & _ & _ & Hfirst).
  vm_compute in Hfirst. exact Hfirst.
Defined.

Lemma successful_check_sets_baseline_witness :
  0 <= Config.RetryCount (config Cases.retryTwice) /\
  errorOf (Monitor.fetchWithRetry Cases.samePage (Monitor.checking Cases.retryTwice) Cases.start)
    = None /\
  lastContent (monitorAfter (Monitor.performCheck Cases.samePage Cases.retryTwice Cases.start))
    <> None.
Proof.
  assert (Hrc : 0 <= Config.RetryCount (config Cases.retryTwice)) by (simpl; lia).
  assert (He : (Monitor.fetchWithRetry Cases.samePage (Monitor.checking Cases.retryTwice)
                  Cases.start).1.1.2 = None) by (vm_compute; reflexivity).
  split; [exact Hrc|]. split; [exact He|].
  exact (proj1 (proj2 (successful_check_sets_baseline Cases.samePage Cases.retryTwice
                         Cases.start Hrc He))).
Defined.

Lemma run_sends_errors_until_observed_witness :
  let r := Monitor.onTicks Cases.always500 [0; 1; 2] Cases.retryTwice Cases.start in
  Monitor.run Cases.always500 [1; 2] Cases.retryTwice Cases.start
    = Ok (r.1.1, r.1.2, r.2 ++ [EClose]) /\
  unobserved r.1.1 /\
  length (sends (r.2 ++ [EClose])) = 3%nat /\
  Forall (fun c => exists w0 e, c = Monitor.errorChange Cases.retryTwice w0 e)
         (sends (r.2 ++ [EClose])).
Proof.
  intros r.
  assert (Hrun : Monitor.run Cases.always500 [1; 2] Cases.retryTwice Cases.start
                 = Ok (r.1.1, r.1.2, r.2 ++ [EClose])) by (vm_compute; reflexivity).
  assert (Hun : unobserved r.1.1) by (split; vm_compute; reflexivity).
  split; [exact Hrun|]. split; [exact Hun|]. split; [vm_compute; reflexivity|].
  exact (proj2 (run_sends_errors_until_observed _ _ _ _ _ _ _ Hrun Hun)).
Defined.

Lemma consistent_registered : consistent Cases.registered.
Proof.
  split; cbn.
  - intros url p H. apply lookup_singleton_Some in H. destruct H as [<- <-].
    split; [discriminate|]. eexists. split; reflexivity.
  - intros name g H. apply lookup_singleton_Some in H. destruct H as [<- <-].
    split; [reflexivity|]. cbn. intros url p H. exact H.
Qed.

Lemma consistent_preserved_witness :
  consistent Fixtures.allocated /\ consistent Cases.registered.
Proof.
  destruct consistent_preserved as (H0 & Halloc & Hadd & _ & Hcreate & Hgroup & _).
  assert (H1 : consistent Fixtures.allocated) by apply Halloc, H0.
  split; [exact H1|].
  destruct (Manager.AddMonitor 0%nat Fixtures.allocated) as [[s1 e]|msg] eqn:Ha;
    [|vm_compute in Ha; discriminate].
  pose proof (Hadd _ _ _ _ H1 Ha) as H2.
  pose proof (Hgroup Cases.url "test-group"%string _
                (Hcreate "test-group"%string "Test Group"%string _ H2)) as H3.
  assert (Hs1 : Ok (s1, e) = Manager.AddMonitor 0%nat Fixtures.allocated) by (symmetry; exact Ha).
  vm_compute in Hs1. injection Hs1 as -> ->.
  vm_compute in H3 |- *. exact H3.
Defined.

Lemma Stop_stops_every_monitor_witness :
  consistent Cases.registered /\
  exists s',
    Manager.Stop Cases.registered = Ok s' /\
    changeChannelClosed (manager s') = true /\
    exists msg, Manager.Stop s' = Panic msg.
Proof.
  split; [exact consistent_registered|].
  destruct (Manager.Stop Cases.registered) as [s'|msg] eqn:Hstop;
    [|vm_compute in Hstop; discriminate].
  exists s'. split; [reflexivity|].
  destruct (proj2 (Stop_stops_every_monitor Cases.registered consistent_registered) s' Hstop)
    as (_ & _ & _ & Hclosed & _ & _ & _ & Hagain).
  split; [exact Hclosed|exact Hagain].
Defined.

Lemma RemoveMonitor_then_lookup_witness :
  exists s',
    Manager.RemoveMonitor Cases.url Cases.registered = Ok (s', None) /\
    Manager.GetMonitor Cases.url s' = (None, Some (Manager.noMonitor Cases.url)) /\
    Manager.RemoveMonitor Cases.url s' = Ok (s', Some (Manager.noMonitor Cases.url)).
Proof.
  destruct (RemoveMonitor_registered Cases.url Cases.registered 0%nat
              (NewMonitor Cases.url (Second * 5)) eq_refl eq_refl eq_refl) as (s' & Hrem & _).
  exists s'. split; [exact Hrem|].
  destruct (RemoveMonitor_then_lookup _ _ _ Hrem) as (Hget & Hagain & _).
  split; [exact Hget|exact Hagain].
Defined.

Lemma AddHeaders_sets_the_headers_witness :
  [("X-Test", "test-value")]%string
    ≡ₚ map_to_list ({[ "X-Test"%string := "test-value"%string ]} : gmap string string) /\
  Header.Get (AddHeaders ∅ [("X-Test", "test-value")]%string UserAgent) "User-Agent"
    = "Hawkeye/dev"%string.
Proof.
  assert (Hperm : [("X-Test", "test-value")]%string
            ≡ₚ map_to_list ({[ "X-Test"%string := "test-value"%string ]} : gmap string string))
    by (rewrite map_to_list_singleton; reflexivity).
  split; [exact Hperm|].
  apply (proj2 (proj2 (proj2 (AddHeaders_sets_the_headers ∅ _ _ UserAgent Hperm)))).
  intros k [v Hk]. apply lookup_singleton_Some in Hk. destruct Hk as [<- _].
  vm_compute. discriminate.
Defined.

Lemma StopGroup_stops_the_members_witness :
  consistent Cases.registered /\
  exists s', Manager.StopGroup "test-group" Cases.registered = Ok (s', None).
Proof.
  split; [exact consistent_registered|].
  destruct (StopGroup_stops_the_members "test-group" Cases.registered) as [_ H].
  destruct (H _ consistent_registered eq_refl) as [[_ Hok] _].
  apply Hok. cbn. intros url p mon Hp. apply lookup_singleton_Some in Hp.
  destruct Hp as [_ <-]. cbn. intros [= <-]. reflexivity.
Defined.

Lemma StopMonitor_is_one_shot_witness :
  exists s',
    Manager.StopMonitor Cases.url Cases.registered = Ok (s', None) /\
    exists msg, Manager.RemoveMonitor Cases.url s' = Panic msg.
Proof.
  destruct (StopMonitor_is_one_shot Cases.url Cases.registered) as (_ & Hstop & Hafter).
  pose proof (Hstop 0%nat (NewMonitor Cases.url (Second * 5)) eq_refl eq_refl) as H.
  cbn [stopClosed NewMonitor NewMonitorWithConfig] in H.
  eexists. split; [exact H|]. exact (proj1 (proj2 (Hafter _ H))).
Defined.

Lemma AddMonitor_then_GetMonitor_witness :
  exists s',
    Manager.AddMonitor 0%nat Fixtures.allocated = Ok (s', None) /\
    Manager.GetMonitor Cases.url s' = (Some 0%nat, None).
Proof.
  assert (Hurl : Monitor.GetURL (NewMonitor Cases.url (Second * 5)) <> ""%string)
    by discriminate.
  pose proof (AddMonitor_fresh 0%nat Fixtures.allocated (NewMonitor Cases.url (Second * 5))
                eq_refl Hurl eq_refl) as Ha.
  eexists. split; [exact Ha|].
  destruct (proj2 (proj2 (AddMonitor_then_GetMonitor 0%nat Fixtures.allocated)) _ Ha)
    as (mon & Hheap & _ & _ & Hget & _).
  injection Hheap as <-. exact Hget.
Defined.


Lemma CreateGroup_then_GetGroup_witness :
  exists s' group,
    Manager.CreateGroup "test-group" "Test Group" emptySys = (s', Some group, None) /\
    Manager.GetGroup "test-group" s' = (Some group, None).
Proof.
  destruct (proj2 (CreateGroup_then_GetGroup "test-group" "Test Group" emptySys) eq_refl)
    as (s' & group & Hc & _ & _ & _ & Hg & _).
  exists s', group. split; [exact Hc|exact Hg].
Defined.

Lemma AddToGroup_adds_the_registered_monitor_witness :
  exists s',
    Manager.AddToGroup Cases.url "test-group" Cases.registered = (s', None) /\
    Manager.AddToGroup Cases.url "test-group" s' = (s', None).
Proof.
  destruct (AddToGroup_adds_the_registered_monitor Cases.url "test-group" Cases.registered)
    as (_ & _ & H).
  destruct (H _ _ eq_refl eq_refl) as (s' & group' & Ha & _ & _ & _ & _ & _ & _ & _ & _ & Hagain).
  exists s'. split; [exact Ha|exact Hagain].
Defined.
